(** * bar-deals backend: the recurrence expander, the event filter builder,
      the store adapter and the CSV import of [src/backend/server.js]

    The development embeds the request handlers of the Express server as
    pure functions over an explicit table.  The collaborators the server
    only calls (the JavaScript [Date] parser and the host time zone,
    [parseFloat], the geocoding web service, PostgreSQL's casts and
    PostGIS' [ST_DWithin]) are the fields of the records [Host] and
    [Postgres]. *)

From Stdlib Require Import String Ascii ZArith List Bool Lia PrimFloat.
From Stdlib Require Import Sorted Permutation.
Import ListNotations.

Local Open Scope string_scope.
Local Open Scope list_scope.
Local Open Scope Z_scope.

(** ** JavaScript [Date] objects *)

Module JsDate.

(** The time value of a [Date]: milliseconds since the epoch, or NaN
    ([None]) for an Invalid Date. *)
Definition Date := option Z.

Definition msPerDay : Z := 86400000.
Definition maxTime : Z := 8640000000000000.

(** ECMAScript [TimeClip]. *)
Definition TimeClip (t : Z) : Date :=
  if Z.abs t <=? maxTime then Some t else None.

(** The host time zone, as the two conversions [setDate] goes through. *)
Record TimeZone := { LocalTime : Z -> Z; UTC : Z -> Z }.

(** A zone at a constant offset from UTC (no daylight-saving shifts). *)
Definition fixedZone (offset : Z) : TimeZone :=
  {| LocalTime := fun t => t + offset; UTC := fun t => t - offset |}.

Definition utcZone : TimeZone := fixedZone 0.

(** In a zone where calendar arithmetic is elapsed-time arithmetic, moving
    the local clock by [d] moves the instant by [d]. *)
Definition calendarExact (tz : TimeZone) : Prop :=
  forall t d, UTC tz (LocalTime tz t + d) = t + d.

(** [new Date(v)] for [v] a [Date] or [null]: a copy of the time value;
    [null] converts to the number 0, the epoch. *)
Definition newDate (v : option Date) : Date :=
  match v with
  | Some d => d
  | None => Some 0
  end.

(** [x.setDate(x.getDate() + n)]: the day of the local time moves by [n],
    the time within the day stays, and the result goes back through [UTC]
    and [TimeClip]. *)
Definition setDatePlus (tz : TimeZone) (x : Date) (n : Z) : Date :=
  match x with
  | None => None
  | Some t => TimeClip (UTC tz (LocalTime tz t + n * msPerDay))
  end.

(** [function addDays(d, n) { const x = new Date(d); x.setDate(x.getDate() + n); return x; }] *)
Definition addDays (tz : TimeZone) (d : option Date) (n : Z) : Date :=
  let x := newDate d in setDatePlus tz x n.

(** [function addWeeks(d, n) { return addDays(d, n * 7); }] *)
Definition addWeeks (tz : TimeZone) (d : option Date) (n : Z) : Date :=
  addDays tz d (n * 7).

(** The number a [Date] or [null] converts to in a comparison. *)
Definition valueOf (v : option Date) : option Z :=
  match v with
  | Some d => d
  | None => Some 0
  end.

(** [a <= b] on numbers: false as soon as one side is NaN. *)
Definition numLe (a b : option Z) : bool :=
  match a, b with
  | Some x, Some y => x <=? y
  | _, _ => false
  end.

(** [currentStart <= until] *)
Definition dateLe (a : Date) (b : option Date) : bool :=
  numLe a (valueOf b).

End JsDate.

(** ** Recurrence expansion (POST /admin/events and POST /admin/import) *)

Module Recurrence.
Import JsDate.

(** One element of [instances]: [{ start, end }], [end] possibly [null]. *)
Record instance := { inst_start : Date; inst_end : option Date }.

(** [const until = recurrence_until ? new Date(recurrence_until)
       : (recurrence === "daily" ? addDays(start, 30)
         : recurrence === "weekly" ? addWeeks(start, 8) : start);]
    [recurrence_until] is given as the [Date] built from it when it is
    truthy and as [None] when it is not. *)
Definition untilOf (tz : TimeZone) (start : option Date) (recurrence : string)
    (recurrence_until : option Date) : option Date :=
  match recurrence_until with
  | Some u => Some u
  | None =>
      if String.eqb recurrence "daily" then Some (addDays tz start 30)
      else if String.eqb recurrence "weekly" then Some (addWeeks tz start 8)
      else start
  end.

(** [const step = recurrence === "daily" ? (d) => addDays(d, 1)
       : recurrence === "weekly" ? (d) => addWeeks(d, 1) : null;] *)
Definition stepOf (tz : TimeZone) (recurrence : string) : option (Date -> Date) :=
  if String.eqb recurrence "daily" then Some (fun d => addDays tz (Some d) 1)
  else if String.eqb recurrence "weekly" then Some (fun d => addWeeks tz (Some d) 1)
  else None.

(** The [while (currentStart <= until) { ... }] loop.  [fuel] bounds the
    number of iterations; [None] means the fuel ran out. *)
Fixpoint recurrenceLoop (fuel : nat) (step : Date -> Date) (until : option Date)
    (currentStart : Date) (currentEnd : option Date) (instances : list instance)
    : option (list instance) :=
  match fuel with
  | O => None
  | S fuel' =>
      if dateLe currentStart until then
        let instances :=
          instances ++ [{| inst_start := currentStart; inst_end := currentEnd |}] in
        let currentStart := step currentStart in
        let currentEnd := option_map step currentEnd in
        if (200 <? Z.of_nat (length instances)) then Some instances
        else recurrenceLoop fuel' step until currentStart currentEnd instances
      else Some instances
  end.

(** Iterations that are always enough: see [recurrenceLoop_total]. *)
Definition loopFuel : nat := 201.

(** The expansion both handlers share, from [let currentStart = new Date(start)]
    to the end of the loop. *)
Definition expandWith (fuel : nat) (tz : TimeZone) (start end_ : option Date)
    (recurrence : string) (until : option Date) : option (list instance) :=
  let currentStart := newDate start in
  let currentEnd :=
    match end_ with
    | Some e => Some (newDate (Some e))
    | None => None
    end in
  match stepOf tz recurrence with
  | None => Some [{| inst_start := currentStart; inst_end := currentEnd |}]
  | Some step => recurrenceLoop fuel step until currentStart currentEnd []
  end.

Definition expand (tz : TimeZone) (start end_ : option Date)
    (recurrence : string) (recurrence_until : option Date) : option (list instance) :=
  expandWith loopFuel tz start end_ recurrence
    (untilOf tz start recurrence recurrence_until).

End Recurrence.

(** ** JavaScript strings

    Strings are modelled on their ASCII range: [toLowerCase] folds [A-Z],
    and [trim] strips the ASCII white space and line terminators. *)

Module JsString.

(** [Boolean(s)] for a string: the empty string is the only falsy one. *)
Definition truthy (s : string) : bool :=
  match s with
  | EmptyString => false
  | String _ _ => true
  end.

(** Truthiness of a value that is a string or [undefined]/[null]. *)
Definition truthyOpt (v : option string) : bool :=
  match v with
  | Some s => truthy s
  | None => false
  end.

(** [v || null] for such a value. *)
Definition orNull (v : option string) : option string :=
  if truthyOpt v then v else None.

Definition lowerChar (c : ascii) : ascii :=
  let n := N_of_ascii c in
  if ((65 <=? n) && (n <=? 90))%N then ascii_of_N (n + 32) else c.

(** [s.toLowerCase()] *)
Fixpoint toLowerCase (s : string) : string :=
  match s with
  | EmptyString => EmptyString
  | String c r => String (lowerChar c) (toLowerCase r)
  end.

(** White space and line terminators: TAB, LF, VT, FF, CR, SP. *)
Definition isSpace (c : ascii) : bool :=
  let n := N_of_ascii c in
  (((9 <=? n) && (n <=? 13)) || (n =? 32))%N.

Fixpoint trimStart (s : string) : string :=
  match s with
  | EmptyString => EmptyString
  | String c r => if isSpace c then trimStart r else s
  end.

Fixpoint trimEnd (s : string) : string :=
  match s with
  | EmptyString => EmptyString
  | String c r =>
      match trimEnd r with
      | EmptyString => if isSpace c then EmptyString else String c EmptyString
      | r' => String c r'
      end
  end.

(** [s.trim()] *)
Definition trim (s : string) : string := trimEnd (trimStart s).

(** [s.split(sep)] for a one-character separator: never the empty list. *)
Fixpoint split (sep : ascii) (s : string) : list string :=
  match s with
  | EmptyString => [EmptyString]
  | String c r =>
      if Ascii.eqb c sep then EmptyString :: split sep r
      else match split sep r with
           | h :: t => String c h :: t
           | [] => [String c EmptyString]
           end
  end.

Definition comma : ascii := ","%char.
Definition LF : ascii := ascii_of_N 10.
Definition CR : ascii := ascii_of_N 13.

(** [s.split(/\r?\n/)]: a line ends at LF or at CR immediately followed
    by LF; a CR elsewhere is an ordinary character. *)
Fixpoint splitLines (s : string) : list string :=
  match s with
  | EmptyString => [EmptyString]
  | String c r =>
      if Ascii.eqb c LF then EmptyString :: splitLines r
      else
        match r with
        | String c' r' =>
            if Ascii.eqb c CR && Ascii.eqb c' LF then EmptyString :: splitLines r'
            else match splitLines r with
                 | h :: t => String c h :: t
                 | [] => [String c EmptyString]
                 end
        | EmptyString => [String c EmptyString]
        end
  end.

(** [arr.indexOf(x) === -1] *)
Definition missing (x : string) (arr : list string) : bool :=
  negb (existsb (String.eqb x) arr).

(** Insertion into a [Set]: an element already present is not added. *)
Definition setAdd (acc : list string) (x : string) : list string :=
  if existsb (String.eqb x) acc then acc else acc ++ [x].

(** [[...new Set(arr)]]: the distinct elements in order of first occurrence. *)
Definition setOf (arr : list string) : list string :=
  fold_left setAdd arr [].

End JsString.

(** ** The collaborators the server calls *)

(** What the JavaScript host and the network provide. *)
Record Host := {
  (** the time zone [Date.prototype.setDate] and [getDate] work in *)
  hostZone : JsDate.TimeZone;
  (** [new Date(s)] for a string [s] *)
  parseDate : string -> JsDate.Date;
  (** [parseFloat(s)] *)
  parseFloat : string -> float;
  (** The geocoding lookup for an address: the [lat] and [lon] fields of the
      candidates of the JSON array in the answer (no candidate when the
      answer is not an array), or [None] when the request fails. *)
  nominatim : string -> option (list (string * string))
}.

(** A geography point: [ST_MakePoint(x, y)], [x] the longitude and [y] the
    latitude. *)
Record point := { pt_x : float; pt_y : float }.

(** What the PostgreSQL/PostGIS store provides. *)
Record Postgres := {
  (** the cast of a text parameter to a timestamp, [None] when it fails *)
  pgTimestamp : string -> option Z;
  (** the cast of a text parameter to the integer type of [id] *)
  pgInteger : string -> option Z;
  (** [ST_DWithin(location, center, meters)] *)
  ST_DWithin : point -> point -> float -> bool;
  (** [NOW()] *)
  pgNow : Z
}.

(** ** Geo resolver *)

Module Geo.
Import JsString.

(** [{ lat, lon }] *)
Record coords := { lat : option float; lon : option float }.

(** [geocodeIfNeeded({ address, lat, lon })]; [None] when the lookup throws. *)
Definition geocodeIfNeeded (h : Host) (address : option string)
    (lat lon : option float) : option coords :=
  match lat, lon with
  | Some _, Some _ => Some {| lat := lat; lon := lon |}
  | _, _ =>
      match address with
      | Some a =>
          if truthy a then
            match nominatim h a with
            | None => None
            | Some ((la, lo) :: _) =>
                Some {| lat := Some (parseFloat h la); lon := Some (parseFloat h lo) |}
            | Some [] => Some {| lat := None; lon := None |}
            end
          else Some {| lat := None; lon := None |}
      | None => Some {| lat := None; lon := None |}
      end
  end.

End Geo.

(** ** Statements, parameters and stored rows *)

Module Sql.
Import JsDate.

(** A bound parameter, or the content of a column. *)
Inductive value :=
| VNull
| VText (s : string)
| VTextArray (l : list string)
| VFloat (f : float)
| VDate (d : Date).

(** A string, [undefined] or [null] as a parameter. *)
Definition ofString (v : option string) : value :=
  match v with
  | Some s => VText s
  | None => VNull
  end.

(** A [Date] or [null] as a parameter. *)
Definition ofDate (v : option Date) : value :=
  match v with
  | Some d => VDate d
  | None => VNull
  end.

(** [$n]: parameters are numbered from 1; a number past the end is not bound. *)
Definition param (params : list value) (n : nat) : value :=
  match n with
  | O => VNull
  | S i => nth i params VNull
  end.

(** A row of [events]. *)
Record row := {
  r_id : Z;
  r_name : value;
  r_type : value;
  r_description : value;
  r_address_name : value;
  r_address : value;
  r_location : option point;
  r_start_time : value;
  r_end_time : value
}.

(** The table and the next identifier of its sequence. *)
Record store := { rows : list row; nextId : Z }.

(** The expression written for the [location] column. *)
Inductive locExpr :=
| LocNull
| LocMakePoint (px py : nat).

(** [ST_SetSRID(ST_MakePoint($px, $py), 4326)::geography]; NULL unless both
    parameters are numbers. *)
Definition evalLoc (e : locExpr) (params : list value) : option point :=
  match e with
  | LocNull => None
  | LocMakePoint px py =>
      match param params px, param params py with
      | VFloat x, VFloat y => Some {| pt_x := x; pt_y := y |}
      | _, _ => None
      end
  end.

(** [INSERT INTO events (name, type, description, address_name, address,
    location, start_time, end_time) VALUES ($1, $2, $3, $4, $5, <loc>, $6, $7)
    RETURNING id] *)
Record insertStmt := { ins_location : locExpr; ins_params : list value }.

(** The statement on a store that accepts it: the new row takes the next
    id.  A statement the store refuses (the driver throws, and the handler
    that sent it answers 500 from its [catch], rows written by earlier
    statements staying in the table) is outside this model: every handler
    below is read on a store that accepts what it is sent. *)
Definition execInsert (q : insertStmt) (st : store) : Z * store :=
  let p := param (ins_params q) in
  let r := {| r_id := nextId st;
              r_name := p 1%nat; r_type := p 2%nat; r_description := p 3%nat;
              r_address_name := p 4%nat; r_address := p 5%nat;
              r_location := evalLoc (ins_location q) (ins_params q);
              r_start_time := p 6%nat; r_end_time := p 7%nat |} in
  (nextId st, {| rows := rows st ++ [r]; nextId := nextId st + 1 |}).

(** [UPDATE events SET name=$1, type=$2, description=$3, address_name=$4,
    address=$5, start_time=$6, end_time=$7 <setLoc> WHERE id=$w];
    [upd_setLoc] is the optional [, location = ...] assignment. *)
Record updateStmt := {
  upd_setLoc : option locExpr;
  upd_where : nat;
  upd_params : list value
}.

(** The columns an [UPDATE] assigns. *)
Inductive column :=
| ColName | ColType | ColDescription | ColAddressName | ColAddress
| ColLocation | ColStartTime | ColEndTime.

Definition assigned (q : updateStmt) : list column :=
  [ColName; ColType; ColDescription; ColAddressName; ColAddress;
   ColStartTime; ColEndTime]
  ++ match upd_setLoc q with
     | Some _ => [ColLocation]
     | None => []
     end.

(** [id = $w] *)
Definition idIs (pg : Postgres) (v : value) (r : row) : bool :=
  match v with
  | VText s =>
      match pgInteger pg s with
      | Some i => r_id r =? i
      | None => false
      end
  | _ => false
  end.

Definition updateRow (q : updateStmt) (r : row) : row :=
  let p := param (upd_params q) in
  {| r_id := r_id r;
     r_name := p 1%nat; r_type := p 2%nat; r_description := p 3%nat;
     r_address_name := p 4%nat; r_address := p 5%nat;
     r_location :=
       match upd_setLoc q with
       | Some e => evalLoc e (upd_params q)
       | None => r_location r
       end;
     r_start_time := p 6%nat; r_end_time := p 7%nat |}.

Definition execUpdate (pg : Postgres) (q : updateStmt) (st : store) : store :=
  {| rows := map (fun r => if idIs pg (param (upd_params q) (upd_where q)) r
                           then updateRow q r else r) (rows st);
     nextId := nextId st |}.

(** The columns every [SELECT] of the server returns: [lon] is
    [ST_X(ST_Transform(location::geometry, 4326))] and [lat] the [ST_Y]
    of the same point; both are NULL on a NULL location. *)
Record record := {
  o_id : Z;
  o_name : value;
  o_type : value;
  o_description : value;
  o_address_name : value;
  o_address : value;
  o_lon : option float;
  o_lat : option float;
  o_start_time : value;
  o_end_time : value
}.

Definition ST_X (g : option point) : option float := option_map pt_x g.
Definition ST_Y (g : option point) : option float := option_map pt_y g.

Definition selectRow (r : row) : record :=
  {| o_id := r_id r; o_name := r_name r; o_type := r_type r;
     o_description := r_description r; o_address_name := r_address_name r;
     o_address := r_address r;
     o_lon := ST_X (r_location r); o_lat := ST_Y (r_location r);
     o_start_time := r_start_time r; o_end_time := r_end_time r |}.

End Sql.

(** ** Event store adapter *)

Module Adapter.
Import JsDate JsString Sql.

(** The object handed to [insertEvent].  A field is the value the driver
    binds for it; [lat] and [lon] are numbers or [null]/[undefined]. *)
Record event := {
  ev_name : value;
  ev_type : value;
  ev_description : value;
  ev_address_name : value;
  ev_address : value;
  ev_lat : option float;
  ev_lon : option float;
  ev_start_time : value;
  ev_end_time : value
}.

(** [Boolean(v)] *)
Definition truthyValue (v : value) : bool :=
  match v with
  | VNull => false
  | VText s => truthy s
  | VTextArray _ => true
  | VFloat f => negb (PrimFloat.eqb f 0 || PrimFloat.is_nan f)
  | VDate _ => true
  end.

(** [v || null] *)
Definition orNullValue (v : value) : value :=
  if truthyValue v then v else VNull.

(** [insertEvent(ev)], up to the statement and its parameters. *)
Definition insertStatement (ev : event) : insertStmt :=
  let params :=
    [ev_name ev; ev_type ev; orNullValue (ev_description ev);
     orNullValue (ev_address_name ev); orNullValue (ev_address ev);
     ev_start_time ev; orNullValue (ev_end_time ev)] in
  match ev_lat ev, ev_lon ev with
  | Some la, Some lo =>
      let params := params ++ [VFloat lo; VFloat la] in
      {| ins_location := LocMakePoint (length params - 1) (length params);
         ins_params := params |}
  | _, _ => {| ins_location := LocNull; ins_params := params |}
  end.

(** [insertEvent(ev)]: runs the statement and returns [rows[0].id]. *)
Definition insertEvent (ev : event) (st : store) : Z * store :=
  execInsert (insertStatement ev) st.

(** The body of PUT /admin/events/:id. *)
Record putBody := {
  put_name : option string;
  put_type : option string;
  put_description : option string;
  put_address_name : option string;
  put_address : option string;
  put_lat : option float;
  put_lon : option float;
  put_start_time : option string;
  put_end_time : option string
}.

(** The statement of PUT /admin/events/:id, from the body, the resolved
    coordinates and the [:id] of the route. *)
Definition updateStatement (b : putBody) (geo : Geo.coords) (id : string)
    : updateStmt :=
  let params :=
    [ofString (put_name b); ofString (put_type b);
     ofString (orNull (put_description b)); ofString (orNull (put_address_name b));
     ofString (orNull (put_address b)); ofString (put_start_time b);
     ofString (orNull (put_end_time b))] in
  match Geo.lat geo, Geo.lon geo with
  | Some la, Some lo =>
      let params := params ++ [VFloat lo; VFloat la] in
      let params := params ++ [VText id] in
      {| upd_setLoc := Some (LocMakePoint 8 9); upd_where := 10; upd_params := params |}
  | _, _ =>
      let params := params ++ [VText id] in
      {| upd_setLoc := None; upd_where := 8; upd_params := params |}
  end.

End Adapter.

(** ** Event filter builder (GET /events) *)

Module Filter.
Import JsString Sql.

(** An element of an array-valued query parameter: a string, or a nested
    array of strings. *)
Inductive qitem :=
| IStr (s : string)
| IArr (l : list string).

(** A query parameter: absent, a string, or an array. *)
Inductive qparam :=
| QAbsent
| QStr (s : string)
| QArr (l : list qitem).

(** [req.query].  The three type parameters may be repeated; the other
    parameters are taken as single strings, [None] when absent. *)
Record query := {
  q_types : qparam;        (* types *)
  q_type : qparam;         (* type *)
  q_typesArr : qparam;     (* types[] *)
  q_lat : option string;
  q_lng : option string;
  q_radius : option string;
  q_date : option string;
  q_timeOfDay : option string
}.

(** [[].concat(v ?? [])]: an array contributes its elements, a string
    itself, an absent parameter nothing. *)
Definition concatArg (v : qparam) : list qitem :=
  match v with
  | QAbsent => []
  | QStr s => [IStr s]
  | QArr l => l
  end.

Definition rawOf (q : query) : list qitem :=
  (([] ++ concatArg (q_types q)) ++ concatArg (q_type q)) ++ concatArg (q_typesArr q).

(** One turn of [for (const item of raw)]. *)
Definition pushItem (types : list string) (item : qitem) : list string :=
  match item with
  | IArr l => fold_left (fun types v => types ++ split comma v) l types
  | IStr s => types ++ split comma s
  end.

(** The parsed type list: [[...new Set(types.map(s => s.trim())
    .filter(Boolean).map(s => s.toLowerCase()))]]. *)
Definition typesOf (q : query) : list string :=
  let types := fold_left pushItem (rawOf q) [] in
  setOf (map toLowerCase (filter truthy (map trim types))).

(** [boundsFor(d, tod)]: the helper of the handler and the function of the
    same name above it have the same body. *)
Definition boundsFor (d : string) (tod : option string) : string * string :=
  let t := toLowerCase (match orNull tod with Some s => s | None => "" end) in
  let '(startHH, endHH) :=
    if String.eqb t "morning" then ("05:00:00", "11:59:59")
    else if String.eqb t "afternoon" then ("12:00:00", "16:59:59")
    else if String.eqb t "evening" then ("17:00:00", "23:59:59")
    else ("00:00:00", "23:59:59") in
  (d ++ " " ++ startHH, d ++ " " ++ endHH)%string.

(** A conjunct of the WHERE clause; numbers are parameter numbers. *)
Inductive cond :=
| CTypeAny (p : nat)              (* LOWER(type) = ANY($p::text[]) *)
| CStartGe (p : nat)              (* start_time >= $p *)
| CStartLe (p : nat)              (* start_time <= $p *)
| CStartGeNow                     (* start_time >= NOW() *)
| CLocNotNull                     (* location IS NOT NULL *)
| CDWithin (px py pr : nat).      (* ST_DWithin(location, point($px, $py), $pr) *)

(** [q] and [params] as the handler grows them. *)
Record select := { sel_where : list cond; sel_params : list value }.

Definition milesToMeters : float := 0x1.9255c28f5c28fp+10%float.

Definition withTypes (types : list string) (s : select) : select :=
  match types with
  | [] => s
  | _ :: _ =>
      let params := sel_params s ++ [VTextArray types] in
      {| sel_where := sel_where s ++ [CTypeAny (length params)];
         sel_params := params |}
  end.

Definition withDate (date tod : option string) (s : select) : select :=
  match date with
  | Some d =>
      if truthy d then
        let '(fromTs, toTs) := boundsFor d tod in
        let params := sel_params s ++ [VText fromTs; VText toTs] in
        {| sel_where := sel_where s
                        ++ [CStartGe (length params - 1); CStartLe (length params)];
           sel_params := params |}
      else {| sel_where := sel_where s ++ [CStartGeNow]; sel_params := sel_params s |}
  | None => {| sel_where := sel_where s ++ [CStartGeNow]; sel_params := sel_params s |}
  end.

(** [if (lat && lng && radius)] *)
Definition radiusGiven (q : query) : bool :=
  truthyOpt (q_lat q) && truthyOpt (q_lng q) && truthyOpt (q_radius q).

Definition withRadius (h : Host) (q : query) (s : select) : select :=
  match q_lat q, q_lng q, q_radius q with
  | Some lat, Some lng, Some radius =>
      if truthy lat && truthy lng && truthy radius then
        let params := sel_params s
          ++ [VFloat (parseFloat h lng); VFloat (parseFloat h lat);
              VFloat (PrimFloat.mul (parseFloat h radius) milesToMeters)] in
        {| sel_where := sel_where s
             ++ [CLocNotNull;
                 CDWithin (length params - 2) (length params - 1) (length params)];
           sel_params := params |}
      else s
  | _, _, _ => s
  end.

(** The statement GET /events sends (ORDER BY start_time ASC LIMIT 200
    follows the WHERE clause). *)
Definition buildQuery (h : Host) (q : query) : select :=
  withRadius h q
    (withDate (q_date q) (q_timeOfDay q)
       (withTypes (typesOf q) {| sel_where := []; sel_params := [] |})).

(** The SQL [LOWER] on the ASCII range. *)
Definition LOWER (s : string) : string := toLowerCase s.

(** A value as a timestamp: a text goes through the store's cast. *)
Definition asTimestamp (pg : Postgres) (v : value) : option Z :=
  match v with
  | VText s => pgTimestamp pg s
  | VDate d => d
  | _ => None
  end.

(** One conjunct on one row; a NULL or a failed cast selects no row. *)
Definition holds (pg : Postgres) (params : list value) (r : row) (c : cond) : bool :=
  match c with
  | CTypeAny p =>
      match r_type r, param params p with
      | VText t, VTextArray l => existsb (String.eqb (LOWER t)) l
      | _, _ => false
      end
  | CStartGe p =>
      match asTimestamp pg (r_start_time r), asTimestamp pg (param params p) with
      | Some t, Some b => b <=? t
      | _, _ => false
      end
  | CStartLe p =>
      match asTimestamp pg (r_start_time r), asTimestamp pg (param params p) with
      | Some t, Some b => t <=? b
      | _, _ => false
      end
  | CStartGeNow =>
      match asTimestamp pg (r_start_time r) with
      | Some t => pgNow pg <=? t
      | None => false
      end
  | CLocNotNull =>
      match r_location r with
      | Some _ => true
      | None => false
      end
  | CDWithin px py pr =>
      match r_location r, param params px, param params py, param params pr with
      | Some g, VFloat x, VFloat y, VFloat m =>
          ST_DWithin pg g {| pt_x := x; pt_y := y |} m
      | _, _, _, _ => false
      end
  end.

(** The WHERE clause on one row. *)
Definition matches (pg : Postgres) (s : select) (r : row) : bool :=
  forallb (holds pg (sel_params s) r) (sel_where s).

End Filter.

(** ** Request handlers of the admin surface *)

Module Handlers.
Import JsDate JsString Sql Adapter Recurrence.

Inductive response :=
| BadRequest (error : string)            (* 400 { error } *)
| NotFound                                (* 404 { error: "Not found" } *)
| ServerError                             (* 500 { error: "Server error" } *)
| Created (inserted : nat) (ids : list Z) (* { success: true, inserted, ids } *)
| Imported (inserted : nat)               (* { success: true, inserted } *)
| Updated                                 (* { success: true } *)
| Duplicated (id : Z).                    (* { success: true, id } *)

(** [toTimestamp(dt)] on a string, [null] or [undefined]. *)
Definition toTimestamp (h : Host) (dt : option string) : option Date :=
  match orNull dt with
  | Some s => Some (parseDate h s)
  | None => None
  end.

(** The expansion of one creation or import record: [until], then the
    instances.  [None] only if the loop ran out of fuel. *)
Definition expandRecord (h : Host) (start_time end_time : option string)
    (recurrence : string) (recurrence_until : option string)
    : option (list instance) :=
  let start := toTimestamp h start_time in
  let end_ := toTimestamp h end_time in
  expand (hostZone h) start end_ recurrence (toTimestamp h recurrence_until).

(** The body of POST /admin/events. *)
Record postBody := {
  post_name : option string;
  post_type : option string;
  post_description : option string;
  post_address_name : option string;
  post_address : option string;
  post_lat : option float;
  post_lon : option float;
  post_start_time : option string;
  post_end_time : option string;
  post_recurrence : option string;
  post_recurrence_until : option string
}.

(** [for (const inst of instances) { const id = await insertEvent({...}); ids.push(id); }] *)
Definition insertAll (mk : instance -> event) (instances : list instance)
    (st : store) : list Z * store :=
  fold_left (fun acc inst =>
               let '(id, st') := insertEvent (mk inst) (snd acc) in
               (fst acc ++ [id], st'))
            instances ([], st).

(** POST /admin/events *)
Definition postEvent (h : Host) (b : postBody) (st : store)
    : option (response * store) :=
  if negb (truthyOpt (post_name b)) || negb (truthyOpt (post_type b))
     || negb (truthyOpt (post_start_time b))
  then Some (BadRequest "name, type, start_time are required", st)
  else
    match Geo.geocodeIfNeeded h (post_address b) (post_lat b) (post_lon b) with
    | None => Some (ServerError, st)
    | Some geo =>
        let recurrence :=
          match post_recurrence b with Some r => r | None => "none" end in
        match expandRecord h (post_start_time b) (post_end_time b) recurrence
                (post_recurrence_until b) with
        | None => None
        | Some instances =>
            let mk inst :=
              {| ev_name := ofString (post_name b); ev_type := ofString (post_type b);
                 ev_description := ofString (post_description b);
                 ev_address_name := ofString (post_address_name b);
                 ev_address := ofString (post_address b);
                 ev_lat := Geo.lat geo; ev_lon := Geo.lon geo;
                 ev_start_time := VDate (inst_start inst);
                 ev_end_time := ofDate (inst_end inst) |} in
            let '(ids, st') := insertAll mk instances st in
            Some (Created (length ids) ids, st')
        end
    end.

(** PUT /admin/events/:id *)
Definition putEvent (h : Host) (pg : Postgres) (id : string) (b : putBody)
    (st : store) : response * store :=
  if negb (truthyOpt (put_name b)) || negb (truthyOpt (put_type b))
     || negb (truthyOpt (put_start_time b))
  then (BadRequest "name, type, start_time are required", st)
  else
    match Geo.geocodeIfNeeded h (put_address b) (put_lat b) (put_lon b) with
    | None => (ServerError, st)
    | Some geo => (Updated, execUpdate pg (updateStatement b geo id) st)
    end.

(** POST /admin/events/:id/duplicate *)
Definition duplicateEvent (pg : Postgres) (id : string) (st : store)
    : response * store :=
  match filter (idIs pg (VText id)) (rows st) with
  | [] => (NotFound, st)
  | r :: _ =>
      let ev := selectRow r in
      let '(newId, st') :=
        insertEvent {| ev_name := o_name ev; ev_type := o_type ev;
                       ev_description := o_description ev;
                       ev_address_name := o_address_name ev;
                       ev_address := o_address ev;
                       ev_lat := o_lat ev; ev_lon := o_lon ev;
                       ev_start_time := o_start_time ev;
                       ev_end_time := o_end_time ev |} st in
      (Duplicated newId, st')
  end.

(** [rec], the object [Object.fromEntries] builds: a later entry for a
    key replaces an earlier one. *)
Definition getField (rec : list (string * string)) (key : string) : option string :=
  fold_left (fun acc kv => if String.eqb (fst kv) key then Some (snd kv) else acc)
            rec None.

(** [header.map((h, i) => [h, parts[i] ? parts[i].trim() : ""])] *)
Fixpoint entries (header parts : list string) : list (string * string) :=
  match header with
  | [] => []
  | k :: header' =>
      match parts with
      | [] => (k, "") :: entries header' []
      | p :: parts' => (k, if truthy p then trim p else "") :: entries header' parts'
      end
  end.

(** The records of the CSV body, one turn of [for (const line of lines)]
    per element. *)
Fixpoint importLines (h : Host) (header lines : list string) (inserted : nat)
    (st : store) : option (response * store) :=
  match lines with
  | [] => Some (Imported inserted, st)
  | line :: lines' =>
      let parts := split comma line in
      let rec := entries header parts in
      let address := orNull (getField rec "address") in
      let start_time := orNull (getField rec "start_time") in
      let end_time := orNull (getField rec "end_time") in
      let lat := match orNull (getField rec "lat") with
                 | Some s => Some (parseFloat h s)
                 | None => None
                 end in
      let lon := match orNull (getField rec "lon") with
                 | Some s => Some (parseFloat h s)
                 | None => None
                 end in
      match Geo.geocodeIfNeeded h address lat lon with
      | None => Some (ServerError, st)
      | Some geo =>
          let recurrence :=
            toLowerCase (match orNull (getField rec "recurrence") with
                         | Some r => r
                         | None => "none"
                         end) in
          let recurrence_until := orNull (getField rec "recurrence_until") in
          match expandRecord h start_time end_time recurrence recurrence_until with
          | None => None
          | Some instances =>
              let mk inst :=
                {| ev_name := ofString (getField rec "name");
                   ev_type := ofString (getField rec "type");
                   ev_description := ofString (orNull (getField rec "description"));
                   ev_address_name := ofString (orNull (getField rec "address_name"));
                   ev_address := ofString address;
                   ev_lat := Geo.lat geo; ev_lon := Geo.lon geo;
                   ev_start_time := VDate (inst_start inst);
                   ev_end_time := ofDate (inst_end inst) |} in
              let '(ids, st') := insertAll mk instances st in
              importLines h header lines' (inserted + length ids) st'
          end
      end
  end.

(** POST /admin/import, on the text of the body. *)
Definition importCsv (h : Host) (csv : string) (st : store)
    : option (response * store) :=
  let lines := filter truthy (splitLines csv) in
  match lines with
  | [] => Some (BadRequest "Empty CSV", st)
  | first :: lines =>
      let header := map (fun c => toLowerCase (trim c)) (split comma first) in
      if missing "name" header then Some (BadRequest "Missing column: name", st)
      else if missing "type" header then Some (BadRequest "Missing column: type", st)
      else if missing "start_time" header
           then Some (BadRequest "Missing column: start_time", st)
      else importLines h header lines 0 st
  end.

End Handlers.

(** ** A host and a store for the examples

    Concrete collaborators on which the statements below are evaluated:
    decimal literals for [parseFloat], ISO timestamps read as UTC for the
    [Date] parser and for the store's cast, a one-entry gazetteer for the
    geocoder. *)

Module Samples.
Import JsString.

Definition digitOf (c : ascii) : option Z :=
  let n := N_of_ascii c in
  if ((48 <=? n) && (n <=? 57))%N then Some (Z.of_N n - 48) else None.

(** The digits at the front of [s]: their value after [acc], their
    number, and the rest of [s]. *)
Fixpoint readDigits (s : string) (acc : Z) (count : nat) : Z * nat * string :=
  match s with
  | EmptyString => (acc, count, s)
  | String c r =>
      match digitOf c with
      | Some d => readDigits r (10 * acc + d) (S count)
      | None => (acc, count, s)
      end
  end.

(** A string of digits only. *)
Definition naturalOf (s : string) : option Z :=
  match readDigits s 0 0 with
  | (v, S _, EmptyString) => Some v
  | _ => None
  end.

Definition integerOf (s : string) : option Z :=
  match s with
  | String "-" r => option_map Z.opp (naturalOf r)
  | _ => naturalOf s
  end.

(** An integer below 2^53 as a float, exactly. *)
Fixpoint floatOfPositive (p : positive) : float :=
  match p with
  | xH => 1%float
  | xO q => PrimFloat.mul 2 (floatOfPositive q)
  | xI q => PrimFloat.add (PrimFloat.mul 2 (floatOfPositive q)) 1
  end.

Definition floatOfZ (z : Z) : float :=
  match z with
  | Z0 => 0%float
  | Zpos p => floatOfPositive p
  | Zneg p => PrimFloat.opp (floatOfPositive p)
  end.

(** [parseFloat] on a sign, digits and a fraction (exponents and
    [Infinity] are not read): NaN when no digit is found. *)
Definition decimalFloat (s : string) : float :=
  let s := trimStart s in
  let '(neg, s) :=
    match s with
    | String "-" r => (true, r)
    | String "+" r => (false, r)
    | _ => (false, s)
    end in
  let '(i, ni, rest) := readDigits s 0 0 in
  let '(m, nf) :=
    match rest with
    | String "." r => let '(m, n, _) := readDigits r i 0 in (m, n)
    | _ => (i, 0%nat)
    end in
  match (ni + nf)%nat with
  | O => PrimFloat.nan
  | S _ =>
      let v := PrimFloat.div (floatOfZ m) (floatOfZ (10 ^ Z.of_nat nf)) in
      if neg then PrimFloat.opp v else v
  end.

(** Days from 1970-01-01 to the given civil date. *)
Definition daysFromCivil (y m d : Z) : Z :=
  let y' := if m <=? 2 then y - 1 else y in
  let era := y' / 400 in
  let yoe := y' - era * 400 in
  let doy := (153 * (if 2 <? m then m - 3 else m + 9) + 2) / 5 + d - 1 in
  let doe := yoe * 365 + yoe / 4 - yoe / 100 + doy in
  era * 146097 + doe - 719468.

Definition timeOfDay (s : string) : option Z :=
  match map naturalOf (split ":" s) with
  | [Some hh; Some mm; Some ss] =>
      if (hh <? 24) && (mm <? 60) && (ss <? 60)
      then Some (((hh * 60 + mm) * 60 + ss) * 1000) else None
  | _ => None
  end.

Definition civilDate (s : string) : option Z :=
  match map naturalOf (split "-" s) with
  | [Some y; Some m; Some d] =>
      if (1 <=? m) && (m <=? 12) && (1 <=? d) && (d <=? 31)
      then Some (daysFromCivil y m d * 86400000) else None
  | _ => None
  end.

(** [YYYY-MM-DD], or [YYYY-MM-DD] and [HH:MM:SS] with [sep] between. *)
Definition timestampOf (sep : ascii) (s : string) : option Z :=
  match split sep s with
  | [d] => civilDate d
  | [d; t] =>
      match civilDate d, timeOfDay t with
      | Some a, Some b => Some (a + b)
      | _, _ => None
      end
  | _ => None
  end.

Definition sampleHost : Host :=
  {| hostZone := JsDate.utcZone;
     parseDate := timestampOf "T";
     parseFloat := decimalFloat;
     nominatim := fun address =>
       if String.eqb address "Charlotte, NC"
       then Some [("35.2271", "-80.8431")] else Some [] |}.

(** The distance test of the sample store: a box around the center, one
    degree counted as 111320 meters. *)
Definition withinBox (g center : point) (meters : float) : bool :=
  let dx := PrimFloat.abs (PrimFloat.sub (pt_x g) (pt_x center)) in
  let dy := PrimFloat.abs (PrimFloat.sub (pt_y g) (pt_y center)) in
  PrimFloat.leb (PrimFloat.mul dx 111320) meters
  && PrimFloat.leb (PrimFloat.mul dy 111320) meters.

(** 2024-06-01 12:00:00 UTC as [NOW()]. *)
Definition samplePg : Postgres :=
  {| pgTimestamp := timestampOf " ";
     pgInteger := integerOf;
     ST_DWithin := withinBox;
     pgNow := 1717243200000 |}.

End Samples.

(** * Properties *)

(** ** The recurrence loop *)

Module RecurrenceFacts.
Import JsDate Recurrence.

Lemma length_snoc {A} (l : list A) (x : A) : length (l ++ [x]) = S (length l).
Proof. rewrite length_app; simpl; lia. Qed.

Section Loop.
Variable step : Date -> Date.
Variable until : option Date.

(** The loop never returns more than 201 instances. *)
Lemma recurrenceLoop_length fuel : forall cs ce acc l,
  (length acc <= 200)%nat ->
  recurrenceLoop fuel step until cs ce acc = Some l ->
  (length l <= 201)%nat.
Proof.
  induction fuel as [|fuel IH]; intros cs ce acc l Hacc Hrun; simpl in Hrun.
  - discriminate.
  - destruct (dateLe cs until).
    + destruct (200 <? _) eqn:Hcap.
      * inversion Hrun; subst. rewrite length_snoc. lia.
      * apply Z.ltb_ge in Hcap. rewrite length_snoc in Hcap.
        eapply IH; [|exact Hrun]. rewrite length_snoc. lia.
    + inversion Hrun; subst. lia.
Qed.

(** With [201 - length acc] turns of fuel the loop returns. *)
Lemma recurrenceLoop_total fuel : forall cs ce acc,
  (length acc <= 200)%nat ->
  (201 <= fuel + length acc)%nat ->
  exists l, recurrenceLoop fuel step until cs ce acc = Some l.
Proof.
  induction fuel as [|fuel IH]; intros cs ce acc Hacc Hfuel; simpl.
  - lia.
  - destruct (dateLe cs until); [|eauto].
    destruct (200 <? _) eqn:Hcap; [eauto|].
    apply Z.ltb_ge in Hcap. rewrite length_snoc in Hcap.
    apply IH; rewrite length_snoc; lia.
Qed.

(** The loop body is not entered when the test fails. *)
Lemma recurrenceLoop_stop fuel cs ce acc :
  dateLe cs until = false ->
  recurrenceLoop (S fuel) step until cs ce acc = Some acc.
Proof. intros H. simpl. now rewrite H. Qed.

(** More fuel does not change a result. *)
Lemma recurrenceLoop_more_fuel fuel : forall extra cs ce acc l,
  recurrenceLoop fuel step until cs ce acc = Some l ->
  recurrenceLoop (fuel + extra) step until cs ce acc = Some l.
Proof.
  induction fuel as [|fuel IH]; intros extra cs ce acc l Hrun; simpl in *.
  - discriminate.
  - destruct (dateLe cs until); [|exact Hrun].
    destruct (200 <? _); [exact Hrun|]. now apply IH.
Qed.

(** The instances of [m] turns from [cs] and [ce]. *)
Fixpoint walk (m : nat) (cs : Date) (ce : option Date) : list instance :=
  match m with
  | O => []
  | S m' => {| inst_start := cs; inst_end := ce |}
              :: walk m' (step cs) (option_map step ce)
  end.

Lemma walk_length m : forall cs ce, length (walk m cs ce) = m.
Proof. induction m; simpl; intros; auto. Qed.

(** The loop makes exactly [m] turns when the test holds on the first
    [m] starts and then either fails or the cap is reached. *)
Lemma recurrenceLoop_walk m : forall fuel cs ce acc,
  (length acc <= 200)%nat ->
  (length acc + m <= 201)%nat ->
  (forall k, (k < m)%nat -> dateLe (Nat.iter k step cs) until = true) ->
  ((0 < m <= fuel)%nat /\ (length acc + m = 201)%nat
   \/ (m < fuel)%nat /\ dateLe (Nat.iter m step cs) until = false) ->
  recurrenceLoop fuel step until cs ce acc = Some (acc ++ walk m cs ce).
Proof.
  induction m as [|m IH]; intros fuel cs ce acc Hacc Hcap Hle Hend;
    (destruct fuel as [|fuel]; [lia|]).
  - destruct Hend as [[? _]|[_ Hend]]; [lia|]. simpl in Hend.
    rewrite recurrenceLoop_stop by exact Hend. now rewrite app_nil_r.
  - pose proof (Hle 0%nat ltac:(lia)) as H0. simpl in H0.
    cbn [recurrenceLoop]. rewrite H0.
    destruct (200 <? _) eqn:Hfull.
    + apply Z.ltb_lt in Hfull. rewrite length_snoc in Hfull.
      assert (m = 0%nat) by lia. subst m. reflexivity.
    + apply Z.ltb_ge in Hfull. rewrite length_snoc in Hfull.
      rewrite IH.
      * now rewrite <- app_assoc.
      * rewrite length_snoc. lia.
      * rewrite length_snoc. lia.
      * intros k Hk. rewrite <- Nat.iter_succ_r. apply Hle. lia.
      * rewrite length_snoc. rewrite <- Nat.iter_succ_r.
        destruct Hend as [[? ?]|[? ?]]; [left; lia|right; split; [lia|assumption]].
Qed.

End Loop.

(** [expand] always returns, with at most 201 instances. *)
Lemma expand_total tz start end_ recurrence recurrence_until :
  exists l, expand tz start end_ recurrence recurrence_until = Some l
            /\ (length l <= 201)%nat.
Proof.
  unfold expand, expandWith.
  destruct (stepOf tz recurrence) as [step|].
  - assert (Hnil : (length (@nil instance) <= 200)%nat) by (simpl; lia).
    assert (Hfuel : (201 <= loopFuel + length (@nil instance))%nat)
      by (unfold loopFuel; simpl; lia).
    destruct (recurrenceLoop_total step
                (untilOf tz start recurrence recurrence_until) loopFuel
                (newDate start)
                match end_ with Some e => Some (newDate (Some e)) | None => None end
                [] Hnil Hfuel) as [l Hl].
    exists l. split; [exact Hl|].
    exact (recurrenceLoop_length _ _ _ _ _ _ _ Hnil Hl).
  - eexists; split; [reflexivity|]. cbn [length]. lia.
Qed.

(** Fuel beyond [loopFuel] gives the same expansion. *)
Lemma expandWith_more_fuel tz start end_ recurrence until extra l :
  expandWith loopFuel tz start end_ recurrence until = Some l ->
  expandWith (loopFuel + extra) tz start end_ recurrence until = Some l.
Proof.
  unfold expandWith. destruct (stepOf tz recurrence) as [step|]; [|auto].
  generalize loopFuel. intros fuel Hrun.
  now apply recurrenceLoop_more_fuel.
Qed.

Lemma walk_map step m : forall cs ce,
  walk step m cs ce
  = map (fun k => {| inst_start := Nat.iter k step cs;
                     inst_end := option_map (Nat.iter k step) ce |}) (seq 0 m).
Proof.
  induction m as [|m IH]; intros cs ce; [reflexivity|].
  cbn [walk seq map]. f_equal.
  - destruct ce; reflexivity.
  - rewrite IH, <- seq_shift, map_map. apply map_ext. intros k.
    destruct ce; cbn [option_map]; rewrite !Nat.iter_succ_r; reflexivity.
Qed.

(** *** Zones where calendar arithmetic is exact *)

Section Exact.
Variable tz : TimeZone.
Hypothesis Hexact : calendarExact tz.
Variable n : Z.
Hypothesis Hn : 0 < n.

Let step : Date -> Date := fun d => addDays tz (Some d) n.

Lemma addDays_exact t : addDays tz (Some (Some t)) n = TimeClip (t + n * msPerDay).
Proof. unfold addDays, setDatePlus, newDate. now rewrite Hexact. Qed.

Lemma TimeClip_in_range t : - maxTime <= t <= maxTime -> TimeClip t = Some t.
Proof.
  intros H. unfold TimeClip. destruct (Z.abs t <=? maxTime) eqn:E; [reflexivity|].
  apply Z.leb_gt in E. lia.
Qed.

Lemma TimeClip_cases t : TimeClip t = None \/ TimeClip t = Some t.
Proof. unfold TimeClip. destruct (Z.abs t <=? maxTime); auto. Qed.

(** [k] steps from a valid start stay exact while they stay in range. *)
Lemma iter_step_exact k : forall t,
  - maxTime <= t ->
  t + Z.of_nat k * n * msPerDay <= maxTime ->
  Nat.iter k step (Some t) = Some (t + Z.of_nat k * n * msPerDay).
Proof.
  unfold msPerDay.
  induction k as [|k IH]; intros t Hlo Hhi.
  - simpl. f_equal. lia.
  - rewrite Nat.iter_succ, IH by lia.
    unfold step. rewrite addDays_exact, TimeClip_in_range; unfold msPerDay.
    + f_equal. lia.
    + lia.
Qed.

(** In any case [k] steps give NaN or the exact instant. *)
Lemma iter_step_cases k : forall t,
  Nat.iter k step (Some t) = None
  \/ Nat.iter k step (Some t) = Some (t + Z.of_nat k * n * msPerDay).
Proof.
  induction k as [|k IH]; intros t.
  - right. simpl. f_equal. lia.
  - rewrite Nat.iter_succ. destruct (IH t) as [E|E]; rewrite E.
    + left. reflexivity.
    + unfold step. rewrite addDays_exact.
      destruct (TimeClip_cases (t + Z.of_nat k * n * msPerDay + n * msPerDay))
        as [C|C]; rewrite C; [now left|right]. f_equal. lia.
Qed.

(** The expansion from a valid [s] up to a valid [u]: [m] instances when
    the [m]-th start is the first past [u] (or the 201st). *)
Lemma recurrenceLoop_exact m s u ce :
  (m <= 201)%nat ->
  - maxTime <= s ->
  u <= maxTime ->
  (forall k, (k < m)%nat -> s + Z.of_nat k * n * msPerDay <= u) ->
  (m = 201%nat \/ u < s + Z.of_nat m * n * msPerDay) ->
  recurrenceLoop loopFuel step (Some (Some u)) (Some s) ce []
  = Some (map (fun k => {| inst_start := Some (s + Z.of_nat k * n * msPerDay);
                           inst_end := option_map (Nat.iter k step) ce |})
              (seq 0 m)).
Proof.
  intros Hm Hlo Hhi Hin Hout.
  assert (Hstarts : forall k, (k < m)%nat ->
            Nat.iter k step (Some s) = Some (s + Z.of_nat k * n * msPerDay)).
  { intros k Hk. apply iter_step_exact; [exact Hlo|]. specialize (Hin k Hk). lia. }
  destruct (Nat.eq_dec m 0) as [Hm0|Hm0].
  - subst m. destruct Hout as [?|Hout]; [discriminate|].
    apply recurrenceLoop_stop. simpl. apply Z.leb_gt. lia.
  - rewrite (recurrenceLoop_walk step (Some (Some u)) m).
    + rewrite walk_map. cbn [app]. f_equal. apply map_ext_in.
      intros k Hk. apply in_seq in Hk. rewrite Hstarts by lia. reflexivity.
    + simpl. lia.
    + simpl. lia.
    + intros k Hk. rewrite Hstarts by exact Hk. simpl.
      apply Z.leb_le. now apply Hin.
    + unfold loopFuel.
      destruct (Nat.eq_dec m 201) as [E201|E201]; [left; simpl; lia|].
      destruct Hout as [Hout|Hout]; [contradiction|right].
      * split; [lia|].
        destruct (iter_step_cases m s) as [E|E]; rewrite E; [reflexivity|].
        simpl. apply Z.leb_gt. exact Hout.
Qed.

End Exact.

End RecurrenceFacts.

(** ** The recurrence expander on its edge cases *)

Module ExpandSpec.
Import JsDate Recurrence RecurrenceFacts.

Lemma stepOf_none tz : stepOf tz "none" = None.
Proof. reflexivity. Qed.

Lemma stepOf_daily tz : stepOf tz "daily" = Some (fun d => addDays tz (Some d) 1).
Proof. reflexivity. Qed.

Lemma stepOf_weekly tz : stepOf tz "weekly" = Some (fun d => addDays tz (Some d) 7).
Proof. reflexivity. Qed.

Lemma copy_end (end_ : option Date) :
  match end_ with Some e => Some (newDate (Some e)) | None => None end = end_.
Proof. destruct end_; reflexivity. Qed.

(** 2024-01-01T00:00:00Z and 2025-01-01T00:00:00Z. *)
Definition jan_1_2024 : Z := 1704067200000.
Definition jan_1_2025 : Z := 1735689600000.

(** C1, on the code: a daily recurrence from 2024-01-01 with
    [recurrence_until] 2025-01-01 expands to 201 instances, one more than
    the cap of 200, because the loop breaks on [instances.length > 200]
    after the push. *)
Theorem expand_daily_year_has_201 :
  option_map (@length instance)
    (expand utcZone (Some (Some jan_1_2024)) None "daily" (Some (Some jan_1_2025)))
  = Some 201%nat.
Proof. vm_compute. reflexivity. Qed.

(** The same for weekly recurrences: four years of weeks give 201 instances. *)
Example expand_weekly_years_has_201 :
  option_map (@length instance)
    (expand utcZone (Some (Some jan_1_2024)) None "weekly"
       (Some (Some (jan_1_2024 + 1461 * msPerDay))))
  = Some 201%nat.
Proof. vm_compute. reflexivity. Qed.

(** In an exact zone every daily or weekly expansion whose bound lies at
    least 200 steps after the start has exactly 201 instances, the most an
    expansion can have ([RecurrenceFacts.expand_total]). *)
Lemma expand_far_until_201 tz n s u end_ recurrence :
  calendarExact tz -> 0 < n ->
  stepOf tz recurrence = Some (fun d => addDays tz (Some d) n) ->
  - maxTime <= s -> u <= maxTime ->
  s + 200 * n * msPerDay <= u ->
  exists l, expand tz (Some (Some s)) end_ recurrence (Some (Some u)) = Some l
            /\ length l = 201%nat.
Proof.
  intros Hexact Hn Hstep Hlo Hhi Hfar.
  unfold expand, expandWith. rewrite Hstep. cbn [untilOf newDate].
  rewrite (recurrenceLoop_exact tz Hexact n Hn 201 s u).
  - eexists. split; [reflexivity|]. now rewrite length_map, length_seq.
  - lia.
  - exact Hlo.
  - exact Hhi.
  - intros k Hk. unfold msPerDay in *. nia.
  - now left.
Qed.

(** C8: when [until] lies before [start], recurrence [none] still gives
    the single instance [{start, end}], and [daily] and [weekly] give no
    instance at all. *)
Theorem until_before_start tz (s u : Z) (end_ : option Date) :
  u < s ->
  expand tz (Some (Some s)) end_ "none" (Some (Some u))
    = Some [{| inst_start := Some s; inst_end := end_ |}]
  /\ expand tz (Some (Some s)) end_ "daily" (Some (Some u)) = Some []
  /\ expand tz (Some (Some s)) end_ "weekly" (Some (Some u)) = Some [].
Proof.
  intros Hlt.
  assert (Hstop : dateLe (Some s) (Some (Some u)) = false)
    by (simpl; apply Z.leb_gt; exact Hlt).
  unfold expand, expandWith. rewrite copy_end.
  rewrite stepOf_none, stepOf_daily, stepOf_weekly. cbn [untilOf newDate].
  unfold loopFuel. rewrite !recurrenceLoop_stop by exact Hstop.
  repeat split.
Qed.

(** The claim at 2024-03-10 with [recurrence_until] 2024-03-01 (UTC). *)
Lemma until_before_start_witness :
  1709251200000 < 1710028800000
  /\ expand utcZone (Some (Some 1710028800000)) None "none" (Some (Some 1709251200000))
     = Some [{| inst_start := Some 1710028800000; inst_end := None |}]
  /\ expand utcZone (Some (Some 1710028800000)) None "daily"
       (Some (Some 1709251200000)) = Some []
  /\ expand utcZone (Some (Some 1710028800000)) None "weekly"
       (Some (Some 1709251200000)) = Some [].
Proof.
  split; [lia|].
  apply (until_before_start utcZone 1710028800000 1709251200000 None). lia.
Defined.

(** Recurrence values other than [daily] and [weekly] behave as [none]. *)
Lemma expand_other_recurrence tz start end_ recurrence recurrence_until :
  recurrence <> "daily" -> recurrence <> "weekly" ->
  expand tz start end_ recurrence recurrence_until
  = Some [{| inst_start := newDate start; inst_end := end_ |}].
Proof.
  intros Hd Hw. unfold expand, expandWith, stepOf.
  apply String.eqb_neq in Hd, Hw. rewrite Hd, Hw, copy_end. reflexivity.
Qed.

(** The instances of a weekly expansion from [s] (and [end_]): the
    [k]-th lies [7 * k] days later. *)
Definition weeklyInstances (s : Z) (end_ : option Z) (count : nat) : list instance :=
  map (fun k => {| inst_start := Some (s + Z.of_nat k * 7 * msPerDay);
                   inst_end :=
                     option_map (fun e => Some (e + Z.of_nat k * 7 * msPerDay)) end_ |})
      (seq 0 count).

(** A zone where calendar arithmetic is exact: the claim read for such a
    zone, with [start] (and [end]) far enough from the end of the [Date]
    range.  The bound is [start] plus 8 weeks and the nine instances lie
    [7 * k] days after [start] (and [end]). *)
Lemma weekly_nine_in_exact_zone tz (s : Z) (end_ : option Z) :
  calendarExact tz ->
  - maxTime <= s -> s + 8 * 7 * msPerDay <= maxTime ->
  (forall e, end_ = Some e -> - maxTime <= e /\ e + 8 * 7 * msPerDay <= maxTime) ->
  untilOf tz (Some (Some s)) "weekly" None = Some (Some (s + 8 * 7 * msPerDay))
  /\ expand tz (Some (Some s)) (option_map Some end_) "weekly" None
     = Some (weeklyInstances s end_ 9)
  /\ length (weeklyInstances s end_ 9) = 9%nat.
Proof.
  intros Hexact Hlo Hhi Hend.
  assert (Huntil : untilOf tz (Some (Some s)) "weekly" None
                   = Some (Some (s + 8 * 7 * msPerDay))).
  { change (untilOf tz (Some (Some s)) "weekly" None)
      with (Some (addDays tz (Some (Some s)) (8 * 7))).
    rewrite (addDays_exact tz Hexact).
    rewrite TimeClip_in_range; [reflexivity|]. unfold msPerDay, maxTime in *. lia. }
  split; [exact Huntil|]. split; [|reflexivity].
  unfold expand. rewrite Huntil. unfold expandWith.
  rewrite stepOf_weekly, copy_end. cbn [newDate].
  rewrite (recurrenceLoop_exact tz Hexact 7 ltac:(lia) 9 s (s + 8 * 7 * msPerDay)).
  - unfold weeklyInstances. f_equal. apply map_ext_in. intros k Hk.
    apply in_seq in Hk. f_equal.
    destruct end_ as [e|]; [|reflexivity]. cbn [option_map]. f_equal.
    destruct (Hend e eq_refl) as [He1 He2].
    apply (iter_step_exact tz Hexact 7 ltac:(lia)); [exact He1|].
    unfold msPerDay in *. lia.
  - lia.
  - exact Hlo.
  - exact Hhi.
  - intros k Hk. unfold msPerDay. lia.
  - right. unfold msPerDay. lia.
Qed.

Lemma utcZone_exact : calendarExact utcZone.
Proof. intros t d. simpl. lia. Qed.

Lemma fixedZone_exact offset : calendarExact (fixedZone offset).
Proof. intros t d. simpl. lia. Qed.

(** *** Starts on an exact boundary *)

(** The instant [k] calendar weeks after [t] on the host's clock: the local
    time of [t] moved by [7 * k] days and read back, as [addWeeks] finds
    it before clipping. *)
Definition weeksAfter (tz : TimeZone) (t : Z) (k : nat) : Z :=
  UTC tz (LocalTime tz t + Z.of_nat k * 7 * msPerDay).

(** The instant one weekly step from [t] aims at. *)
Definition weekStep (tz : TimeZone) (t : Z) : Z :=
  UTC tz (LocalTime tz t + 7 * msPerDay).

(** [t] is on an exact boundary for [n] weeks: stepping week by week from
    [t] meets the instants [k] calendar weeks after [t] (no step is bent by
    an hour the local clock skips or repeats), and these are valid time
    values.  This speaks of [t] and its own steps only; the zone may have
    daylight-saving shifts elsewhere, also between the steps. *)
Definition weeklyExact (tz : TimeZone) (t : Z) (n : nat) : Prop :=
  weeksAfter tz t 0 = t
  /\ (forall k, (k < n)%nat -> weekStep tz (weeksAfter tz t k) = weeksAfter tz t (S k))
  /\ (forall k, (k <= n)%nat -> - maxTime <= weeksAfter tz t k <= maxTime).

(** Each of the first [n] weekly steps from [t] moves forward in time. *)
Definition weeksAdvance (tz : TimeZone) (t : Z) (n : nat) : Prop :=
  forall k, (k < n)%nat -> weeksAfter tz t k < weekStep tz (weeksAfter tz t k).





(** In a zone where calendar arithmetic is exact, [k] weeks later is
    [7 * k] days later. *)
Lemma weeksAfter_exact tz t k :
  calendarExact tz -> weeksAfter tz t k = t + Z.of_nat k * 7 * msPerDay.
Proof. intros Hexact. unfold weeksAfter. apply Hexact. Qed.

(** Where calendar arithmetic is exact every start is on an exact
    boundary, as long as its eight weeks stay inside the [Date] range. *)
Lemma exact_zone_boundary tz t :
  calendarExact tz ->
  - maxTime <= t -> t + 8 * 7 * msPerDay <= maxTime ->
  weeklyExact tz t 8 /\ weeksAdvance tz t 9.
Proof.
  intros Hexact Hlo Hhi.
  assert (Hstep : forall x, weekStep tz x = x + 7 * msPerDay)
    by (intros x; apply Hexact).
  split; [split; [|split]|].
  - rewrite weeksAfter_exact by exact Hexact. simpl. lia.
  - intros k Hk. rewrite Hstep, !weeksAfter_exact by exact Hexact. lia.
  - intros k Hk. rewrite weeksAfter_exact by exact Hexact.
    unfold msPerDay, maxTime in *. lia.
  - intros k Hk. rewrite Hstep. unfold msPerDay. lia.
Qed.


(** A zone with a daylight-saving gap: the local clock is one hour ahead of
    the standard offset from [gap] on, and local times in the skipped hour
    are read with the offset before the gap. *)
Definition springForward (gap : Z) : TimeZone :=
  {| LocalTime := fun t => if t <? gap then t else t + 3600000;
     UTC := fun l => if l <? gap + 3600000 then l else l - 3600000 |}.

(** The zone whose clocks go forward at the start of 2024-01-08 (UTC). *)
Definition gapZone : TimeZone := springForward (jan_1_2024 + 7 * msPerDay).



(** The claim for a weekly event on 2024-01-01 from 18:00 to 20:00 (UTC). *)
Example weekly_nine_utc :
  untilOf utcZone (Some (Some 1704132000000)) "weekly" None
    = Some (Some (1704132000000 + 8 * 7 * msPerDay))
  /\ expand utcZone (Some (Some 1704132000000)) (option_map Some (Some 1704139200000))
       "weekly" None
     = Some (weeklyInstances 1704132000000 (Some 1704139200000) 9)
  /\ length (weeklyInstances 1704132000000 (Some 1704139200000) 9) = 9%nat.
Proof.
  apply (weekly_nine_in_exact_zone utcZone 1704132000000 (Some 1704139200000)).
  - exact utcZone_exact.
  - unfold maxTime. lia.
  - unfold maxTime, msPerDay. lia.
  - intros e He. inversion He; subst. unfold maxTime, msPerDay. lia.
Qed.

(** The spec's example: daily from 2024-01-01 until 2024-01-03 gives the
    three instances of 01-01, 01-02 and 01-03. *)
Example expand_daily_three :
  expand utcZone (Some (Some jan_1_2024)) None "daily"
    (Some (Some (jan_1_2024 + 2 * msPerDay)))
  = Some [{| inst_start := Some jan_1_2024; inst_end := None |};
          {| inst_start := Some (jan_1_2024 + msPerDay); inst_end := None |};
          {| inst_start := Some (jan_1_2024 + 2 * msPerDay); inst_end := None |}].
Proof. vm_compute. reflexivity. Qed.

(** In the same zone a weekly series whose second start falls into the
    skipped hour stops one instance short of nine: the default bound, eight
    calendar weeks after the start, comes an hour before the ninth start.
    Such a start is not on an exact boundary. *)
Example weekly_across_gap_has_8 :
  option_map (@length instance)
    (expand (springForward (jan_1_2024 + 7 * msPerDay))
       (Some (Some (jan_1_2024 + 1800000))) None "weekly" None)
  = Some 8%nat.
Proof. vm_compute. reflexivity. Qed.

Example half_past_midnight_not_exact :
  ~ weeklyExact gapZone (jan_1_2024 + 1800000) 8.
Proof.
  intros (_ & Hstep & _). specialize (Hstep 1%nat ltac:(lia)).
  vm_compute in Hstep. discriminate.
Qed.

End ExpandSpec.


(** ** The store adapter: locations on insert, update and read *)

Module AdapterFacts.
Import JsString Sql Adapter Handlers.

(** The location [insertEvent] writes. *)
Lemma insertStatement_location ev :
  evalLoc (ins_location (insertStatement ev)) (ins_params (insertStatement ev))
  = match ev_lat ev, ev_lon ev with
    | Some la, Some lo => Some {| pt_x := lo; pt_y := la |}
    | _, _ => None
    end.
Proof.
  unfold insertStatement.
  destruct (ev_lat ev) as [la|], (ev_lon ev) as [lo|]; reflexivity.
Qed.

(** Decoding a stored location: both coordinates or none. *)
Lemma selectRow_coordinates r :
  match r_location r with
  | Some g => o_lon (selectRow r) = Some (pt_x g) /\ o_lat (selectRow r) = Some (pt_y g)
  | None => o_lon (selectRow r) = None /\ o_lat (selectRow r) = None
  end.
Proof. unfold selectRow, ST_X, ST_Y; simpl. destruct (r_location r); auto. Qed.

(** C2: [insertEvent] appends one row whose location is present exactly
    when [lat] and [lon] are both non-null, and is then the point of
    longitude [lon] and latitude [lat], in that order; the row reads back
    with those coordinates; and any stored row decodes to a longitude and a
    latitude that are both null or both non-null. *)
Theorem insert_location_both_or_none ev st :
  exists r,
    insertEvent ev st
    = (nextId st, {| rows := rows st ++ [r]; nextId := nextId st + 1 |})
    /\ (r_location r <> None <-> ev_lat ev <> None /\ ev_lon ev <> None)
    /\ (forall la lo, ev_lat ev = Some la -> ev_lon ev = Some lo ->
          r_location r = Some {| pt_x := lo; pt_y := la |}
          /\ o_lon (selectRow r) = Some lo /\ o_lat (selectRow r) = Some la)
    /\ (forall r' : row,
          (o_lon (selectRow r') = None /\ o_lat (selectRow r') = None)
          \/ (exists x y, r_location r' = Some {| pt_x := x; pt_y := y |}
                          /\ o_lon (selectRow r') = Some x
                          /\ o_lat (selectRow r') = Some y)).
Proof.
  unfold insertEvent, execInsert. eexists. split; [reflexivity|].
  cbn [r_location]. rewrite insertStatement_location.
  split; [|split].
  - destruct (ev_lat ev), (ev_lon ev); intuition congruence.
  - intros la lo Hla Hlo. unfold selectRow, ST_X, ST_Y. cbn [o_lon o_lat r_location].
    rewrite ?insertStatement_location, Hla, Hlo. auto.
  - intros r'. pose proof (selectRow_coordinates r') as H.
    destruct (r_location r') as [[x y]|]; [right|left; exact H].
    exists x, y. simpl in H. tauto.
Qed.

(** A duplicated row carries the location of its source. *)
Lemma duplicate_keeps_location pg id st r others :
  filter (idIs pg (VText id)) (rows st) = r :: others ->
  exists r', snd (duplicateEvent pg id st)
             = {| rows := rows st ++ [r']; nextId := nextId st + 1 |}
             /\ r_location r' = r_location r.
Proof.
  intros Hfind. unfold duplicateEvent. rewrite Hfind.
  unfold insertEvent, execInsert. cbn [snd]. eexists. split; [reflexivity|].
  cbn [r_location]. rewrite insertStatement_location.
  unfold selectRow, ST_X, ST_Y. cbn [ev_lat ev_lon o_lat o_lon].
  destruct (r_location r) as [[x y]|]; reflexivity.
Qed.

(** The coordinates the resolver returns come in pairs. *)
Lemma geocodeIfNeeded_paired h address lat lon geo :
  Geo.geocodeIfNeeded h address lat lon = Some geo ->
  (Geo.lat geo = None /\ Geo.lon geo = None)
  \/ (exists la lo, Geo.lat geo = Some la /\ Geo.lon geo = Some lo).
Proof.
  unfold Geo.geocodeIfNeeded. intros H.
  destruct lat as [la|], lon as [lo|];
    try (inversion H; subst; right; eauto; fail);
    (destruct address as [a|]; [destruct (truthy a); [destruct (nominatim h a) as [[|[x y] ?]|]|]|]);
    inversion H; subst; simpl; eauto.
Qed.

(** The statement of the update binds [:id] where its WHERE clause reads it. *)
Lemma updateStatement_where b geo id :
  param (upd_params (updateStatement b geo id)) (upd_where (updateStatement b geo id))
  = VText id.
Proof.
  unfold updateStatement. destruct (Geo.lat geo), (Geo.lon geo); reflexivity.
Qed.

Lemma updateStatement_setLoc b geo id :
  upd_setLoc (updateStatement b geo id)
  = match Geo.lat geo, Geo.lon geo with
    | Some _, Some _ => Some (LocMakePoint 8 9)
    | _, _ => None
    end.
Proof.
  unfold updateStatement. destruct (Geo.lat geo), (Geo.lon geo); reflexivity.
Qed.

(** The seven columns every update rewrites. *)
Lemma updateRow_columns b geo id r :
  let r' := updateRow (updateStatement b geo id) r in
  r_id r' = r_id r
  /\ r_name r' = ofString (put_name b)
  /\ r_type r' = ofString (put_type b)
  /\ r_description r' = ofString (orNull (put_description b))
  /\ r_address_name r' = ofString (orNull (put_address_name b))
  /\ r_address r' = ofString (orNull (put_address b))
  /\ r_start_time r' = ofString (put_start_time b)
  /\ r_end_time r' = ofString (orNull (put_end_time b)).
Proof.
  unfold updateRow, updateStatement.
  destruct (Geo.lat geo), (Geo.lon geo); cbn; repeat split.
Qed.

Lemma updateRow_location b geo id r :
  r_location (updateRow (updateStatement b geo id) r)
  = match Geo.lat geo, Geo.lon geo with
    | Some la, Some lo => Some {| pt_x := lo; pt_y := la |}
    | _, _ => r_location r
    end.
Proof.
  unfold updateRow, updateStatement.
  destruct (Geo.lat geo), (Geo.lon geo); reflexivity.
Qed.

(** C9: an accepted PUT runs one UPDATE on the rows of the given id; it
    rewrites name, type, description, address_name, address, start_time
    and end_time; it assigns the location exactly when both resolved
    coordinates are non-null (then to the point of [lon] and [lat]); and
    when one of them is null the statement has no location assignment and
    the location of every stored row is left as it was. *)
Theorem update_keeps_location_without_pair h pg id b st geo :
  truthyOpt (put_name b) = true ->
  truthyOpt (put_type b) = true ->
  truthyOpt (put_start_time b) = true ->
  Geo.geocodeIfNeeded h (put_address b) (put_lat b) (put_lon b) = Some geo ->
  let q := updateStatement b geo id in
  putEvent h pg id b st = (Updated, execUpdate pg q st)
  /\ rows (execUpdate pg q st)
     = map (fun r => if idIs pg (VText id) r then updateRow q r else r) (rows st)
  /\ (forall r, let r' := updateRow q r in
        r_id r' = r_id r
        /\ r_name r' = ofString (put_name b)
        /\ r_type r' = ofString (put_type b)
        /\ r_description r' = ofString (orNull (put_description b))
        /\ r_address_name r' = ofString (orNull (put_address_name b))
        /\ r_address r' = ofString (orNull (put_address b))
        /\ r_start_time r' = ofString (put_start_time b)
        /\ r_end_time r' = ofString (orNull (put_end_time b)))
  /\ (In ColLocation (assigned q) <-> Geo.lat geo <> None /\ Geo.lon geo <> None)
  /\ (Geo.lat geo = None \/ Geo.lon geo = None ->
        upd_setLoc q = None
        /\ (forall r, r_location (updateRow q r) = r_location r)
        /\ map r_location (rows (execUpdate pg q st)) = map r_location (rows st))
  /\ (forall la lo, Geo.lat geo = Some la -> Geo.lon geo = Some lo ->
        forall r, r_location (updateRow q r) = Some {| pt_x := lo; pt_y := la |}).
Proof.
  intros Hname Htype Hstart Hgeo q.
  split; [|split; [|split; [|split; [|split]]]].
  - unfold putEvent. rewrite Hname, Htype, Hstart, Hgeo. reflexivity.
  - unfold execUpdate. cbn [rows]. subst q. now rewrite updateStatement_where.
  - intros r. apply updateRow_columns.
  - unfold assigned. subst q. rewrite updateStatement_setLoc.
    destruct (Geo.lat geo), (Geo.lon geo); simpl; intuition congruence.
  - intros Hnull.
    assert (Hkeep : forall r, r_location (updateRow q r) = r_location r).
    { intros r. subst q. rewrite updateRow_location.
      destruct Hnull as [E|E]; rewrite E; [reflexivity|].
      destruct (Geo.lat geo); reflexivity. }
    split; [|split].
    + subst q. rewrite updateStatement_setLoc.
      destruct Hnull as [E|E]; rewrite E; [reflexivity|].
      destruct (Geo.lat geo); reflexivity.
    + exact Hkeep.
    + unfold execUpdate. cbn [rows]. rewrite map_map. apply map_ext.
      intros r. destruct (idIs pg _ r); [apply Hkeep|reflexivity].
  - intros la lo Hla Hlo r. subst q. now rewrite updateRow_location, Hla, Hlo.
Qed.

(** A stored event with a location, and a PUT for it that names no
    address and no coordinates. *)
Definition storedTrivia : row :=
  {| r_id := 1; r_name := VText "Trivia"; r_type := VText "Trivia";
     r_description := VNull; r_address_name := VNull; r_address := VNull;
     r_location := Some {| pt_x := (-80.75)%float; pt_y := 35.25%float |};
     r_start_time := VText "2024-06-01 19:00:00"; r_end_time := VNull |}.

Definition renameTrivia : putBody :=
  {| put_name := Some "Trivia Night"; put_type := Some "Trivia";
     put_description := None; put_address_name := None; put_address := None;
     put_lat := None; put_lon := None;
     put_start_time := Some "2024-06-08 19:00:00"; put_end_time := None |}.

Lemma update_keeps_location_without_pair_witness :
  truthyOpt (put_name renameTrivia) = true
  /\ truthyOpt (put_type renameTrivia) = true
  /\ truthyOpt (put_start_time renameTrivia) = true
  /\ Geo.geocodeIfNeeded Samples.sampleHost (put_address renameTrivia)
       (put_lat renameTrivia) (put_lon renameTrivia)
     = Some {| Geo.lat := None; Geo.lon := None |}
  /\ map r_location
       (rows (snd (putEvent Samples.sampleHost Samples.samplePg "1" renameTrivia
                     {| rows := [storedTrivia]; nextId := 2 |})))
     = [Some {| pt_x := (-80.75)%float; pt_y := 35.25%float |}].
Proof.
  repeat (split; [reflexivity|]).
  pose proof (update_keeps_location_without_pair Samples.sampleHost Samples.samplePg
                "1" renameTrivia {| rows := [storedTrivia]; nextId := 2 |}
                {| Geo.lat := None; Geo.lon := None |}
                eq_refl eq_refl eq_refl eq_refl) as H.
  cbv zeta in H. destruct H as [Hput [_ [_ [_ [Hkeep _]]]]].
  rewrite Hput. cbn [snd].
  destruct (Hkeep (or_introl eq_refl)) as [_ [_ Hmap]].
  rewrite Hmap. reflexivity.
Defined.

Example put_renames_and_keeps_location :
  rows (snd (putEvent Samples.sampleHost Samples.samplePg "1" renameTrivia
               {| rows := [storedTrivia]; nextId := 2 |}))
  = [{| r_id := 1; r_name := VText "Trivia Night"; r_type := VText "Trivia";
        r_description := VNull; r_address_name := VNull; r_address := VNull;
        r_location := Some {| pt_x := (-80.75)%float; pt_y := 35.25%float |};
        r_start_time := VText "2024-06-08 19:00:00"; r_end_time := VNull |}].
Proof. vm_compute. reflexivity. Qed.

End AdapterFacts.


(** ** The type list of GET /events *)

Module TypeFacts.
Import JsString Sql Filter.

Lemma existsb_eqb_In x (l : list string) :
  existsb (String.eqb x) l = true <-> In x l.
Proof.
  rewrite existsb_exists. split.
  - intros [y [Hy E]]. apply String.eqb_eq in E. now subst.
  - intros H. exists x. split; [exact H|apply String.eqb_refl].
Qed.

Lemma setAdd_In x y acc : In x (setAdd acc y) <-> In x acc \/ x = y.
Proof.
  unfold setAdd. destruct (existsb (String.eqb y) acc) eqn:E.
  - apply existsb_eqb_In in E. split; [auto|]. intros [H|H]; [exact H|now subst].
  - rewrite in_app_iff. simpl. intuition.
Qed.

Lemma setAdd_NoDup y acc : NoDup acc -> NoDup (setAdd acc y).
Proof.
  intros H. unfold setAdd. destruct (existsb (String.eqb y) acc) eqn:E; [exact H|].
  assert (Hnot : ~ In y acc).
  { intros Hin. apply existsb_eqb_In in Hin. congruence. }
  clear E. induction H as [|z l Hz Hl IH]; simpl.
  - constructor; [intros []|constructor].
  - constructor.
    + rewrite in_app_iff. simpl. intros [Hin|[Heq|[]]]; [contradiction|].
      subst. apply Hnot. now left.
    + apply IH. intros Hin. apply Hnot. now right.
Qed.

Lemma fold_setAdd_In x l : forall acc,
  In x (fold_left setAdd l acc) <-> In x acc \/ In x l.
Proof.
  induction l as [|y l IH]; intros acc; simpl.
  - intuition.
  - rewrite IH, setAdd_In. intuition.
Qed.

Lemma fold_setAdd_NoDup l : forall acc,
  NoDup acc -> NoDup (fold_left setAdd l acc).
Proof.
  induction l as [|y l IH]; intros acc H; simpl; [exact H|].
  apply IH. now apply setAdd_NoDup.
Qed.

(** [[...new Set(arr)]] has the elements of [arr], each once. *)
Lemma setOf_In x l : In x (setOf l) <-> In x l.
Proof. unfold setOf. rewrite fold_setAdd_In. simpl. intuition. Qed.

Lemma setOf_NoDup l : NoDup (setOf l).
Proof. apply fold_setAdd_NoDup. constructor. Qed.

(** The strings an array element supplies. *)
Definition itemValues (item : qitem) : list string :=
  match item with
  | IStr s => [s]
  | IArr l => l
  end.

(** Every value supplied through [types], [type] and [types[]], in order. *)
Definition suppliedValues (q : query) : list string :=
  flat_map itemValues (concatArg (q_types q))
  ++ flat_map itemValues (concatArg (q_type q))
  ++ flat_map itemValues (concatArg (q_typesArr q)).

(** The handler's own steps applied to the supplied values in the order
    the specification lists them (split on commas, trim, drop the empty
    strings, lower-case), with [nodup] for the set.  [TypeSpec.inTypeSet]
    describes the same set without these functions. *)
Definition specTypeSet (q : query) : list string :=
  nodup string_dec
    (map toLowerCase
       (filter truthy (map trim (flat_map (split comma) (suppliedValues q))))).

Lemma fold_push_strings l : forall types,
  fold_left (fun types v => types ++ split comma v) l types
  = types ++ flat_map (split comma) l.
Proof.
  induction l as [|v l IH]; intros types; simpl.
  - now rewrite app_nil_r.
  - now rewrite IH, app_assoc.
Qed.

Lemma pushItem_values types item :
  pushItem types item = types ++ flat_map (split comma) (itemValues item).
Proof.
  destruct item as [s|l]; simpl.
  - now rewrite app_nil_r.
  - apply fold_push_strings.
Qed.

Lemma fold_pushItem raw : forall types,
  fold_left pushItem raw types
  = types ++ flat_map (split comma) (flat_map itemValues raw).
Proof.
  induction raw as [|item raw IH]; intros types; simpl.
  - now rewrite app_nil_r.
  - now rewrite IH, pushItem_values, flat_map_app, app_assoc.
Qed.

(** The handler's list before de-duplication is the specification's. *)
Lemma typesOf_pipeline q :
  typesOf q
  = setOf (map toLowerCase
             (filter truthy (map trim (flat_map (split comma) (suppliedValues q))))).
Proof.
  unfold typesOf, rawOf, suppliedValues.
  rewrite fold_pushItem. simpl. now rewrite !flat_map_app, app_assoc.
Qed.

Lemma typesOf_spec q x : In x (typesOf q) <-> In x (specTypeSet q).
Proof.
  rewrite typesOf_pipeline. unfold specTypeSet.
  now rewrite setOf_In, nodup_In.
Qed.

Lemma typesOf_NoDup q : NoDup (typesOf q).
Proof. rewrite typesOf_pipeline. apply setOf_NoDup. Qed.

End TypeFacts.


(** ** The WHERE clause of GET /events *)

Module QueryFacts.
Import JsString Sql Filter TypeFacts.

(** The string of a parameter that is known to be supplied. *)
Definition strOf (v : option string) : string :=
  match v with
  | Some s => s
  | None => ""
  end.

(** The type restriction on a row: none for the empty list. *)
Definition typeOk (types : list string) (r : row) : bool :=
  match types with
  | [] => true
  | _ :: _ =>
      match r_type r with
      | VText t => existsb (String.eqb (LOWER t)) types
      | _ => false
      end
  end.

(** [start_time] within the closed window of two timestamp texts. *)
Definition windowOk (pg : Postgres) (fromTs toTs : string) (r : row) : bool :=
  match asTimestamp pg (r_start_time r), pgTimestamp pg fromTs, pgTimestamp pg toTs with
  | Some t, Some lo, Some hi => (lo <=? t) && (t <=? hi)
  | _, _, _ => false
  end.

(** [start_time] not before [NOW()]. *)
Definition futureOk (pg : Postgres) (r : row) : bool :=
  match asTimestamp pg (r_start_time r) with
  | Some t => pgNow pg <=? t
  | None => false
  end.

(** The date restriction on a row: the window of the date when one is
    given, the future otherwise. *)
Definition dateOk (pg : Postgres) (q : query) (r : row) : bool :=
  if truthyOpt (q_date q)
  then windowOk pg (fst (boundsFor (strOf (q_date q)) (q_timeOfDay q)))
                   (snd (boundsFor (strOf (q_date q)) (q_timeOfDay q))) r
  else futureOk pg r.

(** The center and the reach the radius filter hands to the store. *)
Definition centerOf (h : Host) (q : query) : point :=
  {| pt_x := parseFloat h (strOf (q_lng q)); pt_y := parseFloat h (strOf (q_lat q)) |}.

Definition metersOf (h : Host) (q : query) : float :=
  PrimFloat.mul (parseFloat h (strOf (q_radius q))) milesToMeters.

(** The radius restriction on a row: none unless the three values are given. *)
Definition radiusOk (h : Host) (pg : Postgres) (q : query) (r : row) : bool :=
  if radiusGiven q
  then match r_location r with
       | Some g => ST_DWithin pg g (centerOf h q) (metersOf h q)
       | None => false
       end
  else true.

Lemma withDate_cases date tod s :
  withDate date tod s
  = if truthyOpt date
    then let params := sel_params s
                       ++ [VText (fst (boundsFor (strOf date) tod));
                           VText (snd (boundsFor (strOf date) tod))] in
         {| sel_where := sel_where s
                         ++ [CStartGe (length params - 1); CStartLe (length params)];
            sel_params := params |}
    else {| sel_where := sel_where s ++ [CStartGeNow]; sel_params := sel_params s |}.
Proof.
  unfold withDate. destruct date as [d|]; simpl; [|reflexivity].
  destruct (truthy d); [|reflexivity]. now destruct (boundsFor d tod).
Qed.

Lemma withRadius_cases h q s :
  withRadius h q s
  = if radiusGiven q
    then let params := sel_params s
                       ++ [VFloat (pt_x (centerOf h q)); VFloat (pt_y (centerOf h q));
                           VFloat (metersOf h q)] in
         {| sel_where := sel_where s
                         ++ [CLocNotNull;
                             CDWithin (length params - 2) (length params - 1)
                                      (length params)];
            sel_params := params |}
    else s.
Proof.
  unfold withRadius, radiusGiven, centerOf, metersOf.
  destruct (q_lat q) as [a|], (q_lng q) as [b|], (q_radius q) as [c|]; simpl;
    try destruct (truthy a); try destruct (truthy b); try destruct (truthy c);
    reflexivity.
Qed.

(** Case analysis on the three filters of a built query. *)
Ltac query_cases q :=
  unfold buildQuery; rewrite withRadius_cases, withDate_cases; unfold withTypes;
  destruct (typesOf q) as [|ty tys] eqn:Htypes;
  destruct (truthyOpt (q_date q)) eqn:Hdate;
  destruct (radiusGiven q) eqn:Hradius; cbn.

(** The WHERE clause is the conjunction of the three restrictions. *)
Lemma matches_buildQuery h pg q r :
  matches pg (buildQuery h q) r
  = typeOk (typesOf q) r && dateOk pg q r && radiusOk h pg q r.
Proof.
  unfold matches, typeOk, dateOk, radiusOk, windowOk, futureOk.
  query_cases q; rewrite ?Hdate, ?Hradius; cbn;
    repeat match goal with
           | |- context [match ?x with _ => _ end] =>
               match type of x with
               | value => destruct x
               | option _ => destruct x
               end; cbn
           end;
    rewrite ?andb_true_r, ?andb_false_r; try reflexivity;
    repeat match goal with
           | |- context [?a && ?b] => destruct a; cbn
           end; reflexivity.
Qed.

Lemma typeOk_member types r :
  types <> [] ->
  (typeOk types r = true <-> exists t, r_type r = VText t /\ In (LOWER t) types).
Proof.
  intros Hne. unfold typeOk. destruct types as [|ty tys]; [congruence|].
  destruct (r_type r) as [|t| | |];
    try (split; [discriminate|intros [t' [E _]]; discriminate]).
  rewrite existsb_eqb_In. split.
  - intros H. now exists t.
  - intros [t' [E H]]. inversion E; subst. exact H.
Qed.

(** The type conjunct of the WHERE clause: the parsed type list is the
    pipeline of [TypeFacts.specTypeSet] and holds each member once; a
    non-empty list is bound as the first parameter of
    [LOWER(type) = ANY($1)], which a row passes exactly when its lower-cased
    type is a member; an empty list adds no type conjunct. *)
Lemma type_filter_clause h pg q r :
  (forall x, In x (typesOf q) <-> In x (specTypeSet q))
  /\ NoDup (typesOf q)
  /\ matches pg (buildQuery h q) r
     = typeOk (typesOf q) r && dateOk pg q r && radiusOk h pg q r
  /\ (typesOf q <> [] ->
        In (CTypeAny 1) (sel_where (buildQuery h q))
        /\ param (sel_params (buildQuery h q)) 1 = VTextArray (typesOf q)
        /\ holds pg (sel_params (buildQuery h q)) r (CTypeAny 1) = typeOk (typesOf q) r
        /\ (typeOk (typesOf q) r = true
            <-> exists t, r_type r = VText t /\ In (LOWER t) (typesOf q)))
  /\ (typesOf q = [] ->
        typeOk (typesOf q) r = true
        /\ forall p, ~ In (CTypeAny p) (sel_where (buildQuery h q))).
Proof.
  split; [intros x; apply typesOf_spec|].
  split; [apply typesOf_NoDup|].
  split; [apply matches_buildQuery|].
  split.
  - intros Hne. split; [|split; [|split]].
    + query_cases q; try congruence; auto.
    + query_cases q; try congruence; reflexivity.
    + unfold typeOk. query_cases q; try congruence; reflexivity.
    + now apply typeOk_member.
  - intros Hnil. split; [now rewrite Hnil|]. intros p.
    query_cases q; try congruence; intuition discriminate.
Qed.

(** The request [types=Trivia,drink deals]. *)
Definition triviaOrDrinks : query :=
  {| q_types := QStr "Trivia,drink deals"; q_type := QAbsent; q_typesArr := QAbsent;
     q_lat := None; q_lng := None; q_radius := None;
     q_date := None; q_timeOfDay := None |}.

(** The same types through [type=Trivia&type= Drink Deals ,trivia] and
    [types[]=,]. *)
Definition triviaOrDrinksRepeated : query :=
  {| q_types := QAbsent;
     q_type := QArr [IStr "Trivia"; IStr " Drink Deals ,trivia"];
     q_typesArr := QArr [IStr ","];
     q_lat := None; q_lng := None; q_radius := None;
     q_date := None; q_timeOfDay := None |}.

(** An event of the given type on 2024-06-02 at 20:00 UTC. *)
Definition eventOfType (t : string) : row :=
  {| r_id := 7; r_name := VText "Tuesday special"; r_type := VText t;
     r_description := VNull; r_address_name := VNull; r_address := VNull;
     r_location := None;
     r_start_time := VDate (Some 1717358400000); r_end_time := VNull |}.

Example typesOf_csv : typesOf triviaOrDrinks = ["trivia"; "drink deals"].
Proof. vm_compute. reflexivity. Qed.

Example typesOf_repeated : typesOf triviaOrDrinksRepeated = ["trivia"; "drink deals"].
Proof. vm_compute. reflexivity. Qed.

(** The specification's example: stored [DRINK DEALS] matches, stored
    [karaoke] does not. *)
Example drink_deals_matches :
  matches Samples.samplePg (buildQuery Samples.sampleHost triviaOrDrinks)
    (eventOfType "DRINK DEALS") = true
  /\ matches Samples.samplePg (buildQuery Samples.sampleHost triviaOrDrinks)
       (eventOfType "karaoke") = false.
Proof. split; vm_compute; reflexivity. Qed.

(** *** The date window *)

Lemma strOf_orNull v : strOf (orNull v) = strOf v.
Proof. destruct v as [[|c s]|]; reflexivity. Qed.

Lemma boundsFor_bucket d tod :
  boundsFor d tod
  = let t := toLowerCase (strOf tod) in
    if String.eqb t "morning" then (d ++ " 05:00:00", d ++ " 11:59:59")%string
    else if String.eqb t "afternoon" then (d ++ " 12:00:00", d ++ " 16:59:59")%string
    else if String.eqb t "evening" then (d ++ " 17:00:00", d ++ " 23:59:59")%string
    else (d ++ " 00:00:00", d ++ " 23:59:59")%string.
Proof.
  unfold boundsFor. fold (strOf (orNull tod)). rewrite strOf_orNull. cbv zeta.
  destruct (String.eqb (toLowerCase (strOf tod)) "morning"); [reflexivity|].
  destruct (String.eqb (toLowerCase (strOf tod)) "afternoon"); [reflexivity|].
  destruct (String.eqb (toLowerCase (strOf tod)) "evening"); reflexivity.
Qed.

Lemma windowOk_between pg fromTs toTs r t lo hi :
  asTimestamp pg (r_start_time r) = Some t ->
  pgTimestamp pg fromTs = Some lo ->
  pgTimestamp pg toTs = Some hi ->
  (windowOk pg fromTs toTs r = true <-> lo <= t <= hi).
Proof.
  intros Ht Hlo Hhi. unfold windowOk. rewrite Ht, Hlo, Hhi.
  rewrite andb_true_iff, !Z.leb_le. tauto.
Qed.

(** C4: for a non-empty [date], the window runs from [date 05:00:00] to
    [date 11:59:59] for morning, [date 12:00:00] to [date 16:59:59] for
    afternoon, [date 17:00:00] to [date 23:59:59] for evening (the bucket
    is read without regard to case) and over the whole day for any other
    or no [timeOfDay]; the two ends are bound to [start_time >= $i] and
    [start_time <= $j], so that a row passes the date filter exactly when
    its [start_time] lies between the two ends, both included. *)
Theorem date_window h pg q r d :
  q_date q = Some d ->
  truthy d = true ->
  let tod := toLowerCase (strOf (q_timeOfDay q)) in
  let bounds := boundsFor d (q_timeOfDay q) in
  (tod = "morning" -> bounds = (d ++ " 05:00:00", d ++ " 11:59:59")%string)
  /\ (tod = "afternoon" -> bounds = (d ++ " 12:00:00", d ++ " 16:59:59")%string)
  /\ (tod = "evening" -> bounds = (d ++ " 17:00:00", d ++ " 23:59:59")%string)
  /\ (tod <> "morning" -> tod <> "afternoon" -> tod <> "evening" ->
      bounds = (d ++ " 00:00:00", d ++ " 23:59:59")%string)
  /\ (exists i, In (CStartGe i) (sel_where (buildQuery h q))
                /\ In (CStartLe (S i)) (sel_where (buildQuery h q))
                /\ param (sel_params (buildQuery h q)) i = VText (fst bounds)
                /\ param (sel_params (buildQuery h q)) (S i) = VText (snd bounds))
  /\ matches pg (buildQuery h q) r
     = typeOk (typesOf q) r && windowOk pg (fst bounds) (snd bounds) r
       && radiusOk h pg q r
  /\ (forall t lo hi,
        asTimestamp pg (r_start_time r) = Some t ->
        pgTimestamp pg (fst bounds) = Some lo ->
        pgTimestamp pg (snd bounds) = Some hi ->
        (windowOk pg (fst bounds) (snd bounds) r = true <-> lo <= t <= hi)).
Proof.
  intros Hd Htruthy tod bounds.
  assert (Hgiven : truthyOpt (q_date q) = true) by (rewrite Hd; exact Htruthy).
  assert (Hstr : strOf (q_date q) = d) by (rewrite Hd; reflexivity).
  assert (Hbounds : bounds = boundsFor d (q_timeOfDay q)) by reflexivity.
  rewrite boundsFor_bucket in Hbounds. cbv zeta in Hbounds. fold tod in Hbounds.
  split; [|split; [|split; [|split; [|split; [|split]]]]].
  - intros E. rewrite Hbounds, E. reflexivity.
  - intros E. rewrite Hbounds, E. reflexivity.
  - intros E. rewrite Hbounds, E. reflexivity.
  - intros E1 E2 E3. apply String.eqb_neq in E1, E2, E3.
    rewrite Hbounds, E1, E2, E3. reflexivity.
  - subst bounds. rewrite <- Hstr.
    query_cases q; try congruence;
      [exists 1%nat|exists 1%nat|exists 2%nat|exists 2%nat]; auto 8.
  - rewrite matches_buildQuery. unfold dateOk. rewrite Hgiven, Hstr. reflexivity.
  - intros t lo hi. apply windowOk_between.
Qed.

(** The request [date=2024-06-01&timeOfDay=evening]. *)
Definition eveningOfJune1 : query :=
  {| q_types := QAbsent; q_type := QAbsent; q_typesArr := QAbsent;
     q_lat := None; q_lng := None; q_radius := None;
     q_date := Some "2024-06-01"; q_timeOfDay := Some "evening" |}.

(** An event starting at the given timestamp text. *)
Definition eventAt (start_time : string) : row :=
  {| r_id := 3; r_name := VText "Karaoke"; r_type := VText "karaoke";
     r_description := VNull; r_address_name := VNull; r_address := VNull;
     r_location := None; r_start_time := VText start_time; r_end_time := VNull |}.

(** The specification's example: the evening of 2024-06-01 takes an event
    at 18:00:00 and leaves out one at 10:00:00. *)
Lemma date_window_witness :
  q_date eveningOfJune1 = Some "2024-06-01"
  /\ truthy "2024-06-01" = true
  /\ boundsFor "2024-06-01" (q_timeOfDay eveningOfJune1)
     = ("2024-06-01 17:00:00", "2024-06-01 23:59:59")
  /\ matches Samples.samplePg (buildQuery Samples.sampleHost eveningOfJune1)
       (eventAt "2024-06-01 18:00:00") = true.
Proof.
  split; [reflexivity|]. split; [reflexivity|].
  destruct (date_window Samples.sampleHost Samples.samplePg eveningOfJune1
              (eventAt "2024-06-01 18:00:00") "2024-06-01" eq_refl eq_refl)
    as [_ [_ [Hevening [_ [_ [Hmatches Hwindow]]]]]].
  split; [exact (Hevening eq_refl)|].
  rewrite Hmatches.
  assert (Hin : windowOk Samples.samplePg
                  (fst (boundsFor "2024-06-01" (q_timeOfDay eveningOfJune1)))
                  (snd (boundsFor "2024-06-01" (q_timeOfDay eveningOfJune1)))
                  (eventAt "2024-06-01 18:00:00") = true).
  { apply (Hwindow 1717264800000 1717261200000 1717286399000);
      [reflexivity|reflexivity|reflexivity|lia]. }
  rewrite Hin. reflexivity.
Defined.

Example evening_excludes_morning_event :
  matches Samples.samplePg (buildQuery Samples.sampleHost eveningOfJune1)
    (eventAt "2024-06-01 10:00:00") = false
  /\ matches Samples.samplePg (buildQuery Samples.sampleHost eveningOfJune1)
       (eventAt "2024-06-01 17:00:00") = true
  /\ matches Samples.samplePg (buildQuery Samples.sampleHost eveningOfJune1)
       (eventAt "2024-06-01 23:59:59") = true
  /\ matches Samples.samplePg (buildQuery Samples.sampleHost eveningOfJune1)
       (eventAt "2024-06-01 16:59:59") = false.
Proof. repeat split; vm_compute; reflexivity. Qed.

(** *** Date window or future only *)

Lemma futureOk_now pg r :
  futureOk pg r = true <->
  exists t, asTimestamp pg (r_start_time r) = Some t /\ pgNow pg <= t.
Proof.
  unfold futureOk. destruct (asTimestamp pg (r_start_time r)) as [t|].
  - rewrite Z.leb_le. split.
    + intros H. now exists t.
    + intros [t' [E H]]. inversion E; subst. exact H.
  - split; [discriminate|]. intros [t [E _]]. discriminate.
Qed.

(** C5: without a (non-empty) [date] the WHERE clause holds
    [start_time >= NOW()] and no window conjunct, and a row is returned
    only if its [start_time] is not before now; with a [date] it holds the
    two window conjuncts and not [start_time >= NOW()].  The two filters
    are never in one query. *)
Theorem date_filter_or_future_only h pg q r :
  (truthyOpt (q_date q) = false ->
     In CStartGeNow (sel_where (buildQuery h q))
     /\ (forall p, ~ In (CStartGe p) (sel_where (buildQuery h q))
                   /\ ~ In (CStartLe p) (sel_where (buildQuery h q)))
     /\ matches pg (buildQuery h q) r
        = typeOk (typesOf q) r && futureOk pg r && radiusOk h pg q r
     /\ (matches pg (buildQuery h q) r = true ->
         exists t, asTimestamp pg (r_start_time r) = Some t /\ pgNow pg <= t))
  /\ (truthyOpt (q_date q) = true ->
       ~ In CStartGeNow (sel_where (buildQuery h q))
       /\ (exists p, In (CStartGe p) (sel_where (buildQuery h q))
                     /\ In (CStartLe (S p)) (sel_where (buildQuery h q)))
       /\ matches pg (buildQuery h q) r
          = typeOk (typesOf q) r
            && windowOk pg (fst (boundsFor (strOf (q_date q)) (q_timeOfDay q)))
                          (snd (boundsFor (strOf (q_date q)) (q_timeOfDay q))) r
            && radiusOk h pg q r)
  /\ ~ (In CStartGeNow (sel_where (buildQuery h q))
        /\ exists p, In (CStartGe p) (sel_where (buildQuery h q))).
Proof.
  assert (Hfactor := matches_buildQuery h pg q r). unfold dateOk in Hfactor.
  split; [|split].
  - intros Hnone. rewrite Hnone in Hfactor.
    split; [|split; [|split]].
    + query_cases q; try congruence; auto 6.
    + intros p. query_cases q; try congruence; intuition discriminate.
    + exact Hfactor.
    + rewrite Hfactor. intros H.
      apply andb_true_iff in H. destruct H as [H _].
      apply andb_true_iff in H. destruct H as [_ H].
      now apply futureOk_now.
  - intros Hgiven. rewrite Hgiven in Hfactor.
    split; [|split].
    + query_cases q; try congruence; intuition discriminate.
    + query_cases q; try congruence;
        [exists 1%nat|exists 1%nat|exists 2%nat|exists 2%nat]; auto 8.
    + exact Hfactor.
  - intros [Hnow [p Hge]]. revert Hnow Hge.
    query_cases q; intuition discriminate.
Qed.

(** Without a date only events from now on are returned ([NOW()] is
    2024-06-01 12:00:00 in the sample store). *)
Example no_date_only_future :
  matches Samples.samplePg
    (buildQuery Samples.sampleHost
       {| q_types := QAbsent; q_type := QAbsent; q_typesArr := QAbsent;
          q_lat := None; q_lng := None; q_radius := None;
          q_date := None; q_timeOfDay := Some "evening" |})
    (eventAt "2024-06-01 10:00:00") = false
  /\ matches Samples.samplePg
       (buildQuery Samples.sampleHost
          {| q_types := QAbsent; q_type := QAbsent; q_typesArr := QAbsent;
             q_lat := None; q_lng := None; q_radius := None;
             q_date := None; q_timeOfDay := Some "evening" |})
       (eventAt "2024-06-01 12:00:00") = true.
Proof. split; vm_compute; reflexivity. Qed.

(** *** The radius filter *)

Definition isDWithin (c : cond) : bool :=
  match c with
  | CDWithin _ _ _ => true
  | _ => false
  end.

(** The statement has the radius conjunct. *)
Definition radiusApplied (s : select) : bool := existsb isDWithin (sel_where s).

(** A parameter that is supplied and that [parseFloat] reads as a number. *)
Definition numericallyValid (h : Host) (v : option string) : bool :=
  match v with
  | Some s => negb (PrimFloat.is_nan (parseFloat h s))
  | None => false
  end.

(** The request [lat=abc&lng=-80.75&radius=5]. *)
Definition centerNotANumber : query :=
  {| q_types := QAbsent; q_type := QAbsent; q_typesArr := QAbsent;
     q_lat := Some "abc"; q_lng := Some "-80.75"; q_radius := Some "5";
     q_date := None; q_timeOfDay := None |}.

(** C6 as stated fails: with [lat=abc] the radius filter is applied
    although the latitude is not a number, and the center is bound with
    NaN as its latitude. *)
Lemma radius_applied_to_non_number :
  ~ (radiusApplied (buildQuery Samples.sampleHost centerNotANumber) = true
     <-> numericallyValid Samples.sampleHost (q_lat centerNotANumber) = true
         /\ numericallyValid Samples.sampleHost (q_lng centerNotANumber) = true
         /\ numericallyValid Samples.sampleHost (q_radius centerNotANumber) = true).
Proof.
  intros [Hclaim _].
  assert (Happlied : radiusApplied (buildQuery Samples.sampleHost centerNotANumber) = true)
    by (vm_compute; reflexivity).
  destruct (Hclaim Happlied) as [Hlat _].
  vm_compute in Hlat. discriminate.
Qed.

Example center_bound_as_nan :
  sel_params (buildQuery Samples.sampleHost centerNotANumber)
  = [VFloat (-80.75)%float; VFloat PrimFloat.nan;
     VFloat (PrimFloat.mul 5 milesToMeters)].
Proof. vm_compute. reflexivity. Qed.

Lemma truthy_nonempty s : truthy s = true <-> s <> "".
Proof. destruct s; simpl; split; congruence. Qed.

Lemma radiusGiven_nonempty q :
  radiusGiven q = true
  <-> exists a b c, q_lat q = Some a /\ q_lng q = Some b /\ q_radius q = Some c
                    /\ a <> "" /\ b <> "" /\ c <> "".
Proof.
  unfold radiusGiven, truthyOpt. split.
  - intros H. apply andb_true_iff in H. destruct H as [H Hc].
    apply andb_true_iff in H. destruct H as [Ha Hb].
    destruct (q_lat q) as [a|], (q_lng q) as [b|], (q_radius q) as [c|];
      try discriminate.
    exists a, b, c. rewrite <- !truthy_nonempty. auto 7.
  - intros [a [b [c [Ea [Eb [Ec [Ha [Hb Hc]]]]]]]]. rewrite Ea, Eb, Ec.
    apply truthy_nonempty in Ha, Hb, Hc. now rewrite Ha, Hb, Hc.
Qed.

(** C6, amended: the radius filter is applied exactly when [lat], [lng]
    and [radius] are all supplied and non-empty (whether they read as
    numbers is not checked); it then binds [parseFloat(lng)],
    [parseFloat(lat)] and [parseFloat(radius) * 1609.34] and requires
    [location IS NOT NULL], so a row with a null location never passes. *)
Theorem radius_filter_when_given h pg q r :
  radiusApplied (buildQuery h q) = radiusGiven q
  /\ (radiusGiven q = true
      <-> exists a b c, q_lat q = Some a /\ q_lng q = Some b /\ q_radius q = Some c
                        /\ a <> "" /\ b <> "" /\ c <> "")
  /\ (radiusGiven q = true ->
      exists i,
        In CLocNotNull (sel_where (buildQuery h q))
        /\ In (CDWithin i (S i) (S (S i))) (sel_where (buildQuery h q))
        /\ param (sel_params (buildQuery h q)) i
           = VFloat (parseFloat h (strOf (q_lng q)))
        /\ param (sel_params (buildQuery h q)) (S i)
           = VFloat (parseFloat h (strOf (q_lat q)))
        /\ param (sel_params (buildQuery h q)) (S (S i))
           = VFloat (PrimFloat.mul (parseFloat h (strOf (q_radius q))) milesToMeters))
  /\ milesToMeters = PrimFloat.div 160934 100
  /\ matches pg (buildQuery h q) r
     = typeOk (typesOf q) r && dateOk pg q r && radiusOk h pg q r
  /\ (radiusGiven q = true -> r_location r = None ->
      matches pg (buildQuery h q) r = false)
  /\ (radiusGiven q = false ->
      ~ In CLocNotNull (sel_where (buildQuery h q))
      /\ radiusOk h pg q r = true).
Proof.
  split; [|split; [|split; [|split; [|split; [|split]]]]].
  - unfold radiusApplied. query_cases q; reflexivity.
  - apply radiusGiven_nonempty.
  - intros Hgiven. unfold centerOf, metersOf.
    query_cases q; try congruence;
      [exists 3%nat|exists 1%nat|exists 4%nat|exists 2%nat]; auto 10.
  - reflexivity.
  - apply matches_buildQuery.
  - intros Hgiven Hnull. rewrite matches_buildQuery. unfold radiusOk.
    rewrite Hgiven, Hnull. apply andb_false_r.
  - intros Hnot. split.
    + query_cases q; try congruence; intuition discriminate.
    + unfold radiusOk. now rewrite Hnot.
Qed.

(** A request with an empty [radius] is not filtered by distance, one with
    [radius=0] is. *)
Example radius_empty_or_zero :
  radiusApplied
    (buildQuery Samples.sampleHost
       {| q_types := QAbsent; q_type := QAbsent; q_typesArr := QAbsent;
          q_lat := Some "35.25"; q_lng := Some "-80.75"; q_radius := Some "";
          q_date := None; q_timeOfDay := None |}) = false
  /\ radiusApplied
       (buildQuery Samples.sampleHost
          {| q_types := QAbsent; q_type := QAbsent; q_typesArr := QAbsent;
             q_lat := Some "35.25"; q_lng := Some "-80.75"; q_radius := Some "0";
             q_date := None; q_timeOfDay := None |}) = true.
Proof. split; vm_compute; reflexivity. Qed.

End QueryFacts.


(** ** Lines of a CSV body *)

Module LineFacts.
Import JsString.

(** A character put in front of the first line. *)
Definition consHead (c : ascii) (l : list string) : list string :=
  match l with
  | h :: t => String c h :: t
  | [] => [String c EmptyString]
  end.

(** The lines of a text that a line feed follows: as [splitLines], but a
    final CR belongs to the line break. *)
Fixpoint linesBefore (a : string) : list string :=
  match a with
  | EmptyString => [EmptyString]
  | String c r =>
      if Ascii.eqb c LF then EmptyString :: linesBefore r
      else
        match r with
        | String c' r' =>
            if Ascii.eqb c CR && Ascii.eqb c' LF then EmptyString :: linesBefore r'
            else consHead c (linesBefore r)
        | EmptyString => if Ascii.eqb c CR then [EmptyString] else [String c EmptyString]
        end
  end.

(** The text ends with a CR. *)
Fixpoint endsWithCR (a : string) : bool :=
  match a with
  | EmptyString => false
  | String c EmptyString => Ascii.eqb c CR
  | String _ r => endsWithCR r
  end.

Lemma splitLines_cons c r :
  splitLines (String c r)
  = if Ascii.eqb c LF then EmptyString :: splitLines r
    else match r with
         | String c' r' =>
             if Ascii.eqb c CR && Ascii.eqb c' LF then EmptyString :: splitLines r'
             else consHead c (splitLines r)
         | EmptyString => [String c EmptyString]
         end.
Proof. destruct r; reflexivity. Qed.

Lemma linesBefore_cons c r :
  linesBefore (String c r)
  = if Ascii.eqb c LF then EmptyString :: linesBefore r
    else match r with
         | String c' r' =>
             if Ascii.eqb c CR && Ascii.eqb c' LF then EmptyString :: linesBefore r'
             else consHead c (linesBefore r)
         | EmptyString => if Ascii.eqb c CR then [EmptyString] else [String c EmptyString]
         end.
Proof. destruct r; reflexivity. Qed.

Lemma linesBefore_nonempty a : exists h t, linesBefore a = h :: t.
Proof.
  induction a as [|c r IH]; [simpl; eauto|].
  rewrite linesBefore_cons. destruct (Ascii.eqb c LF); [eauto|].
  destruct r as [|c' r'].
  - destruct (Ascii.eqb c CR); eauto.
  - destruct (Ascii.eqb c CR && Ascii.eqb c' LF); [eauto|].
    destruct IH as [h [t E]]. rewrite E. simpl. eauto.
Qed.

Lemma consHead_app c l l' :
  l <> [] -> consHead c (l ++ l') = consHead c l ++ l'.
Proof. destruct l; [congruence|reflexivity]. Qed.

Lemma LF_not_CR : Ascii.eqb LF CR = false.
Proof. reflexivity. Qed.

(** The lines of [a], a line feed and [b]: those of [a] before the break,
    then those of [b]. *)
Lemma splitLines_app_LF a :
  (forall b, splitLines (a ++ String LF b) = linesBefore a ++ splitLines b)
  /\ (forall c b, splitLines (String c a ++ String LF b)
                  = linesBefore (String c a) ++ splitLines b).
Proof.
  induction a as [|c' a IH].
  - split.
    + intros b. reflexivity.
    + intros c b. cbn [append]. rewrite splitLines_cons, linesBefore_cons.
      destruct (Ascii.eqb c LF); [reflexivity|].
      rewrite Ascii.eqb_refl, andb_true_r.
      destruct (Ascii.eqb c CR); reflexivity.
  - destruct IH as [IH0 IH1]. split; [intros b; apply IH1|].
    intros c b. cbn [append]. rewrite splitLines_cons, linesBefore_cons.
    destruct (Ascii.eqb c LF).
    + cbn [app]. f_equal. apply (IH1 c' b).
    + destruct (Ascii.eqb c CR && Ascii.eqb c' LF).
      * cbn [app]. f_equal. apply IH0.
      * change (String c' (a ++ String LF b)) with (String c' a ++ String LF b)%string.
        rewrite (IH1 c' b). apply consHead_app.
        destruct (linesBefore_nonempty (String c' a)) as [h [t E]]. rewrite E. discriminate.
Qed.

Lemma splitLines_break a b :
  splitLines (a ++ String LF b) = linesBefore a ++ splitLines b.
Proof. apply splitLines_app_LF. Qed.

(** Without a final CR the lines before a break are the lines. *)
Lemma linesBefore_splitLines a :
  endsWithCR a = false -> linesBefore a = splitLines a.
Proof.
  induction a as [|c r IH]; [reflexivity|].
  intros Hcr. rewrite linesBefore_cons, splitLines_cons.
  destruct r as [|c' r'].
  - simpl in Hcr. rewrite Hcr. reflexivity.
  - assert (Hr : endsWithCR (String c' r') = false) by exact Hcr.
    specialize (IH Hr).
    destruct (Ascii.eqb c LF).
    + now rewrite IH.
    + destruct (Ascii.eqb c CR && Ascii.eqb c' LF) eqn:E.
      * f_equal. rewrite linesBefore_cons, splitLines_cons in IH.
        apply andb_true_iff in E. destruct E as [_ E]. rewrite E in IH.
        now inversion IH.
      * now rewrite IH.
Qed.

(** The non-empty lines of a body: what the import keeps. *)
Definition keptLines (csv : string) : list string := filter truthy (splitLines csv).

Lemma keptLines_break a b :
  keptLines (a ++ String LF b) = filter truthy (linesBefore a) ++ keptLines b.
Proof. unfold keptLines. now rewrite splitLines_break, filter_app. Qed.

(** An empty line, ended by LF or by CR LF, adds nothing to the kept lines. *)
Lemma keptLines_blank_LF a b :
  keptLines (a ++ String LF (String LF b)) = keptLines (a ++ String LF b).
Proof. rewrite !keptLines_break. f_equal. Qed.

Lemma keptLines_blank_CRLF a b :
  keptLines (a ++ String LF (String CR (String LF b))) = keptLines (a ++ String LF b).
Proof. rewrite !keptLines_break. f_equal. Qed.

Lemma keptLines_leading_LF b : keptLines (String LF b) = keptLines b.
Proof. reflexivity. Qed.

Lemma keptLines_trailing_LF a :
  endsWithCR a = false -> keptLines (a ++ String LF EmptyString) = keptLines a.
Proof.
  intros Hcr. rewrite keptLines_break, linesBefore_splitLines by exact Hcr.
  unfold keptLines. simpl. now rewrite app_nil_r.
Qed.

(** *** The body as a text of lines and line breaks

    What follows describes a body from the outside: which texts are runs of
    line breaks, which are the text of a line, and which bodies are made of
    given non-empty lines with blank lines among them.  None of it goes
    through [splitLines]. *)

(** A run of line breaks: LF or CR LF, any number of times. *)
Inductive onlyBreaks : string -> Prop :=
| breaks_none : onlyBreaks EmptyString
| breaks_LF s : onlyBreaks s -> onlyBreaks (String "010"%char s)
| breaks_CRLF s : onlyBreaks s -> onlyBreaks (String "013"%char (String "010"%char s)).

(** The text of a non-empty line: it has a character, no line feed, and
    no CR at its end (which would belong to the break after it). *)
Definition lineText (x : string) : Prop :=
  x <> EmptyString
  /\ ~ In "010"%char (list_ascii_of_string x)
  /\ (forall y, x <> (y ++ String "013"%char EmptyString)%string).

(** [bodyOf lines csv]: the body [csv] is the non-empty lines [lines] in
    order, each but possibly the last followed by one or more line breaks
    (so with any number of blank lines after it), with any number of blank
    lines in front. *)
Inductive bodyOf : list string -> string -> Prop :=
| body_end bs : onlyBreaks bs -> bodyOf [] bs
| body_last x : lineText x -> bodyOf [x] x
| body_line x bs lines rest :
    lineText x -> onlyBreaks bs -> bs <> EmptyString -> bodyOf lines rest ->
    bodyOf (x :: lines) (x ++ bs ++ rest)%string
| body_blank bs lines rest :
    onlyBreaks bs -> bodyOf lines rest -> bodyOf lines (bs ++ rest)%string.

Lemma append_nil_r (s : string) : (s ++ EmptyString)%string = s.
Proof. induction s as [|c s IH]; simpl; [reflexivity|now rewrite IH]. Qed.

Lemma append_assoc (a b c : string) : ((a ++ b) ++ c)%string = (a ++ (b ++ c))%string.
Proof. induction a as [|x a IH]; simpl; [reflexivity|now rewrite IH]. Qed.

Lemma LF_not_CR_sym : Ascii.eqb CR LF = false.
Proof. reflexivity. Qed.

(** A decidable form of [lineText]. *)
Fixpoint hasLF (x : string) : bool :=
  match x with
  | EmptyString => false
  | String c r => Ascii.eqb c LF || hasLF r
  end.

Definition isLineText (x : string) : bool :=
  truthy x && negb (hasLF x) && negb (endsWithCR x).

Lemma hasLF_In x : hasLF x = true <-> In "010"%char (list_ascii_of_string x).
Proof.
  induction x as [|c r IH]; simpl; [intuition discriminate|].
  rewrite orb_true_iff, IH, Ascii.eqb_eq. unfold LF. simpl. intuition congruence.
Qed.

Lemma endsWithCR_spec x :
  endsWithCR x = true <-> exists y, x = (y ++ String "013"%char EmptyString)%string.
Proof.
  split.
  - induction x as [|c r IH]; [discriminate|].
    destruct r as [|c' r'].
    + simpl. intros E. apply Ascii.eqb_eq in E. subst c. now exists EmptyString.
    + intros E. destruct (IH E) as [y Hy]. exists (String c y). simpl. now rewrite <- Hy.
  - intros [y ->]. induction y as [|c y IH]; [reflexivity|].
    destruct y as [|c' y']; exact IH.
Qed.

Lemma isLineText_lineText x : isLineText x = true <-> lineText x.
Proof.
  unfold isLineText, lineText. rewrite !andb_true_iff, !negb_true_iff.
  split.
  - intros [[Ht Hlf] Hcr]. split; [now destruct x|]. split.
    + intros Hin. apply hasLF_In in Hin. congruence.
    + intros y Hy.
      assert (E : endsWithCR x = true) by (apply endsWithCR_spec; eauto). congruence.
  - intros (Hne & Hlf & Hcr). split; [split|].
    + destruct x; [congruence|reflexivity].
    + destruct (hasLF x) eqn:E; [|reflexivity]. apply hasLF_In in E. contradiction.
    + destruct (endsWithCR x) eqn:E; [|reflexivity].
      apply endsWithCR_spec in E. destruct E as [y Hy]. now apply Hcr in Hy.
Qed.

(** A text without a line feed is one line. *)
Lemma splitLines_one_line x : hasLF x = false -> splitLines x = [x].
Proof.
  induction x as [|c r IH]; [reflexivity|].
  simpl hasLF. intros H. apply orb_false_iff in H. destruct H as [Hc Hr].
  rewrite splitLines_cons, Hc. destruct r as [|c' r']; [reflexivity|].
  simpl in Hr. apply orb_false_iff in Hr. destruct Hr as [Hc' Hr'].
  rewrite Hc', andb_false_r, IH; [reflexivity|].
  simpl. now rewrite Hc', Hr'.
Qed.

(** Before a break, a CR after such a text is part of the break. *)
Lemma linesBefore_CR x :
  hasLF x = false -> linesBefore (x ++ String CR EmptyString) = [x].
Proof.
  induction x as [|c r IH]; [reflexivity|].
  simpl hasLF. intros H. apply orb_false_iff in H. destruct H as [Hc Hr].
  cbn [append]. rewrite linesBefore_cons, Hc.
  destruct r as [|c' r'].
  - cbn [append]. rewrite LF_not_CR_sym, andb_false_r. reflexivity.
  - specialize (IH Hr). cbn [append] in *.
    simpl in Hr. apply orb_false_iff in Hr. destruct Hr as [Hc' Hr'].
    rewrite Hc', andb_false_r, IH. reflexivity.
Qed.

(** Line breaks in front add nothing to the kept lines. *)
Lemma keptLines_breaks bs rest :
  onlyBreaks bs -> keptLines (bs ++ rest) = keptLines rest.
Proof.
  induction 1 as [|s _ IH|s _ IH]; [reflexivity| |]; exact IH.
Qed.

(** A line and the breaks after it: the line is kept, the breaks are not. *)
Lemma keptLines_line x bs rest :
  lineText x -> onlyBreaks bs -> bs <> EmptyString ->
  keptLines (x ++ bs ++ rest) = x :: keptLines rest.
Proof.
  intros Hx Hbs Hne. apply isLineText_lineText in Hx.
  unfold isLineText in Hx. rewrite !andb_true_iff, !negb_true_iff in Hx.
  destruct Hx as [[Ht Hlf] Hcr].
  destruct Hbs as [|s Hs|s Hs]; [congruence| |].
  - change (x ++ String "010"%char s ++ rest)%string
      with (x ++ String LF (s ++ rest))%string.
    rewrite keptLines_break, linesBefore_splitLines, splitLines_one_line by assumption.
    cbn [filter]. rewrite Ht. cbn [app]. f_equal. now apply keptLines_breaks.
  - change (x ++ String "013"%char (String "010"%char s) ++ rest)%string
      with (x ++ String CR (String LF (s ++ rest)))%string.
    replace (x ++ String CR (String LF (s ++ rest)))%string
      with ((x ++ String CR EmptyString) ++ String LF (s ++ rest))%string
      by (rewrite append_assoc; reflexivity).
    rewrite keptLines_break, linesBefore_CR by assumption.
    cbn [filter]. rewrite Ht. cbn [app]. f_equal. now apply keptLines_breaks.
Qed.

(** The kept lines of a body made of [lines] are [lines]. *)
Lemma keptLines_bodyOf lines csv : bodyOf lines csv -> keptLines csv = lines.
Proof.
  induction 1 as [bs Hbs|x Hx|x bs lines rest Hx Hbs Hne _ IH|bs lines rest Hbs _ IH].
  - rewrite <- (append_nil_r bs).
    rewrite keptLines_breaks by exact Hbs. reflexivity.
  - apply isLineText_lineText in Hx.
    unfold isLineText in Hx. rewrite !andb_true_iff, !negb_true_iff in Hx.
    destruct Hx as [[Ht Hlf] Hcr].
    unfold keptLines. rewrite splitLines_one_line by exact Hlf.
    cbn [filter]. now rewrite Ht.
  - rewrite keptLines_line by assumption. now rewrite IH.
  - rewrite keptLines_breaks by exact Hbs. exact IH.
Qed.

Lemma consHead_kept c l : filter truthy (consHead c l) <> [].
Proof. destruct l; simpl; discriminate. Qed.

(** No line is kept exactly when the body is a run of line breaks. *)
Lemma keptLines_nil_breaks_aux s :
  (keptLines s = [] -> onlyBreaks s)
  /\ (forall c, keptLines (String c s) = [] -> onlyBreaks (String c s)).
Proof.
  unfold keptLines. induction s as [|c' s [IH0 IH1]].
  - split; [intros _; constructor|].
    intros c. rewrite splitLines_cons.
    destruct (Ascii.eqb c LF) eqn:Ec; [|discriminate].
    apply Ascii.eqb_eq in Ec. subst c. intros _. apply breaks_LF. constructor.
  - split; [apply IH1|].
    intros c. rewrite splitLines_cons.
    destruct (Ascii.eqb c LF) eqn:Ec.
    + apply Ascii.eqb_eq in Ec. subst c. cbn [filter truthy]. intros H.
      apply breaks_LF. now apply IH1.
    + destruct (Ascii.eqb c CR && Ascii.eqb c' LF) eqn:E.
      * apply andb_true_iff in E. destruct E as [E1 E2].
        apply Ascii.eqb_eq in E1, E2. subst c c'. cbn [filter truthy]. intros H.
        apply breaks_CRLF. now apply IH0.
      * intros H. now apply consHead_kept in H.
Qed.

Lemma keptLines_nil_breaks csv : keptLines csv = [] <-> onlyBreaks csv.
Proof.
  split; [apply keptLines_nil_breaks_aux|].
  intros H. rewrite <- (append_nil_r csv).
  now rewrite keptLines_breaks.
Qed.

End LineFacts.


(** ** CSV import *)

Module ImportFacts.
Import JsString Sql Adapter Recurrence Handlers LineFacts.

Lemma expandRecord_total h start_time end_time recurrence recurrence_until :
  exists l, expandRecord h start_time end_time recurrence recurrence_until = Some l.
Proof.
  unfold expandRecord.
  destruct (RecurrenceFacts.expand_total (hostZone h) (toTimestamp h start_time)
              (toTimestamp h end_time) recurrence (toTimestamp h recurrence_until))
    as [l [Hl _]].
  now exists l.
Qed.

(** The loop over the records always ends, with a count or with the 500
    of a failed lookup, never with a 400. *)
Lemma importLines_result h header lines : forall inserted st,
  exists resp st', importLines h header lines inserted st = Some (resp, st')
                   /\ ((exists n, resp = Imported n) \/ resp = ServerError).
Proof.
  induction lines as [|line lines IH]; intros inserted st; cbn [importLines].
  - exists (Imported inserted), st. split; [reflexivity|left; eauto].
  - cbv zeta.
    destruct (Geo.geocodeIfNeeded _ _ _ _) as [geo|].
    + match goal with
      | |- context [expandRecord ?h ?s ?e ?r ?u] =>
          destruct (expandRecord_total h s e r u) as [l Hl]; rewrite Hl
      end.
      destruct (insertAll _ l st) as [ids st'] eqn:Hins.
      apply IH.
    + exists ServerError, st. split; [reflexivity|now right].
Qed.

(** POST /admin/import always answers. *)
Lemma importCsv_total h csv st : exists res, importCsv h csv st = Some res.
Proof.
  unfold importCsv. destruct (filter truthy (splitLines csv)) as [|first lines]; [eauto|].
  destruct (missing "name" _); [eauto|].
  destruct (missing "type" _); [eauto|].
  destruct (missing "start_time" _); [eauto|].
  destruct (importLines_result h
              (map (fun c => toLowerCase (trim c)) (split comma first)) lines 0 st)
    as [resp [st' [E _]]].
  eauto.
Qed.

(** The answer depends on the body through its non-empty lines only. *)
Lemma importCsv_keptLines h csv csv' st :
  keptLines csv = keptLines csv' -> importCsv h csv st = importCsv h csv' st.
Proof. unfold importCsv, keptLines. intros E. now rewrite E. Qed.

Lemma keptLines_nil csv :
  keptLines csv = [] <-> forall l, In l (splitLines csv) -> l = EmptyString.
Proof.
  unfold keptLines. split.
  - intros E l Hl. destruct l as [|c l]; [reflexivity|].
    assert (Hin : In (String c l) (filter truthy (splitLines csv)))
      by (apply filter_In; auto).
    rewrite E in Hin. destruct Hin.
  - intros Hall. induction (splitLines csv) as [|x xs IH]; [reflexivity|].
    simpl. rewrite (Hall x) by now left. apply IH.
    intros l Hl. apply Hall. now right.
Qed.

Lemma importCsv_empty h csv st :
  (exists st', importCsv h csv st = Some (BadRequest "Empty CSV", st'))
  <-> keptLines csv = [].
Proof.
  unfold importCsv, keptLines.
  destruct (filter truthy (splitLines csv)) as [|first lines].
  - split; [reflexivity|]. intros _. now exists st.
  - split; [|discriminate]. intros [st' H].
    destruct (missing "name" _); [discriminate|].
    destruct (missing "type" _); [discriminate|].
    destruct (missing "start_time" _); [discriminate|].
    destruct (importLines_result h
                (map (fun c => toLowerCase (trim c)) (split comma first)) lines 0 st)
      as [resp [st'' [E [[n Hn]|Hn]]]]; rewrite E in H; subst resp; discriminate.
Qed.

Definition nl : string := String LF EmptyString.
Definition crlf : string := String CR (String LF EmptyString).

Definition emptyStore : store := {| rows := []; nextId := 1 |}.

(** A header alone, with its line break. *)
Example import_header_only :
  importCsv Samples.sampleHost ("Name, Type ,start_time,recurrence" ++ crlf) emptyStore
  = Some (Imported 0, emptyStore).
Proof. vm_compute. reflexivity. Qed.

(** Line breaks alone are an empty CSV. *)
Example import_only_breaks :
  importCsv Samples.sampleHost (nl ++ crlf ++ nl) emptyStore
  = Some (BadRequest "Empty CSV", emptyStore).
Proof. vm_compute. reflexivity. Qed.

(** A daily record of three days between empty lines: three rows. *)
Example import_three_days :
  option_map fst
    (importCsv Samples.sampleHost
       (nl ++ "name,type,start_time,recurrence,recurrence_until" ++ nl ++ nl
           ++ "Trivia Night,Trivia,2024-01-01T19:00:00,Daily,2024-01-03T19:00:00"
           ++ crlf ++ crlf)
       emptyStore)
  = Some (Imported 3).
Proof. vm_compute. reflexivity. Qed.

(** A line of spaces is not an empty line: it is read as a record, with an
    empty name and the epoch as its start. *)
Example import_line_of_spaces :
  importCsv Samples.sampleHost ("name,type,start_time" ++ nl ++ "   " ++ nl) emptyStore
  = Some (Imported 1,
          {| rows := [{| r_id := 1; r_name := VText ""; r_type := VText "";
                         r_description := VNull; r_address_name := VNull;
                         r_address := VNull; r_location := None;
                         r_start_time := VDate (Some 0); r_end_time := VNull |}];
             nextId := 2 |}).
Proof. vm_compute. reflexivity. Qed.

(** A daily record until a year later stores 201 rows. *)
Example import_year_of_days :
  option_map fst
    (importCsv Samples.sampleHost
       ("name,type,start_time,recurrence,recurrence_until" ++ nl
        ++ "Happy Hour,Drink Deals,2024-01-01,daily,2025-01-01" ++ nl)
       emptyStore)
  = Some (Imported 201).
Proof. vm_compute. reflexivity. Qed.

End ImportFacts.


(** ** Event creation *)

Module PostFacts.
Import JsString Sql Adapter Recurrence Handlers.

(** POST /admin/events always answers. *)
Lemma postEvent_total h b st : exists res, postEvent h b st = Some res.
Proof.
  unfold postEvent.
  destruct (negb (truthyOpt (post_name b)) || negb (truthyOpt (post_type b))
            || negb (truthyOpt (post_start_time b))); [eauto|].
  destruct (Geo.geocodeIfNeeded _ _ _ _) as [geo|]; [|eauto].
  match goal with
  | |- context [expandRecord ?h ?s ?e ?r ?u] =>
      destruct (ImportFacts.expandRecord_total h s e r u) as [l Hl]; rewrite Hl
  end.
  destruct (insertAll _ l st) as [ids st']. eauto.
Qed.

(** Without a [start_time] the answer is 400 and no row is inserted. *)
Lemma postEvent_requires_start_time h b st :
  truthyOpt (post_start_time b) = false ->
  postEvent h b st = Some (BadRequest "name, type, start_time are required", st).
Proof.
  intros H. unfold postEvent. rewrite H.
  now rewrite !orb_true_r.
Qed.

(** A weekly event without [recurrence_until], geocoded from its address. *)
Definition weeklyTrivia : postBody :=
  {| post_name := Some "Trivia Night"; post_type := Some "Trivia";
     post_description := None; post_address_name := Some "The Pub";
     post_address := Some "Charlotte, NC"; post_lat := None; post_lon := None;
     post_start_time := Some "2024-01-01T19:00:00";
     post_end_time := Some "2024-01-01T21:00:00";
     post_recurrence := Some "weekly"; post_recurrence_until := None |}.

Example post_weekly_inserts_nine :
  option_map fst (postEvent Samples.sampleHost weeklyTrivia ImportFacts.emptyStore)
  = Some (Created 9 [1; 2; 3; 4; 5; 6; 7; 8; 9]).
Proof. vm_compute. reflexivity. Qed.

End PostFacts.


(** * More of the server *)

(** ** The recurrence expander in general *)

Module ExpandMore.
Import JsDate Recurrence RecurrenceFacts ExpandSpec.

(** The days in one step of a recurrence: the argument of [addDays] in
    [step], [addWeeks(d, 1)] being [addDays(d, 7)]. *)
Definition stepDays (recurrence : string) : option Z :=
  if String.eqb recurrence "daily" then Some 1
  else if String.eqb recurrence "weekly" then Some 7
  else None.

Lemma stepOf_stepDays tz recurrence n :
  stepDays recurrence = Some n ->
  stepOf tz recurrence = Some (fun d => addDays tz (Some d) n).
Proof.
  unfold stepDays, stepOf.
  destruct (String.eqb recurrence "daily").
  - intros E. inversion E. reflexivity.
  - destruct (String.eqb recurrence "weekly"); [|discriminate].
    intros E. inversion E. reflexivity.
Qed.

Lemma stepDays_positive recurrence n : stepDays recurrence = Some n -> 0 < n.
Proof.
  unfold stepDays. destruct (String.eqb recurrence "daily").
  - intros E. inversion E. lia.
  - destruct (String.eqb recurrence "weekly"); [|discriminate].
    intros E. inversion E. lia.
Qed.

Lemma stepDays_none tz recurrence :
  stepDays recurrence = None -> stepOf tz recurrence = None.
Proof.
  unfold stepDays, stepOf.
  destruct (String.eqb recurrence "daily"); [discriminate|].
  destruct (String.eqb recurrence "weekly"); [discriminate|reflexivity].
Qed.

(** The number of starts from [s] to [u] in steps of [n] days, cut at 201. *)
Definition expectedCount (s u n : Z) : nat :=
  Z.to_nat (Z.min 201 ((u - s) / (n * msPerDay) + 1)).

(** The expansion of a stepped recurrence in an exact zone, in closed form. *)
Lemma expand_exact tz recurrence n s u end_ :
  calendarExact tz ->
  stepDays recurrence = Some n ->
  - maxTime <= s -> s <= u -> u <= maxTime ->
  expand tz (Some (Some s)) end_ recurrence (Some (Some u))
  = Some (map (fun k =>
                 {| inst_start := Some (s + Z.of_nat k * n * msPerDay);
                    inst_end := option_map (Nat.iter k (fun d => addDays tz (Some d) n))
                                           end_ |})
              (seq 0 (expectedCount s u n))).
Proof.
  intros Hexact Hstep Hlo Hsu Hhi.
  pose proof (stepDays_positive _ _ Hstep) as Hn.
  unfold expand, expandWith. rewrite (stepOf_stepDays tz _ _ Hstep), copy_end.
  cbn [untilOf newDate].
  assert (Hms : 0 < n * msPerDay) by (unfold msPerDay; lia).
  pose proof (Z.div_pos (u - s) (n * msPerDay) ltac:(lia) Hms) as Hq.
  pose proof (Z.mul_div_le (u - s) (n * msPerDay) Hms) as Hle.
  pose proof (Z.mul_succ_div_gt (u - s) (n * msPerDay) Hms) as Hgt.
  apply (recurrenceLoop_exact tz Hexact n Hn).
  - unfold expectedCount. lia.
  - exact Hlo.
  - exact Hhi.
  - intros k Hk. unfold expectedCount in Hk.
    assert (Hk' : Z.of_nat k <= (u - s) / (n * msPerDay)) by lia.
    nia.
  - unfold expectedCount.
    destruct (Z.le_gt_cases 201 ((u - s) / (n * msPerDay) + 1)) as [Hcap|Hcap].
    + left. rewrite Z.min_l by exact Hcap. reflexivity.
    + right. rewrite Z.min_r by lia. rewrite Z2Nat.id by lia. nia.
Qed.

(** X1: the expansion always ends, in any time zone and on any dates,
    with at most 201 instances, and with exactly one when the recurrence is
    neither [daily] nor [weekly]. *)
Theorem expand_ends_within_201 tz start end_ recurrence recurrence_until :
  exists l, expand tz start end_ recurrence recurrence_until = Some l
            /\ (length l <= 201)%nat
            /\ (stepDays recurrence = None -> length l = 1%nat).
Proof.
  destruct (expand_total tz start end_ recurrence recurrence_until) as [l [Hl Hlen]].
  exists l. split; [exact Hl|]. split; [exact Hlen|].
  intros Hnone. unfold expand, expandWith in Hl.
  rewrite (stepDays_none tz _ Hnone) in Hl. inversion Hl. reflexivity.
Qed.

(** X2: in an exact zone, a daily or weekly expansion from a valid [start]
    to a valid [until] not before it has [min 201 ((until - start) / step + 1)]
    instances, at least one, and its [k]-th start is [start + k * step]. *)
Theorem expand_exact_starts tz recurrence n s u end_ :
  calendarExact tz ->
  stepDays recurrence = Some n ->
  - maxTime <= s -> s <= u -> u <= maxTime ->
  exists l,
    expand tz (Some (Some s)) end_ recurrence (Some (Some u)) = Some l
    /\ length l = expectedCount s u n
    /\ (1 <= length l)%nat
    /\ map inst_start l
       = map (fun k => Some (s + Z.of_nat k * n * msPerDay)) (seq 0 (length l)).
Proof.
  intros Hexact Hstep Hlo Hsu Hhi.
  rewrite (expand_exact tz recurrence n s u end_ Hexact Hstep Hlo Hsu Hhi).
  eexists. split; [reflexivity|].
  rewrite length_map, length_seq, map_map. cbn [inst_start].
  split; [reflexivity|]. split; [|reflexivity].
  pose proof (stepDays_positive _ _ Hstep) as Hn.
  assert (Hms : 0 < n * msPerDay) by (unfold msPerDay; lia).
  pose proof (Z.div_pos (u - s) (n * msPerDay) ltac:(lia) Hms) as Hq.
  unfold expectedCount. lia.
Qed.

(** Daily from 2024-01-01 until 2024-01-03, in UTC: three instances. *)
Lemma expand_exact_starts_witness :
  exists l,
    expand utcZone (Some (Some jan_1_2024)) None "daily"
      (Some (Some (jan_1_2024 + 2 * msPerDay))) = Some l
    /\ length l = 3%nat
    /\ (1 <= length l)%nat
    /\ map inst_start l
       = map (fun k => Some (jan_1_2024 + Z.of_nat k * 1 * msPerDay)) (seq 0 (length l)).
Proof.
  apply (expand_exact_starts utcZone "daily" 1 jan_1_2024 (jan_1_2024 + 2 * msPerDay) None).
  - exact utcZone_exact.
  - reflexivity.
  - unfold maxTime, jan_1_2024. lia.
  - unfold msPerDay. lia.
  - unfold maxTime, jan_1_2024, msPerDay. lia.
Defined.

(** X3: in an exact zone every instance of a stepped expansion keeps the
    distance between [start] and [end] of the request, as long as the ends
    stay inside the [Date] range. *)
Theorem expand_keeps_duration tz recurrence n s u e :
  calendarExact tz ->
  stepDays recurrence = Some n ->
  - maxTime <= s -> s <= u -> u <= maxTime ->
  - maxTime <= e -> e + (u - s) <= maxTime ->
  exists l,
    expand tz (Some (Some s)) (Some (Some e)) recurrence (Some (Some u)) = Some l
    /\ forall inst, In inst l ->
         exists s' e', inst_start inst = Some s'
                       /\ inst_end inst = Some (Some e')
                       /\ e' - s' = e - s.
Proof.
  intros Hexact Hstep Hlo Hsu Hhi Helo Hehi.
  rewrite (expand_exact tz recurrence n s u _ Hexact Hstep Hlo Hsu Hhi).
  eexists. split; [reflexivity|]. intros inst Hin.
  apply in_map_iff in Hin. destruct Hin as [k [Hinst Hk]]. subst inst.
  apply in_seq in Hk. cbn [inst_start inst_end option_map].
  pose proof (stepDays_positive _ _ Hstep) as Hn.
  assert (Hms : 0 < n * msPerDay) by (unfold msPerDay; lia).
  pose proof (Z.mul_div_le (u - s) (n * msPerDay) Hms) as Hle.
  pose proof (Z.div_pos (u - s) (n * msPerDay) ltac:(lia) Hms) as Hq.
  assert (Hkq : Z.of_nat k <= (u - s) / (n * msPerDay))
    by (unfold expectedCount in Hk; lia).
  exists (s + Z.of_nat k * n * msPerDay), (e + Z.of_nat k * n * msPerDay).
  split; [reflexivity|]. split; [|lia].
  rewrite (iter_step_exact tz Hexact n Hn); [reflexivity|exact Helo|nia].
Qed.

(** A two-hour event, weekly for two weeks. *)
Lemma expand_keeps_duration_witness :
  exists l,
    expand utcZone (Some (Some jan_1_2024)) (Some (Some (jan_1_2024 + 7200000)))
      "weekly" (Some (Some (jan_1_2024 + 14 * msPerDay))) = Some l
    /\ forall inst, In inst l ->
         exists s' e', inst_start inst = Some s'
                       /\ inst_end inst = Some (Some e')
                       /\ e' - s' = jan_1_2024 + 7200000 - jan_1_2024.
Proof.
  apply (expand_keeps_duration utcZone "weekly" 7 jan_1_2024
           (jan_1_2024 + 14 * msPerDay) (jan_1_2024 + 7200000)).
  - exact utcZone_exact.
  - reflexivity.
  - unfold maxTime, jan_1_2024. lia.
  - unfold msPerDay. lia.
  - unfold maxTime, jan_1_2024, msPerDay. lia.
  - unfold maxTime, jan_1_2024. lia.
  - unfold maxTime, jan_1_2024, msPerDay. lia.
Defined.

(** X4: a daily recurrence without [recurrence_until] runs to [start] plus
    30 days: in an exact zone it has exactly 31 instances, one per day. *)
Theorem daily_default_thirty_one tz s end_ :
  calendarExact tz ->
  - maxTime <= s -> s + 30 * msPerDay <= maxTime ->
  untilOf tz (Some (Some s)) "daily" None = Some (Some (s + 30 * msPerDay))
  /\ exists l,
       expand tz (Some (Some s)) end_ "daily" None = Some l
       /\ length l = 31%nat
       /\ map inst_start l
          = map (fun k => Some (s + Z.of_nat k * 1 * msPerDay)) (seq 0 31).
Proof.
  intros Hexact Hlo Hhi.
  assert (Huntil : untilOf tz (Some (Some s)) "daily" None
                   = Some (Some (s + 30 * msPerDay))).
  { change (untilOf tz (Some (Some s)) "daily" None)
      with (Some (addDays tz (Some (Some s)) 30)).
    rewrite (addDays_exact tz Hexact).
    rewrite TimeClip_in_range; [reflexivity|]. unfold msPerDay, maxTime in *. lia. }
  split; [exact Huntil|].
  assert (Hsame : expand tz (Some (Some s)) end_ "daily" None
                  = expand tz (Some (Some s)) end_ "daily"
                      (Some (Some (s + 30 * msPerDay)))).
  { unfold expand. rewrite Huntil. reflexivity. }
  rewrite Hsame.
  rewrite (expand_exact tz "daily" 1 s (s + 30 * msPerDay) end_ Hexact eq_refl Hlo
             ltac:(unfold msPerDay; lia) Hhi).
  assert (Hcount : expectedCount s (s + 30 * msPerDay) 1 = 31%nat).
  { unfold expectedCount. replace (s + 30 * msPerDay - s) with (30 * msPerDay) by lia.
    reflexivity. }
  rewrite Hcount. eexists. split; [reflexivity|].
  rewrite length_map, length_seq, map_map. split; reflexivity.
Qed.

Lemma daily_default_thirty_one_witness :
  untilOf utcZone (Some (Some jan_1_2024)) "daily" None
    = Some (Some (jan_1_2024 + 30 * msPerDay))
  /\ exists l,
       expand utcZone (Some (Some jan_1_2024)) None "daily" None = Some l
       /\ length l = 31%nat
       /\ map inst_start l
          = map (fun k => Some (jan_1_2024 + Z.of_nat k * 1 * msPerDay)) (seq 0 31).
Proof.
  apply (daily_default_thirty_one utcZone jan_1_2024 None).
  - exact utcZone_exact.
  - unfold maxTime, jan_1_2024. lia.
  - unfold maxTime, jan_1_2024, msPerDay. lia.
Defined.

End ExpandMore.


(** ** Rows written by the handlers *)

Module CreationFacts.
Import JsDate JsString Sql Adapter Recurrence Handlers RecurrenceFacts ExpandMore.

(** The row [insertEvent] stores for an event under a given id. *)
Definition newRow (id : Z) (ev : event) : row :=
  {| r_id := id;
     r_name := ev_name ev;
     r_type := ev_type ev;
     r_description := orNullValue (ev_description ev);
     r_address_name := orNullValue (ev_address_name ev);
     r_address := orNullValue (ev_address ev);
     r_location :=
       match ev_lat ev, ev_lon ev with
       | Some la, Some lo => Some {| pt_x := lo; pt_y := la |}
       | _, _ => None
       end;
     r_start_time := ev_start_time ev;
     r_end_time := orNullValue (ev_end_time ev) |}.

(** The rows of a list of events inserted one after the other from [id]. *)
Fixpoint freshRows (id : Z) (evs : list event) : list row :=
  match evs with
  | [] => []
  | ev :: evs' => newRow id ev :: freshRows (id + 1) evs'
  end.

Lemma freshRows_length evs : forall id, length (freshRows id evs) = length evs.
Proof. induction evs as [|ev evs IH]; intros id; simpl; [reflexivity|]. now rewrite IH. Qed.

Lemma insertEvent_newRow ev st :
  insertEvent ev st
  = (nextId st, {| rows := rows st ++ [newRow (nextId st) ev];
                   nextId := nextId st + 1 |}).
Proof.
  unfold insertEvent, execInsert, insertStatement, newRow.
  destruct (ev_lat ev), (ev_lon ev); reflexivity.
Qed.

Lemma insertAll_from (mk : instance -> event) (instances : list instance) :
  forall ids st,
  fold_left (fun acc inst =>
               let '(id, st') := insertEvent (mk inst) (snd acc) in
               (fst acc ++ [id], st'))
            instances (ids, st)
  = (ids ++ map r_id (freshRows (nextId st) (map mk instances)),
     {| rows := rows st ++ freshRows (nextId st) (map mk instances);
        nextId := nextId st + Z.of_nat (length instances) |}).
Proof.
  induction instances as [|inst instances IH]; intros ids st.
  - simpl. rewrite !app_nil_r, Z.add_0_r. now destruct st.
  - cbn [fold_left snd fst]. rewrite insertEvent_newRow, IH.
    cbn [rows nextId map freshRows]. rewrite <- !app_assoc. cbn [app r_id newRow].
    change (length (inst :: instances)) with (S (length instances)).
    f_equal. f_equal. lia.
Qed.

Lemma insertAll_rows (mk : instance -> event) (instances : list instance) st :
  insertAll mk instances st
  = (map r_id (freshRows (nextId st) (map mk instances)),
     {| rows := rows st ++ freshRows (nextId st) (map mk instances);
        nextId := nextId st + Z.of_nat (length instances) |}).
Proof. unfold insertAll. now rewrite insertAll_from. Qed.

(** X5: [insertEvent] adds one row after the rows of the table and
    returns its id.  The row holds [name], [type] and [start_time] as they
    were given, NULL for a [description], [address_name], [address] or
    [end_time] that is absent or empty, and the point of ([lon], [lat]) or
    NULL for the location; no earlier row changes. *)
Theorem insertEvent_stores_row ev st :
  exists r,
    insertEvent ev st
    = (r_id r, {| rows := rows st ++ [r]; nextId := nextId st + 1 |})
    /\ r_id r = nextId st
    /\ r_name r = ev_name ev /\ r_type r = ev_type ev
    /\ r_start_time r = ev_start_time ev
    /\ r_description r = orNullValue (ev_description ev)
    /\ r_address_name r = orNullValue (ev_address_name ev)
    /\ r_address r = orNullValue (ev_address ev)
    /\ r_end_time r = orNullValue (ev_end_time ev)
    /\ orNullValue VNull = VNull
    /\ (forall s, orNullValue (VText s) = if String.eqb s "" then VNull else VText s)
    /\ (forall d, orNullValue (VDate d) = VDate d).
Proof.
  exists (newRow (nextId st) ev). rewrite insertEvent_newRow.
  repeat (split; [reflexivity|]).
  split; [|reflexivity]. intros s. now destruct s.
Qed.

Lemma orNullValue_ofString v : orNullValue (ofString v) = ofString (orNull v).
Proof. destruct v as [[|c s]|]; reflexivity. Qed.

Lemma orNullValue_ofDate v : orNullValue (ofDate v) = ofDate v.
Proof. destruct v; reflexivity. Qed.

(** The three required fields of a body are present and non-empty. *)
Definition postComplete (b : postBody) : bool :=
  truthyOpt (post_name b) && truthyOpt (post_type b) && truthyOpt (post_start_time b).

(** The recurrence of a body, [none] when the field is undefined. *)
Definition recurrenceOf (b : postBody) : string :=
  match post_recurrence b with
  | Some r => r
  | None => "none"
  end.

(** The instances POST /admin/events expands a body into. *)
Definition instancesOf (h : Host) (b : postBody) : option (list instance) :=
  expandRecord h (post_start_time b) (post_end_time b) (recurrenceOf b)
    (post_recurrence_until b).

(** The row POST /admin/events stores for one instance. *)
Definition postedRow (b : postBody) (geo : Geo.coords) (id : Z) (inst : instance) : row :=
  {| r_id := id;
     r_name := ofString (post_name b);
     r_type := ofString (post_type b);
     r_description := ofString (orNull (post_description b));
     r_address_name := ofString (orNull (post_address_name b));
     r_address := ofString (orNull (post_address b));
     r_location :=
       match Geo.lat geo, Geo.lon geo with
       | Some la, Some lo => Some {| pt_x := lo; pt_y := la |}
       | _, _ => None
       end;
     r_start_time := VDate (inst_start inst);
     r_end_time := ofDate (inst_end inst) |}.

(** One row per instance, with ids counting up from [id]. *)
Fixpoint postedRows (b : postBody) (geo : Geo.coords) (id : Z)
    (instances : list instance) : list row :=
  match instances with
  | [] => []
  | inst :: instances' => postedRow b geo id inst :: postedRows b geo (id + 1) instances'
  end.

Lemma postedRows_length b geo instances : forall id,
  length (postedRows b geo id instances) = length instances.
Proof.
  induction instances as [|i l IH]; intros id; simpl; [reflexivity|]. now rewrite IH.
Qed.

Lemma postedRows_fresh b geo instances : forall id,
  freshRows id
    (map (fun inst =>
            {| ev_name := ofString (post_name b); ev_type := ofString (post_type b);
               ev_description := ofString (post_description b);
               ev_address_name := ofString (post_address_name b);
               ev_address := ofString (post_address b);
               ev_lat := Geo.lat geo; ev_lon := Geo.lon geo;
               ev_start_time := VDate (inst_start inst);
               ev_end_time := ofDate (inst_end inst) |}) instances)
  = postedRows b geo id instances.
Proof.
  induction instances as [|i l IH]; intros id; [reflexivity|].
  cbn [map freshRows postedRows]. rewrite IH. f_equal.
  unfold newRow, postedRow. cbn.
  now rewrite !orNullValue_ofString, orNullValue_ofDate.
Qed.

(** The three ways POST /admin/events ends. *)
Lemma postEvent_cases h b st :
  (postComplete b = false
   /\ postEvent h b st = Some (BadRequest "name, type, start_time are required", st))
  \/ (postComplete b = true
      /\ Geo.geocodeIfNeeded h (post_address b) (post_lat b) (post_lon b) = None
      /\ postEvent h b st = Some (ServerError, st))
  \/ (exists geo instances,
        postComplete b = true
        /\ Geo.geocodeIfNeeded h (post_address b) (post_lat b) (post_lon b) = Some geo
        /\ instancesOf h b = Some instances
        /\ postEvent h b st
           = Some (Created (length instances)
                     (map r_id (postedRows b geo (nextId st) instances)),
                   {| rows := rows st ++ postedRows b geo (nextId st) instances;
                      nextId := nextId st + Z.of_nat (length instances) |})).
Proof.
  unfold postEvent, postComplete.
  destruct (truthyOpt (post_name b)); [|left; split; reflexivity].
  destruct (truthyOpt (post_type b)); [|left; split; reflexivity].
  destruct (truthyOpt (post_start_time b)); [|left; split; reflexivity].
  right. cbn [negb orb andb].
  destruct (Geo.geocodeIfNeeded h (post_address b) (post_lat b) (post_lon b)) as [geo|];
    [right|left; repeat split].
  destruct (ImportFacts.expandRecord_total h (post_start_time b) (post_end_time b)
              (recurrenceOf b) (post_recurrence_until b)) as [instances Hinst].
  exists geo, instances. unfold instancesOf. fold (recurrenceOf b). rewrite Hinst.
  repeat (split; [reflexivity|]).
  rewrite insertAll_rows, postedRows_fresh.
  now rewrite length_map, postedRows_length.
Qed.

(** X6: POST /admin/events answers 400 exactly when [name], [type] or
    [start_time] is absent or empty, and a 400 leaves the table as it was;
    with the three fields present, a failed geocoding lookup is answered
    500, also with the table as it was.  Both answers are given before the
    first INSERT is sent. *)
Theorem post_errors_leave_table h b st :
  (postComplete b = false ->
   postEvent h b st = Some (BadRequest "name, type, start_time are required", st))
  /\ (postComplete b = true ->
      Geo.geocodeIfNeeded h (post_address b) (post_lat b) (post_lon b) = None ->
      postEvent h b st = Some (ServerError, st))
  /\ (forall resp st',
        postEvent h b st = Some (resp, st') ->
        (resp = BadRequest "name, type, start_time are required"
         <-> postComplete b = false)
        /\ (forall msg, resp = BadRequest msg -> st' = st)).
Proof.
  destruct (postEvent_cases h b st)
    as [[Hc E]|[[Hc [Hgeo E]]|[geo [instances [Hc [Hgeo [Hinst E]]]]]]];
    rewrite E, Hc.
  - split; [reflexivity|]. split; [discriminate|].
    intros resp st' Hrun. inversion Hrun; subst. tauto.
  - split; [discriminate|]. split; [reflexivity|].
    intros resp st' Hrun. inversion Hrun; subst.
    split; [split; discriminate|discriminate].
  - split; [discriminate|]. split; [intros _ Hnone; congruence|].
    intros resp st' Hrun. inversion Hrun; subst.
    split; [split; discriminate|discriminate].
Qed.

(** A body without [start_time]. *)
Definition noStartTime : postBody :=
  {| post_name := Some "Trivia Night"; post_type := Some "Trivia";
     post_description := None; post_address_name := None;
     post_address := Some "Charlotte, NC"; post_lat := None; post_lon := None;
     post_start_time := Some ""; post_end_time := None;
     post_recurrence := Some "weekly"; post_recurrence_until := None |}.

Lemma post_errors_leave_table_witness :
  postComplete noStartTime = false
  /\ postEvent Samples.sampleHost noStartTime ImportFacts.emptyStore
     = Some (BadRequest "name, type, start_time are required", ImportFacts.emptyStore).
Proof.
  split; [reflexivity|].
  destruct (post_errors_leave_table Samples.sampleHost noStartTime ImportFacts.emptyStore)
    as (Hbad & _).
  exact (Hbad eq_refl).
Defined.

Lemma postedRows_common b geo instances : forall id r,
  In r (postedRows b geo id instances) ->
  r_name r = ofString (post_name b)
  /\ r_type r = ofString (post_type b)
  /\ r_description r = ofString (orNull (post_description b))
  /\ r_address_name r = ofString (orNull (post_address_name b))
  /\ r_address r = ofString (orNull (post_address b))
  /\ r_location r = match Geo.lat geo, Geo.lon geo with
                    | Some la, Some lo => Some {| pt_x := lo; pt_y := la |}
                    | _, _ => None
                    end.
Proof.
  induction instances as [|i l IH]; intros id r Hin; [destruct Hin|].
  destruct Hin as [E|Hin]; [subst r; repeat split|now apply (IH (id + 1))].
Qed.

Lemma postedRows_times b geo instances : forall id,
  map r_start_time (postedRows b geo id instances)
  = map (fun inst => VDate (inst_start inst)) instances
  /\ map r_end_time (postedRows b geo id instances)
     = map (fun inst => ofDate (inst_end inst)) instances.
Proof.
  induction instances as [|i l IH]; intros id; [split; reflexivity|].
  destruct (IH (id + 1)) as [E1 E2]. cbn [postedRows map]. rewrite E1, E2.
  split; reflexivity.
Qed.

(** X7: a complete body whose coordinates resolve is stored as one row per
    instance of its expansion, after the rows of the table.  The answer
    counts the rows and lists their ids in order; the rows share name,
    type, description, address_name, address and location, and take
    [start_time] and [end_time] from their instances; there are at most 201
    of them. *)
Theorem post_one_row_per_instance h b st geo :
  postComplete b = true ->
  Geo.geocodeIfNeeded h (post_address b) (post_lat b) (post_lon b) = Some geo ->
  exists instances new,
    instancesOf h b = Some instances
    /\ postEvent h b st
       = Some (Created (length new) (map r_id new),
               {| rows := rows st ++ new;
                  nextId := nextId st + Z.of_nat (length new) |})
    /\ length new = length instances
    /\ (length new <= 201)%nat
    /\ map r_start_time new = map (fun inst => VDate (inst_start inst)) instances
    /\ map r_end_time new = map (fun inst => ofDate (inst_end inst)) instances
    /\ (forall r, In r new ->
          r_name r = ofString (post_name b)
          /\ r_type r = ofString (post_type b)
          /\ r_description r = ofString (orNull (post_description b))
          /\ r_address_name r = ofString (orNull (post_address_name b))
          /\ r_address r = ofString (orNull (post_address b))
          /\ r_location r = match Geo.lat geo, Geo.lon geo with
                            | Some la, Some lo => Some {| pt_x := lo; pt_y := la |}
                            | _, _ => None
                            end).
Proof.
  intros Hcomplete Hgeo.
  destruct (postEvent_cases h b st)
    as [[Hc _]|[[_ [Hnone _]]|[geo' [instances [_ [Hgeo' [Hinst E]]]]]]];
    [congruence|congruence|].
  assert (geo' = geo) by congruence. subst geo'.
  exists instances, (postedRows b geo (nextId st) instances).
  split; [exact Hinst|]. rewrite postedRows_length.
  split; [exact E|]. split; [reflexivity|].
  split.
  { unfold instancesOf, expandRecord in Hinst.
    match type of Hinst with
    | expand ?tz ?s ?e ?r ?u = _ =>
        destruct (expand_total tz s e r u) as [l [Hl Hlen]]
    end.
    rewrite Hl in Hinst. inversion Hinst; subst. exact Hlen. }
  split; [apply postedRows_times|]. split; [apply postedRows_times|].
  apply postedRows_common.
Qed.

Lemma post_one_row_per_instance_witness :
  exists instances new,
    instancesOf Samples.sampleHost PostFacts.weeklyTrivia = Some instances
    /\ postEvent Samples.sampleHost PostFacts.weeklyTrivia ImportFacts.emptyStore
       = Some (Created (length new) (map r_id new),
               {| rows := rows ImportFacts.emptyStore ++ new;
                  nextId := nextId ImportFacts.emptyStore + Z.of_nat (length new) |})
    /\ length new = length instances.
Proof.
  destruct (post_one_row_per_instance Samples.sampleHost PostFacts.weeklyTrivia
              ImportFacts.emptyStore
              {| Geo.lat := Some (Samples.decimalFloat "35.2271");
                 Geo.lon := Some (Samples.decimalFloat "-80.8431") |}
              eq_refl eq_refl)
    as [instances [new [H1 [H2 [H3 _]]]]].
  exists instances, new. auto.
Defined.

(** X8: explicit coordinates in the body are stored as they are, whatever
    the address and whether or not the geocoder can be reached: every row
    created has the point of ([lon], [lat]) as its location. *)
Theorem post_explicit_coordinates h b st la lo :
  postComplete b = true ->
  post_lat b = Some la -> post_lon b = Some lo ->
  exists new,
    postEvent h b st
    = Some (Created (length new) (map r_id new),
            {| rows := rows st ++ new; nextId := nextId st + Z.of_nat (length new) |})
    /\ forall r, In r new -> r_location r = Some {| pt_x := lo; pt_y := la |}.
Proof.
  intros Hcomplete Hla Hlo.
  assert (Hgeo : Geo.geocodeIfNeeded h (post_address b) (post_lat b) (post_lon b)
                 = Some {| Geo.lat := Some la; Geo.lon := Some lo |})
    by (rewrite Hla, Hlo; reflexivity).
  destruct (postEvent_cases h b st)
    as [[Hc _]|[[_ [Hnone _]]|[geo [instances [_ [Hgeo' [_ E]]]]]]];
    [congruence|congruence|].
  assert (geo = {| Geo.lat := Some la; Geo.lon := Some lo |}) by congruence. subst geo.
  exists (postedRows b {| Geo.lat := Some la; Geo.lon := Some lo |} (nextId st) instances).
  rewrite postedRows_length. split; [exact E|].
  intros r Hr. now destruct (postedRows_common _ _ _ _ _ Hr) as [_ [_ [_ [_ [_ Hloc]]]]].
Qed.

(** A host whose geocoder cannot be reached. *)
Definition offlineHost : Host :=
  {| hostZone := JsDate.utcZone;
     parseDate := parseDate Samples.sampleHost;
     parseFloat := parseFloat Samples.sampleHost;
     nominatim := fun _ => None |}.

(** An event at explicit coordinates. *)
Definition pinnedTrivia : postBody :=
  {| post_name := Some "Trivia Night"; post_type := Some "Trivia";
     post_description := None; post_address_name := None;
     post_address := Some "Charlotte, NC";
     post_lat := Some 35.25%float; post_lon := Some (-80.75)%float;
     post_start_time := Some "2024-01-01T19:00:00"; post_end_time := None;
     post_recurrence := None; post_recurrence_until := None |}.

Lemma post_explicit_coordinates_witness :
  exists new,
    postEvent offlineHost pinnedTrivia ImportFacts.emptyStore
    = Some (Created (length new) (map r_id new),
            {| rows := rows ImportFacts.emptyStore ++ new;
               nextId := nextId ImportFacts.emptyStore + Z.of_nat (length new) |})
    /\ forall r, In r new ->
         r_location r = Some {| pt_x := (-80.75)%float; pt_y := 35.25%float |}.
Proof.
  apply (post_explicit_coordinates offlineHost pinnedTrivia ImportFacts.emptyStore
           35.25%float (-80.75)%float); reflexivity.
Defined.

Lemma expand_invalid_start tz end_ recurrence recurrence_until n :
  stepDays recurrence = Some n ->
  expand tz (Some None) end_ recurrence recurrence_until = Some [].
Proof.
  intros Hstep. unfold expand, expandWith.
  rewrite (stepOf_stepDays tz _ _ Hstep). cbn [newDate].
  unfold loopFuel. apply recurrenceLoop_stop. reflexivity.
Qed.

Lemma store_eta (st : store) :
  {| rows := rows st ++ []; nextId := nextId st + Z.of_nat 0 |} = st.
Proof. destruct st. cbn. now rewrite app_nil_r, Z.add_0_r. Qed.

(** X9: when [start_time] is not a date the [Date] constructor can read
    and the recurrence is [daily] or [weekly], the loop test fails at once:
    the request is answered as a success with [inserted: 0] and no row is
    written. *)
Theorem post_invalid_start_inserts_nothing h b st s n geo :
  postComplete b = true ->
  post_start_time b = Some s ->
  parseDate h s = None ->
  stepDays (recurrenceOf b) = Some n ->
  Geo.geocodeIfNeeded h (post_address b) (post_lat b) (post_lon b) = Some geo ->
  postEvent h b st = Some (Created 0 [], st).
Proof.
  intros Hcomplete Hs Hnan Hstep Hgeo.
  assert (Htruthy : truthyOpt (post_start_time b) = true).
  { unfold postComplete in Hcomplete.
    apply andb_true_iff in Hcomplete. tauto. }
  assert (Hinst : instancesOf h b = Some []).
  { unfold instancesOf, expandRecord, toTimestamp at 1, orNull.
    rewrite Htruthy, Hs, Hnan. now apply (expand_invalid_start _ _ _ _ n). }
  destruct (postEvent_cases h b st)
    as [[Hc _]|[[_ [Hnone _]]|[geo' [instances [_ [_ [Hinst' E]]]]]]];
    [congruence|congruence|].
  assert (instances = []) by congruence. subst instances.
  rewrite E. cbn [postedRows map length]. now rewrite store_eta.
Qed.

(** A daily event "from next friday". *)
Definition fromNextFriday : postBody :=
  {| post_name := Some "Happy Hour"; post_type := Some "Drink Deals";
     post_description := None; post_address_name := None;
     post_address := None; post_lat := None; post_lon := None;
     post_start_time := Some "next friday"; post_end_time := None;
     post_recurrence := Some "daily"; post_recurrence_until := None |}.

Lemma post_invalid_start_inserts_nothing_witness :
  postEvent Samples.sampleHost fromNextFriday ImportFacts.emptyStore
  = Some (Created 0 [], ImportFacts.emptyStore).
Proof.
  apply (post_invalid_start_inserts_nothing Samples.sampleHost fromNextFriday
           ImportFacts.emptyStore "next friday" 1
           {| Geo.lat := None; Geo.lon := None |}); reflexivity.
Defined.

Lemma recurrenceLoop_head step until fuel : forall cs ce acc l,
  recurrenceLoop fuel step until cs ce acc = Some l ->
  l = acc \/ exists rest, l = acc ++ {| inst_start := cs; inst_end := ce |} :: rest.
Proof.
  induction fuel as [|fuel IH]; intros cs ce acc l Hrun; simpl in Hrun; [discriminate|].
  destruct (dateLe cs until); [|inversion Hrun; now left].
  right. destruct (200 <? _).
  - inversion Hrun. now exists [].
  - destruct (IH _ _ _ _ Hrun) as [E|[rest E]]; subst l.
    + now exists [].
    + rewrite <- app_assoc. cbn [app]. eauto.
Qed.

(** X10: a record whose [start_time] is absent or empty is not refused by
    the expansion: its start is [new Date(null)], the epoch.  Every
    expansion of it is empty or begins at 1970-01-01T00:00:00Z, and without
    a [daily] or [weekly] recurrence it is the single instance at the
    epoch. *)
Theorem record_without_start_is_at_epoch h start_time end_time recurrence recurrence_until :
  truthyOpt start_time = false ->
  exists l,
    expandRecord h start_time end_time recurrence recurrence_until = Some l
    /\ (forall inst rest, l = inst :: rest ->
          inst_start inst = Some 0 /\ inst_end inst = toTimestamp h end_time)
    /\ (stepDays recurrence = None ->
        l = [{| inst_start := Some 0; inst_end := toTimestamp h end_time |}]).
Proof.
  intros Hfalsy.
  destruct (ImportFacts.expandRecord_total h start_time end_time recurrence
              recurrence_until) as [l Hl].
  exists l. split; [exact Hl|].
  unfold expandRecord, toTimestamp at 1, orNull in Hl. rewrite Hfalsy in Hl.
  unfold expand, expandWith in Hl. rewrite ExpandSpec.copy_end in Hl. cbn [newDate] in Hl.
  split.
  - intros inst rest E. subst l.
    destruct (stepOf (hostZone h) recurrence) as [step|].
    + apply recurrenceLoop_head in Hl. destruct Hl as [Hl|[rest' Hl]]; [discriminate|].
      cbn [app] in Hl. inversion Hl. split; reflexivity.
    + inversion Hl. split; reflexivity.
  - intros Hnone. rewrite (stepDays_none _ _ Hnone) in Hl. now inversion Hl.
Qed.

Lemma record_without_start_is_at_epoch_witness :
  exists l,
    expandRecord Samples.sampleHost (Some "") None "none" None = Some l
    /\ (forall inst rest, l = inst :: rest ->
          inst_start inst = Some 0
          /\ inst_end inst = toTimestamp Samples.sampleHost None)
    /\ (stepDays "none" = None ->
        l = [{| inst_start := Some 0;
                inst_end := toTimestamp Samples.sampleHost None |}]).
Proof.
  apply (record_without_start_is_at_epoch Samples.sampleHost (Some "") None "none" None).
  reflexivity.
Defined.

End CreationFacts.


(** ** The admin gate and the DELETE route *)

Module AdminRoutes.
Import JsString Sql Handlers.

(** What [requireAdmin] does with a request. *)
Inductive gate :=
| NotConfigured     (* 500 { error: "ADMIN_TOKEN not set on server" } *)
| Unauthorized      (* 401 { error: "Unauthorized" } *)
| Next.             (* next() *)

(** [requireAdmin(req, res, next)]: [adminToken] is [process.env.ADMIN_TOKEN]
    and [token] the header [x-admin-token], each a string or [undefined]. *)
Definition requireAdmin (adminToken token : option string) : gate :=
  if negb (truthyOpt adminToken) then NotConfigured
  else
    match token, adminToken with
    | Some t, Some a => if String.eqb t a then Next else Unauthorized
    | None, None => Next
    | _, _ => Unauthorized
    end.

(** A route registered behind [requireAdmin]: the handler runs on [next()]. *)
Definition behindAdmin {A : Type} (adminToken token : option string)
    (handler : store -> A * store) (st : store) : (gate * option A) * store :=
  match requireAdmin adminToken token with
  | Next => let '(a, st') := handler st in ((Next, Some a), st')
  | refused => ((refused, None), st)
  end.

(** [DELETE FROM events WHERE id=$1] *)
Definition execDelete (pg : Postgres) (params : list value) (st : store) : store :=
  {| rows := filter (fun r => negb (idIs pg (param params 1) r)) (rows st);
     nextId := nextId st |}.

(** DELETE /admin/events/:id.  The answer is [{ success: true }], as for
    PUT; an [:id] the store cannot read as an id makes the statement fail
    and is answered 500. *)
Definition deleteEvent (pg : Postgres) (id : string) (st : store) : response * store :=
  match pgInteger pg id with
  | Some _ => (Updated, execDelete pg [VText id] st)
  | None => (ServerError, st)
  end.

End AdminRoutes.

(** ** Facts on the store routes *)

Module StoreFacts.
Import JsString Sql Adapter Handlers AdminRoutes CreationFacts.

(** X11: the resolver returns coordinates in pairs.  An explicit pair is
    returned as it is, without a lookup; a latitude without a longitude (or
    the reverse) is dropped and the request is resolved as if neither was
    given; without an address that gives no coordinates; and the resolver
    fails only when the lookup of a non-empty address does. *)
Theorem geocode_in_pairs h address lat lon :
  (forall la lo, lat = Some la -> lon = Some lo ->
     Geo.geocodeIfNeeded h address lat lon
     = Some {| Geo.lat := Some la; Geo.lon := Some lo |})
  /\ (lat = None \/ lon = None ->
      Geo.geocodeIfNeeded h address lat lon = Geo.geocodeIfNeeded h address None None)
  /\ (lat = None \/ lon = None -> truthyOpt address = false ->
      Geo.geocodeIfNeeded h address lat lon
      = Some {| Geo.lat := None; Geo.lon := None |})
  /\ (forall geo, Geo.geocodeIfNeeded h address lat lon = Some geo ->
        (Geo.lat geo = None <-> Geo.lon geo = None))
  /\ (Geo.geocodeIfNeeded h address lat lon = None ->
      exists a, address = Some a /\ a <> "" /\ nominatim h a = None).
Proof.
  split; [|split; [|split; [|split]]].
  - intros la lo Hla Hlo. subst. reflexivity.
  - destruct lat, lon; intros [E|E]; try discriminate; reflexivity.
  - intros Hnull Hfalsy. unfold Geo.geocodeIfNeeded.
    destruct address as [a|]; simpl in Hfalsy; [rewrite Hfalsy|];
      destruct lat, lon; destruct Hnull as [E|E]; try discriminate; reflexivity.
  - intros geo Hgeo.
    destruct (AdapterFacts.geocodeIfNeeded_paired h address lat lon geo Hgeo)
      as [[E1 E2]|[la [lo [E1 E2]]]]; rewrite E1, E2; split; congruence.
  - unfold Geo.geocodeIfNeeded. intros Hfail.
    destruct lat, lon; try discriminate;
      (destruct address as [a|]; [|discriminate]);
      (destruct (truthy a) eqn:Ha; [|discriminate]);
      (destruct (nominatim h a) as [[|[x y] ?]|] eqn:Hn; try discriminate);
      exists a; (split; [reflexivity|split; [|exact Hn]]);
      intros ->; discriminate.
Qed.

(** The three required fields of a PUT body are present and non-empty. *)
Definition putComplete (b : putBody) : bool :=
  truthyOpt (put_name b) && truthyOpt (put_type b) && truthyOpt (put_start_time b).

Lemma updateRow_id q r : r_id (updateRow q r) = r_id r.
Proof. reflexivity. Qed.

Lemma execUpdate_ids pg q st :
  map r_id (rows (execUpdate pg q st)) = map r_id (rows st)
  /\ nextId (execUpdate pg q st) = nextId st.
Proof.
  unfold execUpdate. cbn [rows nextId]. split; [|reflexivity].
  rewrite map_map. apply map_ext. intros r.
  now destruct (idIs pg _ r).
Qed.

Lemma putEvent_cases h pg id b st :
  (putComplete b = false
   /\ putEvent h pg id b st
      = (BadRequest "name, type, start_time are required", st))
  \/ (putComplete b = true
      /\ Geo.geocodeIfNeeded h (put_address b) (put_lat b) (put_lon b) = None
      /\ putEvent h pg id b st = (ServerError, st))
  \/ (exists geo,
        putComplete b = true
        /\ Geo.geocodeIfNeeded h (put_address b) (put_lat b) (put_lon b) = Some geo
        /\ putEvent h pg id b st
           = (Updated, execUpdate pg (updateStatement b geo id) st)).
Proof.
  unfold putEvent, putComplete.
  destruct (truthyOpt (put_name b)); [|left; split; reflexivity].
  destruct (truthyOpt (put_type b)); [|left; split; reflexivity].
  destruct (truthyOpt (put_start_time b)); [|left; split; reflexivity].
  right. cbn [negb orb andb].
  destruct (Geo.geocodeIfNeeded h (put_address b) (put_lat b) (put_lon b)) as [geo|];
    [right; exists geo|left]; repeat split.
Qed.

(** X12: PUT /admin/events/:id never adds or removes a row and never
    changes an id; a row whose id is not [:id] is left exactly as it was;
    the answer is 400 exactly when [name], [type] or [start_time] is absent
    or empty; and a 400 or a 500 leaves the whole table untouched. *)
Theorem put_touches_only_its_row h pg id b st :
  map r_id (rows (snd (putEvent h pg id b st))) = map r_id (rows st)
  /\ nextId (snd (putEvent h pg id b st)) = nextId st
  /\ (forall k r, nth_error (rows st) k = Some r ->
        idIs pg (VText id) r = false ->
        nth_error (rows (snd (putEvent h pg id b st))) k = Some r)
  /\ (putComplete b = false
      <-> fst (putEvent h pg id b st)
          = BadRequest "name, type, start_time are required")
  /\ (fst (putEvent h pg id b st) <> Updated -> snd (putEvent h pg id b st) = st).
Proof.
  destruct (putEvent_cases h pg id b st)
    as [[Hc E]|[[Hc [Hgeo E]]|[geo [Hc [Hgeo E]]]]]; rewrite E; cbn [fst snd].
  - repeat split; auto; discriminate.
  - rewrite Hc. repeat split; auto; discriminate.
  - destruct (execUpdate_ids pg (updateStatement b geo id) st) as [Hids Hnext].
    rewrite Hc. split; [exact Hids|]. split; [exact Hnext|].
    split; [|split; [split; discriminate|congruence]].
    intros k r Hk Hother. unfold execUpdate. cbn [rows].
    rewrite nth_error_map, Hk. cbn [option_map].
    now rewrite AdapterFacts.updateStatement_where, Hother.
Qed.

Lemma idIs_cast pg id i r :
  pgInteger pg id = Some i -> idIs pg (VText id) r = (r_id r =? i).
Proof. intros E. unfold idIs. now rewrite E. Qed.

(** X13: DELETE /admin/events/:id, for an [:id] the store reads as [i],
    answers success whether or not a row has that id; it removes every row
    whose id is [i] and keeps the others in their order; without such a row
    the table is unchanged; and a second DELETE of the same id changes
    nothing more. *)
Theorem delete_is_idempotent pg id i st :
  pgInteger pg id = Some i ->
  fst (deleteEvent pg id st) = Updated
  /\ rows (snd (deleteEvent pg id st))
     = filter (fun r => negb (r_id r =? i)) (rows st)
  /\ nextId (snd (deleteEvent pg id st)) = nextId st
  /\ (forall r, In r (rows (snd (deleteEvent pg id st)))
                <-> In r (rows st) /\ r_id r <> i)
  /\ ((forall r, In r (rows st) -> r_id r <> i) -> snd (deleteEvent pg id st) = st)
  /\ deleteEvent pg id (snd (deleteEvent pg id st))
     = (Updated, snd (deleteEvent pg id st)).
Proof.
  intros Hcast. unfold deleteEvent. rewrite Hcast. cbn [fst snd].
  assert (Hexec : forall st0,
            execDelete pg [VText id] st0
            = {| rows := filter (fun r => negb (r_id r =? i)) (rows st0);
                 nextId := nextId st0 |}).
  { intros st0. unfold execDelete. f_equal. cbn [param nth].
    apply filter_ext. intros r. now rewrite (idIs_cast pg id i r Hcast). }
  assert (Hkeep : forall l, (forall r, In r l -> r_id r <> i) ->
                            filter (fun r => negb (r_id r =? i)) l = l).
  { induction l as [|r l IH]; intros Hall; [reflexivity|]. simpl.
    assert (Hr : r_id r <> i) by (apply Hall; now left).
    apply Z.eqb_neq in Hr. rewrite Hr. cbn [negb]. f_equal.
    apply IH. intros r' Hr'. apply Hall. now right. }
  rewrite !Hexec. cbn [rows nextId].
  split; [reflexivity|]. split; [reflexivity|]. split; [reflexivity|].
  split; [|split].
  - intros r. rewrite filter_In, negb_true_iff, Z.eqb_neq. tauto.
  - intros Hall. rewrite Hkeep by exact Hall. now destruct st.
  - f_equal. f_equal. apply Hkeep. intros r Hr.
    apply filter_In in Hr. destruct Hr as [_ Hr].
    apply negb_true_iff in Hr. now apply Z.eqb_neq.
Qed.

(** Two stored events. *)
Definition twoEvents : store :=
  {| rows := [AdapterFacts.storedTrivia; QueryFacts.eventOfType "karaoke"];
     nextId := 8 |}.

Lemma delete_is_idempotent_witness :
  fst (deleteEvent Samples.samplePg "1" twoEvents) = Updated
  /\ rows (snd (deleteEvent Samples.samplePg "1" twoEvents))
     = filter (fun r => negb (r_id r =? 1)) (rows twoEvents)
  /\ nextId (snd (deleteEvent Samples.samplePg "1" twoEvents)) = nextId twoEvents
  /\ (forall r, In r (rows (snd (deleteEvent Samples.samplePg "1" twoEvents)))
                <-> In r (rows twoEvents) /\ r_id r <> 1)
  /\ ((forall r, In r (rows twoEvents) -> r_id r <> 1) ->
      snd (deleteEvent Samples.samplePg "1" twoEvents) = twoEvents)
  /\ deleteEvent Samples.samplePg "1" (snd (deleteEvent Samples.samplePg "1" twoEvents))
     = (Updated, snd (deleteEvent Samples.samplePg "1" twoEvents)).
Proof.
  apply (delete_is_idempotent Samples.samplePg "1" 1 twoEvents). reflexivity.
Defined.

Example delete_removes_the_row :
  rows (snd (deleteEvent Samples.samplePg "1" twoEvents))
  = [QueryFacts.eventOfType "karaoke"]
  /\ snd (deleteEvent Samples.samplePg "42" twoEvents) = twoEvents.
Proof. split; vm_compute; reflexivity. Qed.

(** The copy POST /admin/events/:id/duplicate makes of a row. *)
Definition copyOf (id : Z) (r : row) : row :=
  {| r_id := id;
     r_name := r_name r;
     r_type := r_type r;
     r_description := orNullValue (r_description r);
     r_address_name := orNullValue (r_address_name r);
     r_address := orNullValue (r_address r);
     r_location := r_location r;
     r_start_time := r_start_time r;
     r_end_time := orNullValue (r_end_time r) |}.

(** A column holds no empty text. *)
Definition noEmptyText (v : value) : Prop := v <> VText "".

Lemma orNullValue_column v :
  (exists s, v = VText s) \/ v = VNull \/ (exists d, v = VDate d) ->
  noEmptyText v -> orNullValue v = v.
Proof.
  unfold noEmptyText. intros [[s E]|[E|[d E]]] Hne; subst; try reflexivity.
  destruct s; [congruence|reflexivity].
Qed.

(** X14: duplicating answers 404 and changes nothing when no row has the
    id; otherwise it appends one row under a fresh id that has the name,
    type, start_time and location of the first row with that id (the
    coordinates are reused, not geocoded again) and its description,
    address_name, address and end_time, an empty text among these being
    stored as NULL; the copy reads back with the coordinates of its
    source. *)
Theorem duplicate_copies_row pg id st :
  match find (idIs pg (VText id)) (rows st) with
  | None => duplicateEvent pg id st = (NotFound, st)
  | Some r =>
      duplicateEvent pg id st
      = (Duplicated (nextId st),
         {| rows := rows st ++ [copyOf (nextId st) r]; nextId := nextId st + 1 |})
      /\ o_lon (selectRow (copyOf (nextId st) r)) = o_lon (selectRow r)
      /\ o_lat (selectRow (copyOf (nextId st) r)) = o_lat (selectRow r)
      /\ (r_description r <> VText "" -> r_address_name r <> VText "" ->
          r_address r <> VText "" -> r_end_time r <> VText "" ->
          (forall v, In v [r_description r; r_address_name r; r_address r; r_end_time r] ->
             (exists s, v = VText s) \/ v = VNull \/ (exists d, v = VDate d)) ->
          copyOf (nextId st) r
          = {| r_id := nextId st; r_name := r_name r; r_type := r_type r;
               r_description := r_description r;
               r_address_name := r_address_name r; r_address := r_address r;
               r_location := r_location r; r_start_time := r_start_time r;
               r_end_time := r_end_time r |})
  end.
Proof.
  unfold duplicateEvent.
  assert (Hfind : forall (f : row -> bool) l,
            match find f l with
            | None => filter f l = []
            | Some r => exists others, filter f l = r :: others
            end).
  { intros f. induction l as [|x l IH]; [reflexivity|]. cbn [find filter].
    destruct (f x); [eauto|exact IH]. }
  specialize (Hfind (idIs pg (VText id)) (rows st)).
  destruct (find (idIs pg (VText id)) (rows st)) as [r|].
  - destruct Hfind as [others Hfilter]. rewrite Hfilter.
    rewrite insertEvent_newRow. split; [|split; [|split]].
    + f_equal. f_equal. f_equal. unfold newRow, copyOf, selectRow, ST_X, ST_Y.
      cbn. destruct (r_location r) as [[x y]|]; reflexivity.
    + reflexivity.
    + reflexivity.
    + intros H1 H2 H3 H4 Hshape. unfold copyOf.
      rewrite !orNullValue_column; try assumption; try reflexivity;
        apply Hshape; simpl; auto.
  - now rewrite Hfind.
Qed.

Example duplicate_trivia :
  duplicateEvent Samples.samplePg "1" twoEvents
  = (Duplicated 8,
     {| rows := rows twoEvents ++ [copyOf 8 AdapterFacts.storedTrivia]; nextId := 9 |})
  /\ duplicateEvent Samples.samplePg "42" twoEvents = (NotFound, twoEvents).
Proof. split; vm_compute; reflexivity. Qed.

(** X15: a route behind [requireAdmin] runs its handler exactly when
    ADMIN_TOKEN is set to a non-empty value and the header [x-admin-token]
    is that value.  When ADMIN_TOKEN is unset or empty every request is
    answered 500, also one without the header; any other request is
    answered 401; and a refused request leaves the table as it was. *)
Theorem admin_gate {A : Type} adminToken token (handler : store -> A * store) st :
  (requireAdmin adminToken token = Next
   <-> exists t, adminToken = Some t /\ t <> "" /\ token = Some t)
  /\ (requireAdmin adminToken token = NotConfigured <-> truthyOpt adminToken = false)
  /\ (requireAdmin adminToken token = Next ->
      behindAdmin adminToken token handler st
      = ((Next, Some (fst (handler st))), snd (handler st)))
  /\ (requireAdmin adminToken token <> Next ->
      behindAdmin adminToken token handler st
      = ((requireAdmin adminToken token, None), st)).
Proof.
  unfold behindAdmin, requireAdmin.
  destruct adminToken as [[|c a]|]; cbn [truthyOpt truthy negb].
  - repeat split; try discriminate; try reflexivity; try congruence.
    + intros [t [E [Hne _]]]. inversion E. congruence.
  - destruct token as [t|].
    + destruct (String.eqb t (String c a)) eqn:E.
      * apply String.eqb_eq in E. subst t.
        repeat split; try discriminate; try congruence.
        -- intros _. exists (String c a). repeat split. discriminate.
        -- intros _. now destruct (handler st).
      * apply String.eqb_neq in E.
        repeat split; try discriminate; try congruence.
        intros [t' [E1 [_ E2]]]. congruence.
    + repeat split; try discriminate; try congruence.
      intros [t' [_ [_ E2]]]. discriminate.
  - repeat split; try discriminate; try reflexivity; try congruence.
    + intros [t [E _]]. discriminate.
Qed.

End StoreFacts.


(** ** Facts on strings *)

Module StringFacts.
Import JsString.

Ltac each_char c := destruct c as [[] [] [] [] [] [] [] []]; reflexivity.

Lemma lowerChar_idem c : lowerChar (lowerChar c) = lowerChar c.
Proof. each_char c. Qed.

Lemma isSpace_lowerChar c : isSpace (lowerChar c) = isSpace c.
Proof. each_char c. Qed.

Lemma comma_lowerChar c : Ascii.eqb (lowerChar c) comma = Ascii.eqb c comma.
Proof. each_char c. Qed.

Lemma toLowerCase_idem s : toLowerCase (toLowerCase s) = toLowerCase s.
Proof. induction s as [|c s IH]; simpl; [reflexivity|]. now rewrite lowerChar_idem, IH. Qed.

Lemma toLowerCase_truthy s : truthy (toLowerCase s) = truthy s.
Proof. destruct s; reflexivity. Qed.

Lemma trimStart_lower s : trimStart (toLowerCase s) = toLowerCase (trimStart s).
Proof.
  induction s as [|c s IH]; [reflexivity|]. simpl.
  rewrite isSpace_lowerChar. destruct (isSpace c); [exact IH|reflexivity].
Qed.

Lemma trimEnd_lower s : trimEnd (toLowerCase s) = toLowerCase (trimEnd s).
Proof.
  induction s as [|c s IH]; [reflexivity|]. simpl. rewrite IH, isSpace_lowerChar.
  destruct (trimEnd s); simpl; [destruct (isSpace c)|]; reflexivity.
Qed.

Lemma trim_lower s : trim (toLowerCase s) = toLowerCase (trim s).
Proof. unfold trim. now rewrite trimStart_lower, trimEnd_lower. Qed.

Lemma split_nonempty sep s : split sep s <> [].
Proof.
  destruct s as [|c s]; simpl; [discriminate|].
  destruct (Ascii.eqb c sep); [discriminate|].
  destruct (split sep s); discriminate.
Qed.

Lemma split_lower s : split comma (toLowerCase s) = map toLowerCase (split comma s).
Proof.
  induction s as [|c s IH]; [reflexivity|]. simpl.
  rewrite comma_lowerChar, IH. destruct (Ascii.eqb c comma); [reflexivity|].
  destruct (split comma s); reflexivity.
Qed.

(** The text does not start with white space. *)
Definition startsClean (s : string) : bool :=
  match s with
  | EmptyString => true
  | String c _ => negb (isSpace c)
  end.

Lemma trimStart_clean s : startsClean (trimStart s) = true.
Proof.
  induction s as [|c s IH]; [reflexivity|]. simpl.
  destruct (isSpace c) eqn:E; [exact IH|]. simpl. now rewrite E.
Qed.

Lemma trimStart_of_clean s : startsClean s = true -> trimStart s = s.
Proof.
  destruct s as [|c s]; [reflexivity|]. simpl. intros H.
  apply negb_true_iff in H. now rewrite H.
Qed.

Lemma trimEnd_clean s : startsClean s = true -> startsClean (trimEnd s) = true.
Proof.
  destruct s as [|c s]; [reflexivity|]. simpl. intros H.
  apply negb_true_iff in H. rewrite H.
  destruct (trimEnd s); simpl; now rewrite H.
Qed.

Lemma trimEnd_cons c r :
  trimEnd (String c r)
  = match trimEnd r with
    | EmptyString => if isSpace c then EmptyString else String c EmptyString
    | r' => String c r'
    end.
Proof. reflexivity. Qed.

Lemma trimEnd_idem s : trimEnd (trimEnd s) = trimEnd s.
Proof.
  induction s as [|c s IH]; [reflexivity|]. simpl.
  destruct (trimEnd s) as [|c' s'] eqn:E.
  - destruct (isSpace c) eqn:Hc; [reflexivity|]. simpl. now rewrite Hc.
  - rewrite (trimEnd_cons c (String c' s')), IH. reflexivity.
Qed.

(** [trim] is idempotent. *)
Lemma trim_idem s : trim (trim s) = trim s.
Proof.
  unfold trim. rewrite (trimStart_of_clean (trimEnd (trimStart s))).
  - apply trimEnd_idem.
  - apply trimEnd_clean, trimStart_clean.
Qed.

(** The character occurs in the text. *)
Fixpoint contains (x : ascii) (s : string) : bool :=
  match s with
  | EmptyString => false
  | String c r => Ascii.eqb c x || contains x r
  end.

Lemma split_pieces_clean sep s : forall p, In p (split sep s) -> contains sep p = false.
Proof.
  induction s as [|c s IH]; intros p Hp; simpl in Hp.
  - destruct Hp as [E|[]]. now subst.
  - destruct (Ascii.eqb c sep) eqn:E.
    + destruct Hp as [Hp|Hp]; [now subst|now apply IH].
    + destruct (split sep s) as [|h t] eqn:Hs.
      * destruct Hp as [Hp|[]]. subst. simpl. now rewrite E.
      * destruct Hp as [Hp|Hp].
        -- subst. simpl. rewrite E. apply IH. now left.
        -- apply IH. now right.
Qed.

Lemma trimStart_contains x s : contains x s = false -> contains x (trimStart s) = false.
Proof.
  induction s as [|c s IH]; [reflexivity|]. simpl. intros H.
  apply orb_false_iff in H. destruct H as [H1 H2].
  destruct (isSpace c); [now apply IH|]. simpl. now rewrite H1, H2.
Qed.

Lemma trimEnd_contains x s : contains x s = false -> contains x (trimEnd s) = false.
Proof.
  induction s as [|c s IH]; [reflexivity|]. simpl. intros H.
  apply orb_false_iff in H. destruct H as [H1 H2]. specialize (IH H2).
  destruct (trimEnd s); simpl.
  - destruct (isSpace c); simpl; [reflexivity|now rewrite H1].
  - simpl in IH. now rewrite H1, IH.
Qed.

Lemma lower_contains_comma s :
  contains comma s = false -> contains comma (toLowerCase s) = false.
Proof.
  induction s as [|c s IH]; [reflexivity|]. simpl. intros H.
  apply orb_false_iff in H. destruct H as [H1 H2].
  now rewrite comma_lowerChar, H1, IH.
Qed.

(** [arr.join(",")] *)
Fixpoint joinComma (arr : list string) : string :=
  match arr with
  | [] => EmptyString
  | [v] => v
  | v :: rest => (v ++ String comma (joinComma rest))%string
  end.

Lemma split_app_comma a b :
  split comma (a ++ String comma b) = split comma a ++ split comma b.
Proof.
  induction a as [|c a IH]; simpl.
  - reflexivity.
  - rewrite IH. destruct (Ascii.eqb c comma); [reflexivity|].
    destruct (split comma a) as [|h t] eqn:E; [|reflexivity].
    now destruct (split_nonempty comma a).
Qed.

(** Splitting a joined array gives the pieces of its elements. *)
Lemma split_joinComma arr :
  arr <> [] -> split comma (joinComma arr) = flat_map (split comma) arr.
Proof.
  induction arr as [|v rest IH]; [congruence|]. intros _.
  destruct rest as [|w rest'].
  - simpl. now rewrite app_nil_r.
  - change (joinComma (v :: w :: rest'))
      with (v ++ String comma (joinComma (w :: rest')))%string.
    rewrite split_app_comma, IH by discriminate. reflexivity.
Qed.

End StringFacts.


(** ** The type filter against the specification's wording *)

Module TypeSpec.
Import JsString Sql Filter TypeFacts QueryFacts StringFacts.

(** *** The type set as the specification words it

    The definitions of this part say what the type set is without going
    through the handler: which values a request supplies, what the
    comma-separated pieces of a value are, what a trimmed piece is, and the
    lower-case form of a text, letter by letter. *)

(** The values a parameter supplies: a string supplies itself; an array
    supplies its strings and the strings of its nested arrays; an absent
    parameter supplies nothing. *)
Definition suppliedBy (p : qparam) (v : string) : Prop :=
  match p with
  | QAbsent => False
  | QStr s => v = s
  | QArr items =>
      exists item, In item items
                   /\ match item with
                      | IStr s => v = s
                      | IArr l => In v l
                      end
  end.

(** The values a request supplies through [types], [type] and [types[]]. *)
Definition supplied (q : query) (v : string) : Prop :=
  suppliedBy (q_types q) v \/ suppliedBy (q_type q) v \/ suppliedBy (q_typesArr q) v.

(** The pieces put together again, with a comma between two of them. *)
Fixpoint commaJoin (pieces : list string) : string :=
  match pieces with
  | [] => EmptyString
  | [p] => p
  | p :: rest => (p ++ String ","%char (commaJoin rest))%string
  end.

(** [pieces] are the comma-separated pieces of [v]: at least one, none with
    a comma in it, and [v] is their join. *)
Definition commaPieces (v : string) (pieces : list string) : Prop :=
  pieces <> []
  /\ commaJoin pieces = v
  /\ forall p, In p pieces -> ~ In ","%char (list_ascii_of_string p).

(** TAB, LF, VT, FF, CR and the space. *)
Definition whiteSpace : list ascii :=
  ["009"; "010"; "011"; "012"; "013"; " "]%char.

Definition allWhite (s : string) : Prop :=
  forall c, In c (list_ascii_of_string s) -> In c whiteSpace.

(** [t] is [p] trimmed: [p] is [t] between two runs of white space, and
    [t] neither starts nor ends with white space. *)
Definition trimmed (p t : string) : Prop :=
  exists a b,
    p = (a ++ t ++ b)%string
    /\ allWhite a /\ allWhite b
    /\ (forall c r, t = String c r -> ~ In c whiteSpace)
    /\ (forall r c, t = (r ++ String c EmptyString)%string -> ~ In c whiteSpace).

(** The letter of [to] at the place [c] has in [from], or [c] itself. *)
Fixpoint letterIn (c : ascii) (from to : string) : ascii :=
  match from, to with
  | String a from', String b to' => if Ascii.eqb c a then b else letterIn c from' to'
  | _, _ => c
  end.

(** The lower-case form of a text: each capital letter replaced by its
    small letter. *)
Fixpoint lowered (s : string) : string :=
  match s with
  | EmptyString => EmptyString
  | String c r =>
      String (letterIn c "ABCDEFGHIJKLMNOPQRSTUVWXYZ" "abcdefghijklmnopqrstuvwxyz")
             (lowered r)
  end.

(** [x] is in the type set of the request: it is the lower-case form of a
    non-empty trimmed piece of a supplied value. *)
Definition inTypeSet (q : query) (x : string) : Prop :=
  exists v pieces p t,
    supplied q v /\ commaPieces v pieces /\ In p pieces
    /\ trimmed p t /\ t <> EmptyString /\ x = lowered t.

(** The row with another type. *)
Definition retyped (r : row) (ty : value) : row :=
  {| r_id := r_id r; r_name := r_name r; r_type := ty;
     r_description := r_description r; r_address_name := r_address_name r;
     r_address := r_address r; r_location := r_location r;
     r_start_time := r_start_time r; r_end_time := r_end_time r |}.

(** *** The handler's functions meet these descriptions *)

Lemma suppliedBy_values p v :
  In v (flat_map itemValues (concatArg p)) <-> suppliedBy p v.
Proof.
  destruct p as [|s|items]; simpl.
  - tauto.
  - intuition congruence.
  - rewrite in_flat_map. split; intros [item [Hin Hv]]; exists item; (split; [exact Hin|]);
      destruct item as [s|l]; simpl in *; intuition congruence.
Qed.

Lemma supplied_values q v : In v (suppliedValues q) <-> supplied q v.
Proof.
  unfold suppliedValues, supplied. now rewrite !in_app_iff, !suppliedBy_values.
Qed.

Lemma lowered_toLowerCase s : lowered s = toLowerCase s.
Proof.
  induction s as [|c s IH]; [reflexivity|]. cbn [lowered toLowerCase]. rewrite IH.
  f_equal. each_char c.
Qed.

Lemma commaJoin_joinComma pieces : commaJoin pieces = joinComma pieces.
Proof.
  induction pieces as [|p rest IH]; [reflexivity|].
  destruct rest as [|p' rest']; [reflexivity|].
  cbn [commaJoin joinComma] in *. now rewrite IH.
Qed.

Lemma contains_In x s : contains x s = true <-> In x (list_ascii_of_string s).
Proof.
  induction s as [|c s IH]; simpl; [intuition discriminate|].
  rewrite orb_true_iff, IH, Ascii.eqb_eq. tauto.
Qed.

Lemma contains_not_In x s : contains x s = false <-> ~ In x (list_ascii_of_string s).
Proof.
  rewrite <- contains_In. destruct (contains x s); intuition congruence.
Qed.

(** Joining the pieces [split] finds gives the text back. *)
Lemma joinComma_split s : joinComma (split comma s) = s.
Proof.
  induction s as [|c s IH]; [reflexivity|]. cbn [split].
  destruct (Ascii.eqb c comma) eqn:E.
  - apply Ascii.eqb_eq in E. subst c.
    destruct (split comma s) as [|h t] eqn:Hs; [now destruct (split_nonempty comma s)|].
    change (joinComma (EmptyString :: h :: t))
      with (String comma (joinComma (h :: t))).
    now rewrite IH.
  - destruct (split comma s) as [|h t] eqn:Hs; [now destruct (split_nonempty comma s)|].
    destruct t as [|h' t'].
    + simpl in *. now rewrite IH.
    + change (joinComma (String c h :: h' :: t'))
        with (String c (h ++ String comma (joinComma (h' :: t'))))%string.
      f_equal. exact IH.
Qed.

(** A text without a comma is its own single piece. *)
Lemma split_clean p : contains comma p = false -> split comma p = [p].
Proof.
  induction p as [|c p IH]; [reflexivity|]. simpl. intros H.
  apply orb_false_iff in H. destruct H as [H1 H2].
  now rewrite H1, IH.
Qed.

Lemma flat_map_split_clean pieces :
  (forall p, In p pieces -> contains comma p = false) ->
  flat_map (split comma) pieces = pieces.
Proof.
  induction pieces as [|p rest IH]; [reflexivity|]. intros H. simpl.
  rewrite split_clean by (apply H; now left).
  rewrite IH by (intros p' Hp'; apply H; now right). reflexivity.
Qed.

(** [split] finds the comma-separated pieces, and they are the only ones. *)
Lemma split_commaPieces v : commaPieces v (split comma v).
Proof.
  split; [apply split_nonempty|]. split.
  - rewrite commaJoin_joinComma. apply joinComma_split.
  - intros p Hp. apply (contains_not_In ","%char p).
    exact (split_pieces_clean comma v p Hp).
Qed.

Lemma commaPieces_unique v pieces : commaPieces v pieces -> split comma v = pieces.
Proof.
  intros (Hne & Hjoin & Hclean). rewrite <- Hjoin, commaJoin_joinComma.
  rewrite split_joinComma by exact Hne.
  apply flat_map_split_clean. intros p Hp.
  apply (contains_not_In ","%char p). now apply Hclean.
Qed.

(** White space, as [trim] tests it. *)
Lemma isSpace_existsb c : isSpace c = existsb (Ascii.eqb c) whiteSpace.
Proof. each_char c. Qed.

Lemma isSpace_white c : isSpace c = true <-> In c whiteSpace.
Proof.
  rewrite isSpace_existsb, existsb_exists. split.
  - intros [x [Hx E]]. apply Ascii.eqb_eq in E. now subst.
  - intros H. exists c. split; [exact H|apply Ascii.eqb_refl].
Qed.

Lemma isSpace_not_white c : isSpace c = false <-> ~ In c whiteSpace.
Proof. rewrite <- isSpace_white. destruct (isSpace c); intuition congruence. Qed.

Fixpoint allSpace (s : string) : bool :=
  match s with
  | EmptyString => true
  | String c r => isSpace c && allSpace r
  end.

Lemma allSpace_allWhite s : allSpace s = true <-> allWhite s.
Proof.
  unfold allWhite. induction s as [|c s IH]; simpl.
  - split; [intros _ c []|reflexivity].
  - rewrite andb_true_iff, IH, isSpace_white. split.
    + intros [Hc Hs] x [E|Hx]; [now subst|now apply Hs].
    + intros H. split; [apply H; now left|]. intros x Hx. apply H. now right.
Qed.

Lemma trimStart_split s :
  exists a, s = (a ++ trimStart s)%string /\ allSpace a = true.
Proof.
  induction s as [|c s [a [Hs Ha]]]; [now exists EmptyString|].
  simpl. destruct (isSpace c) eqn:E.
  - exists (String c a). simpl. rewrite E, Ha, <- Hs. auto.
  - now exists EmptyString.
Qed.

Lemma trimEnd_split s :
  exists b, s = (trimEnd s ++ b)%string /\ allSpace b = true.
Proof.
  induction s as [|c s [b [Hs Hb]]]; [now exists EmptyString|].
  rewrite trimEnd_cons. destruct (trimEnd s) as [|c' s'] eqn:E.
  - simpl in Hs. subst b. destruct (isSpace c) eqn:Ec.
    + exists (String c s). simpl. now rewrite Ec, Hb.
    + exists s. simpl. auto.
  - exists b. split; [|exact Hb]. cbn [append] in *. now rewrite <- Hs.
Qed.

Lemma append_last_empty r c : (r ++ String c EmptyString)%string <> EmptyString.
Proof. destruct r; discriminate. Qed.

(** What [trimEnd] returns does not end with white space. *)
Lemma trimEnd_last s : forall r c,
  trimEnd s = (r ++ String c EmptyString)%string -> isSpace c = false.
Proof.
  induction s as [|c0 s IH]; intros r c H.
  - simpl in H. symmetry in H. now apply append_last_empty in H.
  - rewrite trimEnd_cons in H. destruct (trimEnd s) as [|c1 t1] eqn:E.
    + destruct (isSpace c0) eqn:E0.
      * symmetry in H. now apply append_last_empty in H.
      * destruct r as [|x r']; simpl in H.
        -- inversion H; subst. exact E0.
        -- inversion H as [[Hx Hr]]. symmetry in Hr. now apply append_last_empty in Hr.
    + destruct r as [|x r']; simpl in H; [discriminate|].
      inversion H as [[Hx Hr]]. exact (IH r' c Hr).
Qed.

Lemma startsClean_first s c r : startsClean s = true -> s = String c r -> isSpace c = false.
Proof. intros H ->. simpl in H. now apply negb_true_iff in H. Qed.

(** [trim] gives the trimmed text. *)
Lemma trim_trimmed p : trimmed p (trim p).
Proof.
  destruct (trimStart_split p) as [a [Hp Ha]].
  destruct (trimEnd_split (trimStart p)) as [b [Hs Hb]].
  exists a, b. split; [|split; [|split; [|split]]].
  - unfold trim. now rewrite <- Hs.
  - now apply allSpace_allWhite.
  - now apply allSpace_allWhite.
  - intros c r E. apply isSpace_not_white.
    apply (startsClean_first (trim p) c r); [|exact E].
    apply trimEnd_clean, trimStart_clean.
  - intros r c E. apply isSpace_not_white. exact (trimEnd_last _ r c E).
Qed.

Lemma trimStart_app_white a s : allSpace a = true -> trimStart (a ++ s) = trimStart s.
Proof.
  induction a as [|c a IH]; [reflexivity|]. simpl. intros H.
  apply andb_true_iff in H. destruct H as [Hc Ha]. now rewrite Hc, IH.
Qed.

Lemma trimStart_all_white b : allSpace b = true -> trimStart b = EmptyString.
Proof.
  induction b as [|c b IH]; [reflexivity|]. simpl. intros H.
  apply andb_true_iff in H. destruct H as [Hc Hb]. now rewrite Hc, IH.
Qed.

Lemma trimEnd_all_white b : allSpace b = true -> trimEnd b = EmptyString.
Proof.
  induction b as [|c b IH]; [reflexivity|]. simpl. intros H.
  apply andb_true_iff in H. destruct H as [Hc Hb]. now rewrite IH, Hc.
Qed.

Lemma trimEnd_app_white s b : allSpace b = true -> trimEnd (s ++ b) = trimEnd s.
Proof.
  intros Hb. induction s as [|c s IH]; [now apply trimEnd_all_white|].
  cbn [append]. now rewrite !trimEnd_cons, IH.
Qed.

Lemma trimEnd_of_clean t :
  (forall r c, t = (r ++ String c EmptyString)%string -> isSpace c = false) ->
  trimEnd t = t.
Proof.
  induction t as [|c t IH]; [reflexivity|]. intros H.
  rewrite trimEnd_cons, IH.
  - destruct t as [|c' t']; [|reflexivity].
    now rewrite (H EmptyString c eq_refl).
  - intros r c' E. apply (H (String c r) c'). simpl. now rewrite E.
Qed.

(** The trimmed text is the one [trim] gives. *)
Lemma trimmed_unique p t : trimmed p t -> trim p = t.
Proof.
  intros (a & b & Hp & Ha & Hb & Hstart & Hend).
  apply allSpace_allWhite in Ha, Hb. subst p. unfold trim.
  rewrite trimStart_app_white by exact Ha.
  destruct t as [|c r].
  - simpl. now rewrite trimStart_all_white.
  - assert (Hc : isSpace c = false) by (apply isSpace_not_white; eapply Hstart; reflexivity).
    cbn [append trimStart]. rewrite Hc.
    change (String c (r ++ b))%string with (String c r ++ b)%string.
    rewrite trimEnd_app_white by exact Hb.
    apply trimEnd_of_clean. intros r' c' E. apply isSpace_not_white. eapply Hend. exact E.
Qed.

(** The parsed type list has the members the specification describes. *)
Lemma typesOf_inTypeSet q x : In x (typesOf q) <-> inTypeSet q x.
Proof.
  rewrite typesOf_pipeline, setOf_In, in_map_iff. unfold inTypeSet. split.
  - intros (t & Hx & Ht). apply filter_In in Ht. destruct Ht as [Ht Htruthy].
    apply in_map_iff in Ht. destruct Ht as (p & Hp & Hin).
    apply in_flat_map in Hin. destruct Hin as (v & Hv & Hpv).
    exists v, (split comma v), p, t. subst t.
    split; [now apply supplied_values|].
    split; [apply split_commaPieces|].
    split; [exact Hpv|].
    split; [apply trim_trimmed|].
    split; [intros E; rewrite E in Htruthy; discriminate|].
    now rewrite lowered_toLowerCase.
  - intros (v & pieces & p & t & Hv & Hpieces & Hp & Ht & Hne & Hx).
    apply commaPieces_unique in Hpieces. apply trimmed_unique in Ht.
    exists t. split; [now rewrite <- lowered_toLowerCase|].
    apply filter_In. split; [|destruct t; [congruence|reflexivity]].
    apply in_map_iff. exists p. split; [exact Ht|].
    apply in_flat_map. exists v. split; [now apply supplied_values|].
    now rewrite Hpieces.
Qed.

Lemma dateOk_retyped pg q r ty : dateOk pg q (retyped r ty) = dateOk pg q r.
Proof. reflexivity. Qed.

Lemma radiusOk_retyped h pg q r ty : radiusOk h pg q (retyped r ty) = radiusOk h pg q r.
Proof. reflexivity. Qed.

(** C3: for every request, whatever it supplies through [types], [type]
    and [types[]], the parsed type list has exactly the members the
    specification describes (the lower-case forms of the non-empty trimmed
    comma-separated pieces of the supplied values, described without the
    handler's functions) and holds each once.  A non-empty list is bound as
    the first parameter of [LOWER(type) = ANY($1)]; a row passes that
    conjunct exactly when its type is a text whose lower-case form is a
    member, and it is selected exactly when it passes that and the date and
    radius restrictions.  An empty list adds no type conjunct: whether a
    row is selected does not depend on its type. *)
Theorem type_filter_normalized h pg q r :
  (forall x, In x (typesOf q) <-> inTypeSet q x)
  /\ NoDup (typesOf q)
  /\ (typesOf q <> [] ->
        In (CTypeAny 1) (sel_where (buildQuery h q))
        /\ param (sel_params (buildQuery h q)) 1 = VTextArray (typesOf q)
        /\ (holds pg (sel_params (buildQuery h q)) r (CTypeAny 1) = true
            <-> exists t, r_type r = VText t /\ In (lowered t) (typesOf q))
        /\ (matches pg (buildQuery h q) r = true
            <-> (exists t, r_type r = VText t /\ In (lowered t) (typesOf q))
                /\ dateOk pg q r = true /\ radiusOk h pg q r = true))
  /\ (typesOf q = [] ->
        (forall p, ~ In (CTypeAny p) (sel_where (buildQuery h q)))
        /\ matches pg (buildQuery h q) r = dateOk pg q r && radiusOk h pg q r
        /\ forall ty, matches pg (buildQuery h q) (retyped r ty)
                      = matches pg (buildQuery h q) r)
  /\ (forall x, In x (typesOf q) <-> In x (specTypeSet q))
  /\ matches pg (buildQuery h q) r
     = typeOk (typesOf q) r && dateOk pg q r && radiusOk h pg q r.
Proof.
  destruct (type_filter_clause h pg q r) as (Hspec & Hnodup & Hmatch & Hsome & Hnone).
  split; [intros x; apply typesOf_inTypeSet|].
  split; [exact Hnodup|].
  split; [|split; [|split; [exact Hspec|exact Hmatch]]].
  - intros Hne. destruct (Hsome Hne) as (Hin & Hparam & Hholds & Hmember).
    assert (Hlow : typeOk (typesOf q) r = true
                   <-> exists t, r_type r = VText t /\ In (lowered t) (typesOf q)).
    { rewrite Hmember. split; intros [t [E Ht]]; exists t; (split; [exact E|]);
        unfold LOWER in *; [rewrite lowered_toLowerCase|rewrite <- lowered_toLowerCase];
        exact Ht. }
    split; [exact Hin|]. split; [exact Hparam|]. split.
    + now rewrite Hholds.
    + rewrite Hmatch, !andb_true_iff, Hlow. tauto.
  - intros Hnil. destruct (Hnone Hnil) as [Hok Hno].
    split; [exact Hno|].
    assert (Hall : forall r', matches pg (buildQuery h q) r'
                              = dateOk pg q r' && radiusOk h pg q r').
    { intros r'. rewrite matches_buildQuery, Hnil. reflexivity. }
    split; [apply Hall|].
    intros ty. now rewrite !Hall, dateOk_retyped, radiusOk_retyped.
Qed.

(** The specification's example, [types=Trivia,drink deals]: [drink deals]
    is in the type set, stored [DRINK DEALS] matches and stored [karaoke]
    does not. *)
Lemma type_filter_normalized_witness :
  inTypeSet triviaOrDrinks "drink deals"
  /\ In "drink deals" (typesOf triviaOrDrinks)
  /\ matches Samples.samplePg (buildQuery Samples.sampleHost triviaOrDrinks)
       (eventOfType "DRINK DEALS") = true
  /\ matches Samples.samplePg (buildQuery Samples.sampleHost triviaOrDrinks)
       (eventOfType "karaoke") = false.
Proof.
  assert (Hspec : inTypeSet triviaOrDrinks "drink deals").
  { exists "Trivia,drink deals", ["Trivia"; "drink deals"], "drink deals", "drink deals".
    split; [left; reflexivity|].
    split; [exact (split_commaPieces "Trivia,drink deals")|].
    split; [right; left; reflexivity|].
    split; [exact (trim_trimmed "drink deals")|].
    split; [discriminate|reflexivity]. }
  assert (Hin : In "drink deals" (typesOf triviaOrDrinks)).
  { destruct (type_filter_normalized Samples.sampleHost Samples.samplePg triviaOrDrinks
                (eventOfType "DRINK DEALS")) as (Hset & _).
    apply Hset. exact Hspec. }
  assert (Hne : typesOf triviaOrDrinks <> []).
  { intros E. rewrite E in Hin. destruct Hin. }
  split; [exact Hspec|]. split; [exact Hin|]. split.
  - destruct (type_filter_normalized Samples.sampleHost Samples.samplePg triviaOrDrinks
                (eventOfType "DRINK DEALS")) as (_ & _ & Hsome & _).
    destruct (Hsome Hne) as (_ & _ & _ & Hmatch).
    apply Hmatch. split; [|split; vm_compute; reflexivity].
    exists "DRINK DEALS". split; [reflexivity|exact Hin].
  - destruct (type_filter_normalized Samples.sampleHost Samples.samplePg triviaOrDrinks
                (eventOfType "karaoke")) as (_ & _ & Hsome & _).
    destruct (Hsome Hne) as (_ & _ & _ & Hmatch).
    destruct (matches Samples.samplePg (buildQuery Samples.sampleHost triviaOrDrinks)
                (eventOfType "karaoke")); [|reflexivity].
    destruct Hmatch as [Hmatch _]. destruct (Hmatch eq_refl) as [[t [E Ht]] _].
    inversion E; subst t. vm_compute in Ht. exfalso. intuition discriminate.
Defined.

End TypeSpec.


(** ** The import against the specification's wording *)

Module ImportSpec.
Import JsString Sql Adapter Recurrence Handlers LineFacts ImportFacts.
Import TypeFacts StringFacts TypeSpec.

(** The header line [first] has the column [name]: one of its
    comma-separated pieces, trimmed and in lower case, is [name]. *)
Definition hasColumn (first name : string) : Prop :=
  exists pieces p t,
    commaPieces first pieces /\ In p pieces /\ trimmed p t /\ lowered t = name.

(** A valid header line has the three required columns. *)
Definition validHeader (first : string) : Prop :=
  hasColumn first "name" /\ hasColumn first "type" /\ hasColumn first "start_time".

(** The handler's test for a column agrees with this description. *)
Lemma hasColumn_missing first name :
  hasColumn first name
  <-> missing name (map (fun c => toLowerCase (trim c)) (split comma first)) = false.
Proof.
  unfold missing. rewrite negb_false_iff, existsb_eqb_In, in_map_iff. split.
  - intros (pieces & p & t & Hpieces & Hp & Ht & Hname).
    apply commaPieces_unique in Hpieces. apply trimmed_unique in Ht.
    exists p. split; [|now rewrite Hpieces].
    now rewrite Ht, <- lowered_toLowerCase.
  - intros (p & Hname & Hp).
    exists (split comma first), p, (trim p).
    split; [apply split_commaPieces|]. split; [exact Hp|].
    split; [apply trim_trimmed|]. now rewrite lowered_toLowerCase.
Qed.

(** C10: the import always answers.  It answers 400 [Empty CSV] exactly
    when the body is a run of line breaks (LF or CR LF) and nothing else,
    that is when every line of it is empty, and then leaves the table
    alone.  For a body made of the non-empty lines [lines] with blank lines
    in front, between and after them, the handler keeps exactly [lines], in
    order: with a valid header (one that has the columns name, type and
    start_time) the answer is that of the record loop on the remaining
    lines from a count of 0, the same for every body with these lines, and
    when the header is the only line the answer is
    [{success: true, inserted: 0}] with the table as it was.  An empty line
    (ended by LF or by CR LF) added between two lines, at the start or at
    the end of any body changes nothing in the answer or in the rows
    inserted. *)
Theorem import_skips_blank_lines h csv st :
  (exists res, importCsv h csv st = Some res)
  /\ ((exists st', importCsv h csv st = Some (BadRequest "Empty CSV", st'))
      <-> onlyBreaks csv)
  /\ (onlyBreaks csv -> importCsv h csv st = Some (BadRequest "Empty CSV", st))
  /\ ((exists st', importCsv h csv st = Some (BadRequest "Empty CSV", st'))
      <-> forall l, In l (splitLines csv) -> l = EmptyString)
  /\ (forall lines,
        bodyOf lines csv ->
        filter truthy (splitLines csv) = lines
        /\ (forall csv', bodyOf lines csv' -> importCsv h csv' st = importCsv h csv st)
        /\ (forall first rest,
              lines = first :: rest ->
              validHeader first ->
              importCsv h csv st
              = importLines h (map (fun c => toLowerCase (trim c)) (split comma first))
                  rest 0 st
              /\ (rest = [] -> importCsv h csv st = Some (Imported 0, st))))
  /\ (forall a b,
        importCsv h (a ++ String LF (String LF b)) st
        = importCsv h (a ++ String LF b) st
        /\ importCsv h (a ++ String LF (String CR (String LF b))) st
           = importCsv h (a ++ String LF b) st)
  /\ importCsv h (String LF csv) st = importCsv h csv st
  /\ importCsv h (String CR (String LF csv)) st = importCsv h csv st
  /\ (endsWithCR csv = false ->
      importCsv h (csv ++ String LF EmptyString) st = importCsv h csv st)
  /\ (forall first,
        filter truthy (splitLines csv) = [first] ->
        missing "name" (map (fun c => toLowerCase (trim c)) (split comma first)) = false ->
        missing "type" (map (fun c => toLowerCase (trim c)) (split comma first)) = false ->
        missing "start_time" (map (fun c => toLowerCase (trim c)) (split comma first))
          = false ->
        importCsv h csv st = Some (Imported 0, st)).
Proof.
  split; [apply importCsv_total|].
  split; [rewrite importCsv_empty; apply keptLines_nil_breaks|].
  split; [intros Hb; apply keptLines_nil_breaks in Hb; unfold importCsv;
          unfold keptLines in Hb; now rewrite Hb|].
  split; [rewrite importCsv_empty; apply keptLines_nil|].
  split.
  { intros lines Hbody. pose proof (keptLines_bodyOf lines csv Hbody) as Hk.
    split; [exact Hk|]. split.
    - intros csv' Hbody'. apply importCsv_keptLines.
      rewrite Hk. now apply keptLines_bodyOf.
    - intros first rest -> (Hname & Htype & Hstart).
      apply hasColumn_missing in Hname, Htype, Hstart.
      unfold keptLines in Hk. unfold importCsv. rewrite Hk. cbv zeta.
      rewrite Hname, Htype, Hstart. split; [reflexivity|].
      intros ->. reflexivity. }
  split; [intros a b; split; apply importCsv_keptLines;
          [apply keptLines_blank_LF|apply keptLines_blank_CRLF]|].
  split; [apply importCsv_keptLines, keptLines_leading_LF|].
  split; [apply importCsv_keptLines; reflexivity|].
  split; [intros Hcr; now apply importCsv_keptLines, keptLines_trailing_LF|].
  intros first Hlines Hname Htype Hstart.
  unfold importCsv. rewrite Hlines, Hname, Htype, Hstart. reflexivity.
Qed.

(** The claim on three bodies: line breaks alone are an empty CSV, a
    header alone, between blank lines, imports nothing, and a header
    without blank lines is not an empty CSV. *)
Lemma import_skips_blank_lines_witness :
  onlyBreaks (nl ++ crlf ++ nl)
  /\ importCsv Samples.sampleHost (nl ++ crlf ++ nl) emptyStore
     = Some (BadRequest "Empty CSV", emptyStore)
  /\ bodyOf ["Name, Type ,start_time,recurrence"]
       (crlf ++ "Name, Type ,start_time,recurrence" ++ (nl ++ crlf) ++ "")
  /\ validHeader "Name, Type ,start_time,recurrence"
  /\ importCsv Samples.sampleHost
       (crlf ++ "Name, Type ,start_time,recurrence" ++ (nl ++ crlf) ++ "") emptyStore
     = Some (Imported 0, emptyStore)
  /\ ~ onlyBreaks "name,type,start_time".
Proof.
  assert (Hb : onlyBreaks (nl ++ crlf ++ nl))
    by (apply breaks_LF, breaks_CRLF, breaks_LF, breaks_none).
  assert (Hbody : bodyOf ["Name, Type ,start_time,recurrence"]
                    (crlf ++ "Name, Type ,start_time,recurrence" ++ (nl ++ crlf) ++ "")).
  { apply (body_blank crlf); [apply breaks_CRLF, breaks_none|].
    apply (body_line "Name, Type ,start_time,recurrence" (nl ++ crlf) [] "").
    - apply isLineText_lineText. reflexivity.
    - apply breaks_LF, breaks_CRLF, breaks_none.
    - discriminate.
    - apply body_end, breaks_none. }
  assert (Hvalid : validHeader "Name, Type ,start_time,recurrence").
  { split; [|split].
    - exists ["Name"; " Type "; "start_time"; "recurrence"], "Name", "Name".
      split; [exact (split_commaPieces "Name, Type ,start_time,recurrence")|].
      split; [now left|]. split; [exact (trim_trimmed "Name")|reflexivity].
    - exists ["Name"; " Type "; "start_time"; "recurrence"], " Type ", "Type".
      split; [exact (split_commaPieces "Name, Type ,start_time,recurrence")|].
      split; [right; now left|]. split; [exact (trim_trimmed " Type ")|reflexivity].
    - exists ["Name"; " Type "; "start_time"; "recurrence"], "start_time", "start_time".
      split; [exact (split_commaPieces "Name, Type ,start_time,recurrence")|].
      split; [right; right; now left|].
      split; [exact (trim_trimmed "start_time")|reflexivity]. }
  split; [exact Hb|]. split; [|split; [exact Hbody|split; [exact Hvalid|split]]].
  - destruct (import_skips_blank_lines Samples.sampleHost (nl ++ crlf ++ nl) emptyStore)
      as (_ & _ & Hempty & _).
    exact (Hempty Hb).
  - destruct (import_skips_blank_lines Samples.sampleHost
                (crlf ++ "Name, Type ,start_time,recurrence" ++ (nl ++ crlf) ++ "")
                emptyStore)
      as (_ & _ & _ & _ & Hlines & _).
    destruct (Hlines _ Hbody) as (_ & _ & Hrun).
    destruct (Hrun _ _ eq_refl Hvalid) as [_ Hzero].
    exact (Hzero eq_refl).
  - destruct (import_skips_blank_lines Samples.sampleHost "name,type,start_time" emptyStore)
      as (_ & Hiff & _).
    intros Hb'. apply Hiff in Hb'. destruct Hb' as [st' Hrun].
    vm_compute in Hrun. discriminate.
Defined.

End ImportSpec.


(** ** More on the filter builder *)

Module FilterMore.
Import JsString Sql Adapter Filter TypeFacts QueryFacts StringFacts.

(** X16: every type bound by GET /events is in normal form: it is not
    empty, has no white space at either end, is in lower case and contains
    no comma. *)
Theorem bound_types_are_normal q x :
  In x (typesOf q) ->
  x <> "" /\ trim x = x /\ toLowerCase x = x /\ contains comma x = false.
Proof.
  rewrite typesOf_pipeline, setOf_In, in_map_iff.
  intros [t [Ex Ht]]. apply filter_In in Ht. destruct Ht as [Ht Htruthy].
  apply in_map_iff in Ht. destruct Ht as [p [Et Hp]].
  apply in_flat_map in Hp. destruct Hp as [v [_ Hp]].
  subst x t. split; [|split; [|split]].
  - intros E. rewrite <- toLowerCase_truthy, E in Htruthy. discriminate.
  - now rewrite trim_lower, trim_idem.
  - apply toLowerCase_idem.
  - apply lower_contains_comma. unfold trim.
    apply trimEnd_contains, trimStart_contains.
    now apply (split_pieces_clean comma v).
Qed.

Lemma bound_types_are_normal_witness :
  "drink deals" <> ""
  /\ trim "drink deals" = "drink deals"
  /\ toLowerCase "drink deals" = "drink deals"
  /\ contains comma "drink deals" = false.
Proof.
  apply (bound_types_are_normal triviaOrDrinksRepeated "drink deals").
  vm_compute. auto.
Defined.

(** A query that supplies types through one parameter only. *)
Definition onlyTypes (types type typesArr : qparam) (q : query) : query :=
  {| q_types := types; q_type := type; q_typesArr := typesArr;
     q_lat := q_lat q; q_lng := q_lng q; q_radius := q_radius q;
     q_date := q_date q; q_timeOfDay := q_timeOfDay q |}.

Lemma typesOf_values q q' :
  filter truthy (map trim (flat_map (split comma) (suppliedValues q)))
  = filter truthy (map trim (flat_map (split comma) (suppliedValues q'))) ->
  typesOf q = typesOf q'.
Proof. intros E. now rewrite !typesOf_pipeline, E. Qed.

Lemma buildQuery_types h q q' :
  typesOf q = typesOf q' ->
  q_lat q = q_lat q' -> q_lng q = q_lng q' -> q_radius q = q_radius q' ->
  q_date q = q_date q' -> q_timeOfDay q = q_timeOfDay q' ->
  buildQuery h q = buildQuery h q'.
Proof.
  intros Ht E1 E2 E3 E4 E5. unfold buildQuery, withRadius.
  now rewrite Ht, E1, E2, E3, E4, E5.
Qed.

Lemma flat_map_IStr arr : flat_map itemValues (map IStr arr) = arr.
Proof. induction arr as [|v arr IH]; simpl; [reflexivity|]. now rewrite IH. Qed.

(** X17: the request shapes are interchangeable: [types=a,b,c] (the values
    joined by commas), [type=a&type=b&type=c] and [types[]=a&types[]=b&types[]=c]
    give the same type list and the same statement. *)
Theorem type_shapes_agree h q (arr : list string) :
  typesOf (onlyTypes (QStr (joinComma arr)) QAbsent QAbsent q)
  = typesOf (onlyTypes QAbsent (QArr (map IStr arr)) QAbsent q)
  /\ typesOf (onlyTypes QAbsent (QArr (map IStr arr)) QAbsent q)
     = typesOf (onlyTypes QAbsent QAbsent (QArr (map IStr arr)) q)
  /\ buildQuery h (onlyTypes (QStr (joinComma arr)) QAbsent QAbsent q)
     = buildQuery h (onlyTypes QAbsent (QArr (map IStr arr)) QAbsent q)
  /\ buildQuery h (onlyTypes QAbsent (QArr (map IStr arr)) QAbsent q)
     = buildQuery h (onlyTypes QAbsent QAbsent (QArr (map IStr arr)) q).
Proof.
  assert (H1 : typesOf (onlyTypes (QStr (joinComma arr)) QAbsent QAbsent q)
               = typesOf (onlyTypes QAbsent (QArr (map IStr arr)) QAbsent q)).
  { apply typesOf_values. unfold suppliedValues. cbn [onlyTypes q_types q_type q_typesArr
      concatArg flat_map itemValues app]. rewrite flat_map_IStr, !app_nil_r.
    destruct arr as [|v arr']; [reflexivity|].
    now rewrite split_joinComma by discriminate. }
  assert (H2 : typesOf (onlyTypes QAbsent (QArr (map IStr arr)) QAbsent q)
               = typesOf (onlyTypes QAbsent QAbsent (QArr (map IStr arr)) q)).
  { apply typesOf_values. unfold suppliedValues. cbn [onlyTypes q_types q_type q_typesArr
      concatArg flat_map itemValues app]. now rewrite !app_nil_r. }
  split; [exact H1|]. split; [exact H2|].
  split; apply buildQuery_types; auto.
Qed.

Example shapes_of_two_types :
  typesOf (onlyTypes (QStr "Trivia, Karaoke") QAbsent QAbsent triviaOrDrinks)
  = ["trivia"; "karaoke"]
  /\ typesOf (onlyTypes QAbsent (QArr [IStr "Trivia"; IStr " Karaoke"]) QAbsent
                triviaOrDrinks)
     = ["trivia"; "karaoke"].
Proof. split; vm_compute; reflexivity. Qed.

(** A query whose type values are rewritten by [f]. *)
Definition mapItem (f : string -> string) (item : qitem) : qitem :=
  match item with
  | IStr s => IStr (f s)
  | IArr l => IArr (map f l)
  end.

Definition mapParam (f : string -> string) (v : qparam) : qparam :=
  match v with
  | QAbsent => QAbsent
  | QStr s => QStr (f s)
  | QArr l => QArr (map (mapItem f) l)
  end.

Definition mapTypes (f : string -> string) (q : query) : query :=
  onlyTypes (mapParam f (q_types q)) (mapParam f (q_type q))
            (mapParam f (q_typesArr q)) q.

Lemma itemValues_map f l :
  flat_map itemValues (map (mapItem f) l) = map f (flat_map itemValues l).
Proof.
  induction l as [|item l IH]; [reflexivity|]. simpl. rewrite IH, map_app.
  now destruct item.
Qed.

Lemma concatArg_map f v :
  flat_map itemValues (concatArg (mapParam f v))
  = map f (flat_map itemValues (concatArg v)).
Proof. destruct v as [|s|l]; simpl; [reflexivity|reflexivity|apply itemValues_map]. Qed.

Lemma suppliedValues_map f q :
  suppliedValues (mapTypes f q) = map f (suppliedValues q).
Proof.
  unfold suppliedValues, mapTypes. cbn [onlyTypes q_types q_type q_typesArr].
  now rewrite !concatArg_map, !map_app.
Qed.

Lemma flat_split_lower l :
  flat_map (split comma) (map toLowerCase l)
  = map toLowerCase (flat_map (split comma) l).
Proof.
  induction l as [|v l IH]; [reflexivity|]. simpl.
  now rewrite IH, map_app, split_lower.
Qed.

Lemma filter_truthy_lower l :
  filter truthy (map toLowerCase l) = map toLowerCase (filter truthy l).
Proof.
  induction l as [|v l IH]; [reflexivity|]. simpl.
  rewrite toLowerCase_truthy, IH. now destruct (truthy v).
Qed.

(** A row with another type. *)
Definition withType (t : string) (r : row) : row :=
  {| r_id := r_id r; r_name := r_name r; r_type := VText t;
     r_description := r_description r; r_address_name := r_address_name r;
     r_address := r_address r; r_location := r_location r;
     r_start_time := r_start_time r; r_end_time := r_end_time r |}.

(** X18: letter case never matters to the filter.  Lower-casing the
    requested types gives the same statement; lower-casing [timeOfDay]
    gives the same window; and a stored type is matched by its lower-cased
    form, so two rows whose types differ only in case are both returned or
    both left out. *)
Theorem filter_ignores_case h pg q r d tod t :
  typesOf (mapTypes toLowerCase q) = typesOf q
  /\ buildQuery h (mapTypes toLowerCase q) = buildQuery h q
  /\ boundsFor d (option_map toLowerCase tod) = boundsFor d tod
  /\ matches pg (buildQuery h q) (withType (toLowerCase t) r)
     = matches pg (buildQuery h q) (withType t r).
Proof.
  assert (Htypes : typesOf (mapTypes toLowerCase q) = typesOf q).
  { rewrite !typesOf_pipeline, suppliedValues_map, flat_split_lower.
    rewrite map_map. rewrite (map_ext (fun x => trim (toLowerCase x))
                                (fun x => toLowerCase (trim x)) trim_lower).
    rewrite <- (map_map trim toLowerCase), filter_truthy_lower, map_map.
    now rewrite (map_ext _ _ toLowerCase_idem). }
  split; [exact Htypes|]. split; [now apply buildQuery_types|].
  split.
  - rewrite !boundsFor_bucket. cbv zeta.
    replace (toLowerCase (strOf (option_map toLowerCase tod)))
      with (toLowerCase (strOf tod)); [reflexivity|].
    destruct tod as [s|]; simpl; [now rewrite toLowerCase_idem|reflexivity].
  - rewrite !matches_buildQuery. f_equal. f_equal.
    unfold typeOk, withType, LOWER. cbn [r_type].
    now rewrite toLowerCase_idem.
Qed.

Example upper_case_request :
  buildQuery Samples.sampleHost
    (onlyTypes (QStr "TRIVIA,Drink Deals") QAbsent QAbsent eveningOfJune1)
  = buildQuery Samples.sampleHost
      (onlyTypes (QStr "trivia,drink deals") QAbsent QAbsent eveningOfJune1).
Proof. vm_compute. reflexivity. Qed.

(** The parameter numbers a conjunct reads. *)
Definition placeholders (c : cond) : list nat :=
  match c with
  | CTypeAny p => [p]
  | CStartGe p => [p]
  | CStartLe p => [p]
  | CStartGeNow => []
  | CLocNotNull => []
  | CDWithin px py pr => [px; py; pr]
  end.

(** X19: the statement of GET /events reads each of its parameters exactly
    once: the placeholders of the WHERE clause, in the order they are
    written, are [$1] to [$n] for the [n] parameters bound; and [n] is at
    most 6. *)
Theorem select_binds_what_it_reads h q :
  flat_map placeholders (sel_where (buildQuery h q))
  = seq 1 (length (sel_params (buildQuery h q)))
  /\ (length (sel_params (buildQuery h q)) <= 6)%nat.
Proof. query_cases q; split; try reflexivity; lia. Qed.

(** The parameter numbers a location expression reads. *)
Definition locPlaceholders (e : locExpr) : list nat :=
  match e with
  | LocNull => []
  | LocMakePoint px py => [px; py]
  end.

(** X20: the INSERT and the UPDATE read exactly the parameters they bind.
    The INSERT binds 7 parameters, or 9 with a location, whose expression
    then reads the last two; the UPDATE of the PUT route reads [$1] to
    [$7], the two of the location when it has one, and in its WHERE clause
    the last parameter, which is the [:id] of the route. *)
Theorem statements_bind_what_they_read (ev : event) (b : putBody) geo id :
  ([1; 2; 3; 4; 5; 6; 7] ++ locPlaceholders (ins_location (insertStatement ev))
   = seq 1 (length (ins_params (insertStatement ev))))%nat
  /\ (length (ins_params (insertStatement ev)) = 7
      \/ length (ins_params (insertStatement ev)) = 9)%nat
  /\ ([1; 2; 3; 4; 5; 6; 7]
      ++ match upd_setLoc (updateStatement b geo id) with
         | Some e => locPlaceholders e
         | None => []
         end
      ++ [upd_where (updateStatement b geo id)]
      = seq 1 (length (upd_params (updateStatement b geo id))))%nat
  /\ param (upd_params (updateStatement b geo id))
           (length (upd_params (updateStatement b geo id))) = VText id.
Proof.
  split; [|split; [|split]].
  - unfold insertStatement. destruct (ev_lat ev), (ev_lon ev); reflexivity.
  - unfold insertStatement. destruct (ev_lat ev), (ev_lon ev); cbn; auto.
  - unfold updateStatement. destruct (Geo.lat geo), (Geo.lon geo); reflexivity.
  - unfold updateStatement. destruct (Geo.lat geo), (Geo.lon geo); reflexivity.
Qed.

(** A query without its radius parameters, and one without its types. *)
Definition withoutRadius (q : query) : query :=
  {| q_types := q_types q; q_type := q_type q; q_typesArr := q_typesArr q;
     q_lat := None; q_lng := None; q_radius := None;
     q_date := q_date q; q_timeOfDay := q_timeOfDay q |}.

Definition withoutTypes (q : query) : query := onlyTypes QAbsent QAbsent QAbsent q.

(** X21: the filters only narrow: a row returned for a query is also
    returned for the same query without its radius parameters, and for the
    same query without its types. *)
Theorem filters_only_narrow h pg q r :
  matches pg (buildQuery h q) r = true ->
  matches pg (buildQuery h (withoutRadius q)) r = true
  /\ matches pg (buildQuery h (withoutTypes q)) r = true.
Proof.
  rewrite !matches_buildQuery. intros H.
  apply andb_true_iff in H. destruct H as [H Hradius].
  apply andb_true_iff in H. destruct H as [Htype Hdate].
  split.
  - change (typesOf (withoutRadius q)) with (typesOf q).
    change (dateOk pg (withoutRadius q) r) with (dateOk pg q r).
    rewrite Htype, Hdate. reflexivity.
  - change (typesOf (withoutTypes q)) with (@nil string).
    change (dateOk pg (withoutTypes q) r) with (dateOk pg q r).
    change (radiusOk h pg (withoutTypes q) r) with (radiusOk h pg q r).
    rewrite Hdate, Hradius. reflexivity.
Qed.

Lemma filters_only_narrow_witness :
  matches Samples.samplePg (buildQuery Samples.sampleHost triviaOrDrinks)
    (eventOfType "DRINK DEALS") = true
  /\ matches Samples.samplePg (buildQuery Samples.sampleHost (withoutRadius triviaOrDrinks))
       (eventOfType "DRINK DEALS") = true
  /\ matches Samples.samplePg (buildQuery Samples.sampleHost (withoutTypes triviaOrDrinks))
       (eventOfType "DRINK DEALS") = true.
Proof.
  split; [reflexivity|].
  apply (filters_only_narrow Samples.sampleHost Samples.samplePg triviaOrDrinks
           (eventOfType "DRINK DEALS")).
  reflexivity.
Defined.

End FilterMore.


(** ** More on the CSV import *)

Module ImportMore.
Import JsString Sql Adapter Recurrence Handlers LineFacts ImportFacts CreationFacts.

Lemma importLines_appends h header lines : forall inserted st resp st',
  importLines h header lines inserted st = Some (resp, st') ->
  exists new,
    rows st' = rows st ++ new
    /\ nextId st' = nextId st + Z.of_nat (length new)
    /\ (forall n, resp = Imported n -> n = (inserted + length new)%nat)
    /\ (forall msg, resp <> BadRequest msg).
Proof.
  induction lines as [|line lines IH]; intros inserted st resp st' Hrun;
    cbn [importLines] in Hrun.
  - inversion Hrun; subst. exists []. rewrite app_nil_r. cbn [length].
    split; [reflexivity|]. split; [lia|]. split; [|discriminate].
    intros n E. inversion E. lia.
  - cbv zeta in Hrun.
    destruct (Geo.geocodeIfNeeded _ _ _ _) as [geo|].
    + destruct (expandRecord _ _ _ _ _) as [instances|]; [|discriminate].
      rewrite insertAll_rows in Hrun.
      apply IH in Hrun. destruct Hrun as [new [Hrows [Hnext [Hcount Hnot]]]].
      cbn [rows nextId] in Hrows, Hnext.
      match type of Hrows with
      | _ = (_ ++ ?fresh) ++ _ => exists (fresh ++ new)
      end.
      rewrite length_map, freshRows_length, length_map in Hcount.
      rewrite length_app, freshRows_length, length_map.
      split; [now rewrite app_assoc|]. split; [lia|]. split; [|exact Hnot].
      intros n E. specialize (Hcount n E). lia.
    + inversion Hrun; subst. exists []. rewrite app_nil_r. cbn [length].
      split; [reflexivity|]. split; [lia|]. split; discriminate.
Qed.

(** X22: whatever the body, POST /admin/import only appends rows: the rows
    of the table stay as they were, in place.  An answer [inserted: n]
    comes with exactly [n] new rows; a 400 comes with none; a 500 may come
    with the rows of the records imported before the failure, which are not
    rolled back. *)
Theorem import_only_appends h csv st resp st' :
  importCsv h csv st = Some (resp, st') ->
  exists new,
    rows st' = rows st ++ new
    /\ nextId st' = nextId st + Z.of_nat (length new)
    /\ (forall n, resp = Imported n -> length new = n)
    /\ (forall msg, resp = BadRequest msg -> new = [] /\ st' = st)
    /\ ((exists n, resp = Imported n) \/ (exists msg, resp = BadRequest msg)
        \/ resp = ServerError).
Proof.
  unfold importCsv. intros Hrun.
  assert (Hbad : forall msg, Some (BadRequest msg, st) = Some (resp, st') ->
            exists new : list row,
              rows st' = rows st ++ new
              /\ nextId st' = nextId st + Z.of_nat (length new)
              /\ (forall n, resp = Imported n -> length new = n)
              /\ (forall msg, resp = BadRequest msg -> new = [] /\ st' = st)
              /\ ((exists n, resp = Imported n) \/ (exists msg, resp = BadRequest msg)
                  \/ resp = ServerError)).
  { intros msg E. inversion E; subst. exists []. rewrite app_nil_r. cbn [length].
    split; [reflexivity|]. split; [lia|]. split; [discriminate|].
    split; [auto|]. right. left. eauto. }
  destruct (filter truthy (splitLines csv)) as [|first lines]; [exact (Hbad _ Hrun)|].
  destruct (missing "name" _); [exact (Hbad _ Hrun)|].
  destruct (missing "type" _); [exact (Hbad _ Hrun)|].
  destruct (missing "start_time" _); [exact (Hbad _ Hrun)|].
  match type of Hrun with
  | importLines _ ?header _ _ _ = _ =>
      pose proof (importLines_result h header lines 0 st) as [resp0 [st0 [E0 Hkind]]]
  end.
  rewrite E0 in Hrun. inversion Hrun; subst resp0 st0.
  apply importLines_appends in E0. destruct E0 as [new [Hrows [Hnext [Hcount Hnot]]]].
  exists new. split; [exact Hrows|]. split; [exact Hnext|].
  split; [intros n E; specialize (Hcount n E); lia|].
  split; [intros msg E; now destruct (Hnot msg)|].
  destruct Hkind as [Hkind|Hkind]; auto.
Qed.

(** Two records with explicit coordinates under a header. *)
Definition twoPinned : string :=
  "name,type,start_time,lat,lon" ++ nl
  ++ "Trivia Night,Trivia,2024-01-01T19:00:00,35.25,-80.75" ++ nl
  ++ "Karaoke,Karaoke,2024-01-02T20:00:00,35.5,-80.5" ++ nl.

Lemma import_only_appends_witness :
  exists st' new,
    importCsv Samples.sampleHost twoPinned StoreFacts.twoEvents
    = Some (Imported 2, st')
    /\ rows st' = rows StoreFacts.twoEvents ++ new
    /\ length new = 2%nat.
Proof.
  destruct (importCsv Samples.sampleHost twoPinned StoreFacts.twoEvents)
    as [[resp st']|] eqn:E; [|vm_compute in E; discriminate].
  assert (Hresp : resp = Imported 2).
  { pose proof E as E'. vm_compute in E'. now inversion E'. }
  subst resp.
  destruct (import_only_appends Samples.sampleHost twoPinned StoreFacts.twoEvents
              (Imported 2) st' E) as [new [Hrows [_ [Hcount _]]]].
  exists st', new. split; [reflexivity|]. split; [exact Hrows|].
  now apply Hcount.
Defined.

(** The first record is kept when the lookup for the second fails. *)
Example import_keeps_rows_before_failure :
  option_map (fun res => (fst res, length (rows (snd res))))
    (importCsv CreationFacts.offlineHost
       ("name,type,start_time,lat,lon,address" ++ nl
        ++ "Trivia Night,Trivia,2024-01-01T19:00:00,35.25,-80.75," ++ nl
        ++ "Karaoke,Karaoke,2024-01-02T20:00:00,,,Charlotte NC" ++ nl)
       emptyStore)
  = Some (ServerError, 1%nat).
Proof. vm_compute. reflexivity. Qed.

(** The header of a CSV body, from its first non-empty line. *)
Definition headerOf (first : string) : list string :=
  map (fun c => toLowerCase (trim c)) (split comma first).

Lemma missing_false k header : missing k header = false <-> In k header.
Proof.
  unfold missing. rewrite negb_false_iff. apply TypeFacts.existsb_eqb_In.
Qed.

(** X23: the columns are found by name, each header cell being trimmed and
    lower-cased, wherever they stand.  The first of name, type and
    start_time that the header lacks is reported by 400
    [Missing column: ...] and nothing is inserted; with the three present
    the lines after the header are imported. *)
Theorem import_missing_columns h csv st first rest :
  keptLines csv = first :: rest ->
  (forall k, missing k (headerOf first) = false
             <-> exists cell, In cell (split comma first)
                              /\ toLowerCase (trim cell) = k)
  /\ (missing "name" (headerOf first) = true ->
      importCsv h csv st = Some (BadRequest "Missing column: name", st))
  /\ (missing "name" (headerOf first) = false ->
      missing "type" (headerOf first) = true ->
      importCsv h csv st = Some (BadRequest "Missing column: type", st))
  /\ (missing "name" (headerOf first) = false ->
      missing "type" (headerOf first) = false ->
      missing "start_time" (headerOf first) = true ->
      importCsv h csv st = Some (BadRequest "Missing column: start_time", st))
  /\ (missing "name" (headerOf first) = false ->
      missing "type" (headerOf first) = false ->
      missing "start_time" (headerOf first) = false ->
      importCsv h csv st = importLines h (headerOf first) rest 0 st).
Proof.
  intros Hlines. unfold keptLines in Hlines.
  split.
  { intros k. rewrite missing_false. unfold headerOf. rewrite in_map_iff.
    split; intros [cell [H1 H2]]; exists cell; auto. }
  unfold importCsv. rewrite Hlines. fold (headerOf first).
  repeat split; intros; repeat match goal with
                               | H : missing _ _ = _ |- _ => rewrite H; clear H
                               end; reflexivity.
Qed.

Lemma import_missing_columns_witness :
  keptLines (" Name ,TYPE,lat" ++ nl) = [" Name ,TYPE,lat"]
  /\ missing "name" (headerOf " Name ,TYPE,lat") = false
  /\ missing "type" (headerOf " Name ,TYPE,lat") = false
  /\ missing "start_time" (headerOf " Name ,TYPE,lat") = true
  /\ importCsv Samples.sampleHost (" Name ,TYPE,lat" ++ nl) emptyStore
     = Some (BadRequest "Missing column: start_time", emptyStore).
Proof.
  repeat (split; [reflexivity|]).
  destruct (import_missing_columns Samples.sampleHost (" Name ,TYPE,lat" ++ nl)
              emptyStore " Name ,TYPE,lat" [] eq_refl) as [_ [_ [_ [H _]]]].
  apply H; reflexivity.
Defined.

(** The cell of column [i] as the import reads it. *)
Definition cellAt (parts : list string) (i : nat) : string :=
  match nth_error parts i with
  | Some p => if truthy p then trim p else ""
  | None => ""
  end.

Lemma getField_from rec key : forall acc,
  fold_left (fun acc kv => if String.eqb (fst kv) key then Some (snd kv) else acc)
            rec acc
  = match getField rec key with
    | Some v => Some v
    | None => acc
    end.
Proof.
  unfold getField. induction rec as [|[k v] rec IH]; intros acc; [reflexivity|].
  cbn [fold_left fst snd]. rewrite IH. rewrite (IH (if String.eqb k key then _ else _)).
  destruct (fold_left _ rec None); [reflexivity|].
  destruct (String.eqb k key); reflexivity.
Qed.

Lemma getField_cons k v rec key :
  getField ((k, v) :: rec) key
  = match getField rec key with
    | Some v' => Some v'
    | None => if String.eqb k key then Some v else None
    end.
Proof. unfold getField at 1. cbn [fold_left fst snd]. now rewrite getField_from. Qed.

Lemma entries_cons k header parts :
  entries (k :: header) parts = (k, cellAt parts 0) :: entries header (tl parts).
Proof. destruct parts; reflexivity. Qed.

Lemma cellAt_tl parts i : cellAt (tl parts) i = cellAt parts (S i).
Proof. unfold cellAt. destruct parts; [now destruct i|reflexivity]. Qed.

Lemma getField_absent header : forall parts key,
  ~ In key header -> getField (entries header parts) key = None.
Proof.
  induction header as [|k header IH]; intros parts key Hnot; [reflexivity|].
  rewrite entries_cons, getField_cons, IH by (intros H; apply Hnot; now right).
  destruct (String.eqb k key) eqn:E; [|reflexivity].
  apply String.eqb_eq in E. exfalso. apply Hnot. now left.
Qed.

Lemma getField_last header : forall parts key i,
  nth_error header i = Some key ->
  (forall j, (i < j)%nat -> nth_error header j <> Some key) ->
  getField (entries header parts) key = Some (cellAt parts i).
Proof.
  induction header as [|k header IH]; intros parts key i Hi Hlast.
  - destruct i; discriminate.
  - rewrite entries_cons, getField_cons. destruct i as [|i].
    + inversion Hi; subst k. rewrite getField_absent, String.eqb_refl; [reflexivity|].
      intros Hin. apply In_nth_error in Hin. destruct Hin as [j Hj].
      apply (Hlast (S j)); [lia|exact Hj].
    + rewrite (IH (tl parts) key i), cellAt_tl; [reflexivity|exact Hi|].
      intros j Hj. apply (Hlast (S j)). lia.
Qed.

(** X24: a record is read by column name: the field [key] is the cell
    under the last header column named [key], trimmed; a line too short to
    have that cell gives the empty string, as does an empty cell; cells
    beyond the header are not read; and a name the header does not have
    gives no field at all. *)
Theorem record_fields_by_name header parts key i :
  nth_error header i = Some key ->
  (forall j, (i < j)%nat -> nth_error header j <> Some key) ->
  getField (entries header parts) key = Some (cellAt parts i)
  /\ (length parts <= i -> getField (entries header parts) key = Some "")%nat
  /\ (forall extra, getField (entries header (parts ++ extra)) key
                    = if (i <? length parts)%nat
                      then getField (entries header parts) key
                      else Some (cellAt (parts ++ extra) i))
  /\ (forall other, ~ In other header ->
        getField (entries header parts) other = None).
Proof.
  intros Hi Hlast. split; [|split; [|split]].
  - now apply getField_last.
  - intros Hshort. rewrite (getField_last header parts key i Hi Hlast).
    unfold cellAt. apply nth_error_None in Hshort. now rewrite Hshort.
  - intros extra. rewrite !(getField_last header _ key i Hi Hlast).
    destruct (i <? length parts)%nat eqn:E; [|reflexivity].
    apply Nat.ltb_lt in E. unfold cellAt. now rewrite nth_error_app1.
  - intros other Hnot. now apply getField_absent.
Qed.

Lemma record_fields_by_name_witness :
  getField (entries ["type"; "name"; "start_time"] ["Trivia"; " Trivia Night "])
           "name"
  = Some "Trivia Night"
  /\ getField (entries ["type"; "name"; "start_time"] ["Trivia"; " Trivia Night "])
              "start_time"
     = Some "".
Proof.
  split.
  - apply (record_fields_by_name ["type"; "name"; "start_time"]
             ["Trivia"; " Trivia Night "] "name" 1 eq_refl).
    intros [|[|[|[|j]]]] Hj; try lia; discriminate.
  - apply (record_fields_by_name ["type"; "name"; "start_time"]
             ["Trivia"; " Trivia Night "] "start_time" 2 eq_refl).
    intros [|[|[|[|j]]]] Hj; try lia; discriminate.
Defined.

(** The body POST /admin/events would be sent for a CSV record: the
    fields of the record, [lat] and [lon] read by [parseFloat], the
    recurrence in lower case. *)
Definition bodyOfRecord (h : Host) (rec : list (string * string)) : postBody :=
  {| post_name := getField rec "name";
     post_type := getField rec "type";
     post_description := orNull (getField rec "description");
     post_address_name := orNull (getField rec "address_name");
     post_address := orNull (getField rec "address");
     post_lat := match orNull (getField rec "lat") with
                 | Some s => Some (parseFloat h s)
                 | None => None
                 end;
     post_lon := match orNull (getField rec "lon") with
                 | Some s => Some (parseFloat h s)
                 | None => None
                 end;
     post_start_time := orNull (getField rec "start_time");
     post_end_time := orNull (getField rec "end_time");
     post_recurrence :=
       Some (toLowerCase (match orNull (getField rec "recurrence") with
                          | Some r => r
                          | None => "none"
                          end));
     post_recurrence_until := orNull (getField rec "recurrence_until") |}.

(** The answer of the import for the answer of a creation. *)
Definition asImported (res : response * store) : response * store :=
  match fst res with
  | Created n _ => (Imported n, snd res)
  | resp => (resp, snd res)
  end.

Lemma orNull_idem v : orNull (orNull v) = orNull v.
Proof. destruct v as [[|c s]|]; reflexivity. Qed.

(** X25: importing one CSV record whose name, type and start_time are not
    empty does what POST /admin/events does for the same fields: the same
    lookup, the same expansion, the same rows, and [inserted] is the count
    POST reports. *)
Theorem import_record_as_post h header line st :
  postComplete (bodyOfRecord h (entries header (split comma line))) = true ->
  importLines h header [line] 0 st
  = option_map asImported
      (postEvent h (bodyOfRecord h (entries header (split comma line))) st).
Proof.
  intros Hcomplete. unfold postEvent.
  unfold postComplete in Hcomplete.
  apply andb_true_iff in Hcomplete. destruct Hcomplete as [Hc Hstart].
  apply andb_true_iff in Hc. destruct Hc as [Hname Htype].
  rewrite Hname, Htype, Hstart. cbn [negb orb].
  cbn [importLines]. cbv zeta.
  cbn [bodyOfRecord post_address post_lat post_lon post_start_time post_end_time
       post_recurrence post_recurrence_until post_name post_type post_description
       post_address_name].
  destruct (Geo.geocodeIfNeeded _ _ _ _) as [geo|]; [|reflexivity].
  unfold expandRecord, toTimestamp. rewrite !orNull_idem.
  destruct (expand _ _ _ _ _) as [instances|]; [|reflexivity].
  rewrite !insertAll_rows. cbn [option_map asImported fst snd].
  rewrite !length_map, !freshRows_length, !length_map. reflexivity.
Qed.

Lemma import_record_as_post_witness :
  importLines Samples.sampleHost ["name"; "type"; "start_time"; "recurrence"]
    ["Trivia Night,Trivia,2024-01-01T19:00:00,Weekly"] 0 emptyStore
  = option_map asImported
      (postEvent Samples.sampleHost
         (bodyOfRecord Samples.sampleHost
            (entries ["name"; "type"; "start_time"; "recurrence"]
               (split comma "Trivia Night,Trivia,2024-01-01T19:00:00,Weekly")))
         emptyStore).
Proof.
  apply (import_record_as_post Samples.sampleHost
           ["name"; "type"; "start_time"; "recurrence"]
           "Trivia Night,Trivia,2024-01-01T19:00:00,Weekly" emptyStore).
  reflexivity.
Defined.

End ImportMore.


(** ** The two listings and the draft of the PUT route *)

Module Listings.
Import JsString Sql Adapter Filter.

(** The sort key of a row: its [start_time] as a timestamp, NULL as [None]. *)
Definition startKey (pg : Postgres) (r : row) : option Z :=
  asTimestamp pg (r_start_time r).

(** The order of [ORDER BY start_time ASC]: NULL sorts after every timestamp. *)
Definition keyLe (a b : option Z) : bool :=
  match a, b with
  | Some x, Some y => x <=? y
  | _, None => true
  | None, Some _ => false
  end.

(** [ORDER BY]: [le] is the order on the keys; rows with equal keys stay
    in the order of the table. *)
Fixpoint insertRow (key : row -> option Z) (le : option Z -> option Z -> bool)
    (r : row) (sorted : list row) : list row :=
  match sorted with
  | [] => [r]
  | x :: rest =>
      if le (key r) (key x)
      then r :: sorted
      else x :: insertRow key le r rest
  end.

Definition orderBy (key : row -> option Z) (le : option Z -> option Z -> bool)
    (l : list row) : list row :=
  fold_right (insertRow key le) [] l.

(** GET /events: the rows that pass the WHERE clause,
    [ORDER BY start_time ASC LIMIT 200], as response records.  (A statement
    the store refuses, such as one with a date it cannot read, is answered
    500; as in [holds], such a statement selects no row here.) *)
Definition getEvents (h : Host) (pg : Postgres) (q : query) (st : store) : list record :=
  map selectRow
    (firstn 200 (orderBy (startKey pg) keyLe
                   (filter (matches pg (buildQuery h q)) (rows st)))).

(** GET /admin/events: all rows, [ORDER BY start_time DESC LIMIT 500]. *)
Definition adminEvents (pg : Postgres) (st : store) : list record :=
  map selectRow
    (firstn 500 (orderBy (startKey pg) (fun a b => keyLe b a) (rows st))).

(** [params.splice(7, 0, x, y)] *)
Definition spliceAt7 (params : list value) (x y : value) : list value :=
  firstn 7 params ++ [x; y] ++ skipn 7 params.

(** The statement of PUT /admin/events/:id in the second draft of the
    server: the id is bound from the start, the coordinates are spliced in
    before it, and the id is pushed once more. *)
Definition draftUpdateStatement (b : putBody) (geo : Geo.coords) (id : string)
    : updateStmt :=
  let params :=
    [ofString (put_name b); ofString (put_type b);
     ofString (orNull (put_description b)); ofString (orNull (put_address_name b));
     ofString (orNull (put_address b)); ofString (put_start_time b);
     ofString (orNull (put_end_time b)); VText id] in
  match Geo.lat geo, Geo.lon geo with
  | Some la, Some lo =>
      let params := spliceAt7 params (VFloat lo) (VFloat la) in
      let params := params ++ [VText id] in
      {| upd_setLoc := Some (LocMakePoint 8 9); upd_where := 10; upd_params := params |}
  | _, _ => {| upd_setLoc := None; upd_where := 8; upd_params := params |}
  end.

End Listings.

Module ListingFacts.
Import JsString Sql Adapter Filter Listings.

(** X26: the PUT route of the second draft builds the statement of the
    first, with the same first parameters; but when a coordinate pair is
    resolved it binds the id twice, 11 parameters for a statement that
    reads 10, where the first handler binds exactly 10. *)
Theorem draft_put_binds_id_twice b geo id :
  upd_setLoc (draftUpdateStatement b geo id) = upd_setLoc (updateStatement b geo id)
  /\ upd_where (draftUpdateStatement b geo id) = upd_where (updateStatement b geo id)
  /\ (Geo.lat geo = None \/ Geo.lon geo = None ->
      draftUpdateStatement b geo id = updateStatement b geo id)
  /\ (Geo.lat geo <> None -> Geo.lon geo <> None ->
      upd_params (draftUpdateStatement b geo id)
      = upd_params (updateStatement b geo id) ++ [VText id]
      /\ length (upd_params (draftUpdateStatement b geo id)) = 11%nat
      /\ length (upd_params (updateStatement b geo id)) = 10%nat
      /\ upd_where (draftUpdateStatement b geo id) = 10%nat).
Proof.
  unfold draftUpdateStatement, updateStatement.
  destruct (Geo.lat geo), (Geo.lon geo); cbn; repeat split; try reflexivity;
    try congruence; intros [E|E]; discriminate.
Qed.

(** An order on keys in which any two keys compare. *)
Definition totalOrder (le : option Z -> option Z -> bool) : Prop :=
  forall a b, le a b = false -> le b a = true.

Lemma keyLe_total : totalOrder keyLe.
Proof.
  intros [x|] [y|]; simpl; try congruence. intros H.
  apply Z.leb_gt in H. apply Z.leb_le. lia.
Qed.

Lemma keyGe_total : totalOrder (fun a b => keyLe b a).
Proof. intros a b. apply keyLe_total. Qed.

Section OrderBy.
Variable key : row -> option Z.
Variable le : option Z -> option Z -> bool.
Hypothesis le_total : totalOrder le.

Let inOrder (x y : row) : Prop := le (key x) (key y) = true.

Lemma insertRow_perm r l : Permutation (insertRow key le r l) (r :: l).
Proof.
  induction l as [|x l IH]; simpl; [apply Permutation_refl|].
  destruct (le (key r) (key x)); [apply Permutation_refl|].
  eapply Permutation_trans; [apply perm_skip, IH|apply perm_swap].
Qed.

Lemma orderBy_perm l : Permutation (orderBy key le l) l.
Proof.
  induction l as [|x l IH]; simpl; [constructor|].
  eapply Permutation_trans; [apply insertRow_perm|now apply perm_skip].
Qed.

Lemma insertRow_HdRel x r l :
  inOrder x r -> HdRel inOrder x l -> HdRel inOrder x (insertRow key le r l).
Proof.
  intros Hxr Hxl. destruct l as [|y l]; simpl; [now constructor|].
  destruct (le (key r) (key y)); constructor; [exact Hxr|].
  now inversion Hxl.
Qed.

Lemma insertRow_sorted r l : Sorted inOrder l -> Sorted inOrder (insertRow key le r l).
Proof.
  induction l as [|x l IH]; intros Hs; simpl.
  - repeat constructor.
  - destruct (le (key r) (key x)) eqn:E.
    + constructor; [exact Hs|]. now constructor.
    + inversion Hs; subst. constructor; [now apply IH|].
      apply insertRow_HdRel; [|assumption]. now apply le_total.
Qed.

Lemma orderBy_sorted l : Sorted inOrder (orderBy key le l).
Proof.
  induction l as [|x l IH]; simpl; [constructor|now apply insertRow_sorted].
Qed.

Lemma firstn_sorted n : forall l, Sorted inOrder l -> Sorted inOrder (firstn n l).
Proof.
  induction n as [|n IH]; intros l Hs; [constructor|].
  destruct l as [|x l]; [constructor|]. simpl. inversion Hs; subst.
  constructor; [now apply IH|].
  destruct l as [|y l]; [destruct n; constructor|].
  destruct n; simpl; constructor. now inversion H2.
Qed.

End OrderBy.

Lemma firstn_subset {A} n : forall (l : list A) x, In x (firstn n l) -> In x l.
Proof.
  induction n as [|n IH]; intros l x Hx; [destruct Hx|].
  destruct l as [|y l]; [destruct Hx|].
  destruct Hx as [E|Hx]; [now left|right; now apply IH].
Qed.

(** X27: GET /events returns at most 200 records; each is the decoding of
    a stored row that passes the WHERE clause; they come in ascending
    order of start_time; and when at most 200 rows pass, each of them is
    returned exactly once. *)
Theorem public_listing h pg q st :
  exists listed,
    getEvents h pg q st = map selectRow listed
    /\ (length (getEvents h pg q st) <= 200)%nat
    /\ (forall r, In r listed ->
          In r (rows st) /\ matches pg (buildQuery h q) r = true)
    /\ Sorted (fun x y => keyLe (startKey pg x) (startKey pg y) = true) listed
    /\ ((length (filter (matches pg (buildQuery h q)) (rows st)) <= 200)%nat ->
        Permutation listed (filter (matches pg (buildQuery h q)) (rows st))).
Proof.
  unfold getEvents.
  set (passing := filter (matches pg (buildQuery h q)) (rows st)).
  exists (firstn 200 (orderBy (startKey pg) keyLe passing)).
  split; [reflexivity|]. split; [rewrite length_map; apply firstn_le_length|].
  split; [|split].
  - intros r Hr. apply firstn_subset in Hr.
    apply (Permutation_in _ (orderBy_perm _ _ passing)) in Hr.
    now apply filter_In in Hr.
  - apply firstn_sorted, orderBy_sorted, keyLe_total.
  - intros Hfew. rewrite firstn_all2; [apply orderBy_perm|].
    now rewrite (Permutation_length (orderBy_perm _ _ passing)).
Qed.

(** X28: GET /admin/events returns at most 500 records, each the decoding
    of a stored row, in descending order of start_time (rows without one
    first); a table of at most 500 rows is listed whole, each row once. *)
Theorem admin_listing pg st :
  exists listed,
    adminEvents pg st = map selectRow listed
    /\ (length (adminEvents pg st) <= 500)%nat
    /\ (forall r, In r listed -> In r (rows st))
    /\ Sorted (fun x y => keyLe (startKey pg y) (startKey pg x) = true) listed
    /\ ((length (rows st) <= 500)%nat -> Permutation listed (rows st)).
Proof.
  unfold adminEvents.
  exists (firstn 500 (orderBy (startKey pg) (fun a b => keyLe b a) (rows st))).
  split; [reflexivity|]. split; [rewrite length_map; apply firstn_le_length|].
  split; [|split].
  - intros r Hr. apply firstn_subset in Hr.
    now apply (Permutation_in _ (orderBy_perm _ _ (rows st))) in Hr.
  - apply (firstn_sorted (startKey pg) (fun a b => keyLe b a)).
    apply (orderBy_sorted (startKey pg) (fun a b => keyLe b a) keyGe_total).
  - intros Hfew. rewrite firstn_all2; [apply orderBy_perm|].
    now rewrite (Permutation_length (orderBy_perm _ _ (rows st))).
Qed.

Example listing_in_order :
  map o_start_time
    (getEvents Samples.sampleHost Samples.samplePg QueryFacts.eveningOfJune1
       {| rows := [QueryFacts.eventAt "2024-06-01 21:00:00";
                   QueryFacts.eventAt "2024-06-01 10:00:00";
                   QueryFacts.eventAt "2024-06-01 18:30:00"];
          nextId := 4 |})
  = [VText "2024-06-01 18:30:00"; VText "2024-06-01 21:00:00"].
Proof. vm_compute. reflexivity. Qed.

End ListingFacts.
